(** * MyVOICE browser extension: extraction, identity/scoring and scrape orchestration

    A shallow embedding of the JavaScript of the extension (content script,
    background service worker and popup) together with the properties of its
    number/time normalizer, identity keys, deduplication, ranking, error
    classification and single-flight scrape orchestrator.

    Conventions of the embedding.
    - A JavaScript string is the list of its UTF-16 code units ([str]).
      A missing / [null] / [undefined] string field is the empty string: every
      use in the source goes through [x || empty] or [cleanText(x)].
    - A JavaScript number is a binary64 value ([F64.num]): every operation
      rounds its exact result to the format.  Time values, lengths and
      indices, which are integers within the exact range, are in [Z].
    - Host services whose behaviour is fixed by the browser and not by this
      repository (the parsing of date strings and of URLs, [JSON.stringify])
      are fields of the [Host] class. *)

From Stdlib Require Import ZArith NArith QArith Qround Qabs Qpower Qreduction Qcanon Lia Lqa Bool
  String Ascii List Sorted.
From stdpp Require Import base option list gmap sets.
Import ListNotations.

Local Open Scope Z_scope.

(** ** JavaScript strings *)

Module JS.

Definition str := list N.

(** UTF-8 bytes of a Rocq string literal to code units (code points of the
    Basic Multilingual Plane only; the literals of this file need no more). *)
Fixpoint utf8_decode (bs : list N) (pending : nat) (acc : N) : str :=
  match bs with
  | [] => []
  | b :: rest =>
    match pending with
    | O =>
      if (b <? 128)%N then b :: utf8_decode rest 0 0%N
      else if (b <? 224)%N then utf8_decode rest 1 (b mod 32)%N
      else utf8_decode rest 2 (b mod 16)%N
    | S O => (acc * 64 + b mod 64)%N :: utf8_decode rest 0 0%N
    | S p => utf8_decode rest p (acc * 64 + b mod 64)%N
    end
  end.

Fixpoint bytes_of (s : string) : list N :=
  match s with
  | EmptyString => []
  | String a s' => N_of_ascii a :: bytes_of s'
  end.

Definition js (s : string) : str := utf8_decode (bytes_of s) 0 0%N.
Arguments js s%_string.

Definition str_eqb (a b : str) : bool := bool_decide (a = b).

(** Truthiness of a string: the empty string is falsy. *)
Definition truthy (s : str) : bool :=
  match s with [] => false | _ => true end.

(** [a || b] on strings. *)
Definition or_else (a b : str) : str := if truthy a then a else b.

(** *** Character classes *)

Definition in_range (lo hi c : N) : bool := ((lo <=? c) && (c <=? hi))%N.

(** [\d] *)
Definition is_digit (c : N) : bool := in_range 48 57 c.

(** [\s]: WhiteSpace and LineTerminator code units. *)
Definition is_space (c : N) : bool :=
  in_range 9 13 c || (c =? 32)%N || (c =? 160)%N || (c =? 5760)%N
  || in_range 8192 8202 c || (c =? 8232)%N || (c =? 8233)%N
  || (c =? 8239)%N || (c =? 8287)%N || (c =? 12288)%N || (c =? 65279)%N.

(** [\w] without the unicode flag: [A-Za-z0-9_] only. *)
Definition is_word (c : N) : bool :=
  in_range 65 90 c || in_range 97 122 c || is_digit c || (c =? 95)%N.

(** Canonicalize of a non-unicode, ignore-case regular expression: the
    upper-case mapping, never from a non-ASCII unit into ASCII.  The table
    covers Basic Latin and the Cyrillic letters that map onto U+0400..U+042F,
    the only blocks the patterns of the source draw from. *)
Definition canon (c : N) : N :=
  if in_range 97 122 c then (c - 32)%N
  else if in_range 1072 1103 c then (c - 32)%N
  else if in_range 1104 1119 c then (c - 80)%N
  else if (c =? 7296)%N then 1042%N
  else if (c =? 7297)%N then 1044%N
  else if (c =? 7298)%N then 1054%N
  else if (c =? 7299)%N then 1057%N
  else if in_range 7300 7301 c then 1058%N
  else if (c =? 7302)%N then 1066%N
  else c.

(** *** Letter case

    [String.prototype.toLowerCase] works on the code points of the string
    with the full case mapping of the Unicode Character Database: the
    lower-case mapping of each code point, the two special cases that do not
    depend on the language (U+0130 becomes U+0069 U+0307; a capital sigma
    becomes a final sigma at the end of a word), and nothing else.  The
    tables are those of Unicode 14.0. *)

(** The simple lower-case mappings, as runs [(first, last, delta, stride)]:
    the code points [first], [first + stride], ... up to [last] map to
    themselves plus [delta]. *)
Definition lower_runs : list (N * N * Z * N) :=
  [
    (65, 90, 32%Z, 1); (192, 214, 32%Z, 1); (216, 222, 32%Z, 1); (256, 302, 1%Z, 2);
    (306, 310, 1%Z, 2); (313, 327, 1%Z, 2); (330, 374, 1%Z, 2); (376, 376, (-121)%Z, 1);
    (377, 381, 1%Z, 2); (385, 385, 210%Z, 1); (386, 388, 1%Z, 2); (390, 390, 206%Z, 1);
    (391, 391, 1%Z, 1); (393, 394, 205%Z, 1); (395, 395, 1%Z, 1); (398, 398, 79%Z, 1);
    (399, 399, 202%Z, 1); (400, 400, 203%Z, 1); (401, 401, 1%Z, 1); (403, 403, 205%Z, 1);
    (404, 404, 207%Z, 1); (406, 406, 211%Z, 1); (407, 407, 209%Z, 1); (408, 408, 1%Z, 1);
    (412, 412, 211%Z, 1); (413, 413, 213%Z, 1); (415, 415, 214%Z, 1); (416, 420, 1%Z, 2);
    (422, 422, 218%Z, 1); (423, 423, 1%Z, 1); (425, 425, 218%Z, 1); (428, 428, 1%Z, 1);
    (430, 430, 218%Z, 1); (431, 431, 1%Z, 1); (433, 434, 217%Z, 1); (435, 437, 1%Z, 2);
    (439, 439, 219%Z, 1); (440, 440, 1%Z, 1); (444, 444, 1%Z, 1); (452, 452, 2%Z, 1);
    (453, 453, 1%Z, 1); (455, 455, 2%Z, 1); (456, 456, 1%Z, 1); (458, 458, 2%Z, 1);
    (459, 475, 1%Z, 2); (478, 494, 1%Z, 2); (497, 497, 2%Z, 1); (498, 500, 1%Z, 2);
    (502, 502, (-97)%Z, 1); (503, 503, (-56)%Z, 1); (504, 542, 1%Z, 2); (544, 544, (-130)%Z, 1);
    (546, 562, 1%Z, 2); (570, 570, 10795%Z, 1); (571, 571, 1%Z, 1); (573, 573, (-163)%Z, 1);
    (574, 574, 10792%Z, 1); (577, 577, 1%Z, 1); (579, 579, (-195)%Z, 1); (580, 580, 69%Z, 1);
    (581, 581, 71%Z, 1); (582, 590, 1%Z, 2); (880, 882, 1%Z, 2); (886, 886, 1%Z, 1);
    (895, 895, 116%Z, 1); (902, 902, 38%Z, 1); (904, 906, 37%Z, 1); (908, 908, 64%Z, 1);
    (910, 911, 63%Z, 1); (913, 929, 32%Z, 1); (931, 939, 32%Z, 1); (975, 975, 8%Z, 1);
    (984, 1006, 1%Z, 2); (1012, 1012, (-60)%Z, 1); (1015, 1015, 1%Z, 1);
    (1017, 1017, (-7)%Z, 1); (1018, 1018, 1%Z, 1); (1021, 1023, (-130)%Z, 1);
    (1024, 1039, 80%Z, 1); (1040, 1071, 32%Z, 1); (1120, 1152, 1%Z, 2); (1162, 1214, 1%Z, 2);
    (1216, 1216, 15%Z, 1); (1217, 1229, 1%Z, 2); (1232, 1326, 1%Z, 2); (1329, 1366, 48%Z, 1);
    (4256, 4293, 7264%Z, 1); (4295, 4295, 7264%Z, 1); (4301, 4301, 7264%Z, 1);
    (5024, 5103, 38864%Z, 1); (5104, 5109, 8%Z, 1); (7312, 7354, (-3008)%Z, 1);
    (7357, 7359, (-3008)%Z, 1); (7680, 7828, 1%Z, 2); (7838, 7838, (-7615)%Z, 1);
    (7840, 7934, 1%Z, 2); (7944, 7951, (-8)%Z, 1); (7960, 7965, (-8)%Z, 1);
    (7976, 7983, (-8)%Z, 1); (7992, 7999, (-8)%Z, 1); (8008, 8013, (-8)%Z, 1);
    (8025, 8031, (-8)%Z, 2); (8040, 8047, (-8)%Z, 1); (8072, 8079, (-8)%Z, 1);
    (8088, 8095, (-8)%Z, 1); (8104, 8111, (-8)%Z, 1); (8120, 8121, (-8)%Z, 1);
    (8122, 8123, (-74)%Z, 1); (8124, 8124, (-9)%Z, 1); (8136, 8139, (-86)%Z, 1);
    (8140, 8140, (-9)%Z, 1); (8152, 8153, (-8)%Z, 1); (8154, 8155, (-100)%Z, 1);
    (8168, 8169, (-8)%Z, 1); (8170, 8171, (-112)%Z, 1); (8172, 8172, (-7)%Z, 1);
    (8184, 8185, (-128)%Z, 1); (8186, 8187, (-126)%Z, 1); (8188, 8188, (-9)%Z, 1);
    (8486, 8486, (-7517)%Z, 1); (8490, 8490, (-8383)%Z, 1); (8491, 8491, (-8262)%Z, 1);
    (8498, 8498, 28%Z, 1); (8544, 8559, 16%Z, 1); (8579, 8579, 1%Z, 1); (9398, 9423, 26%Z, 1);
    (11264, 11311, 48%Z, 1); (11360, 11360, 1%Z, 1); (11362, 11362, (-10743)%Z, 1);
    (11363, 11363, (-3814)%Z, 1); (11364, 11364, (-10727)%Z, 1); (11367, 11371, 1%Z, 2);
    (11373, 11373, (-10780)%Z, 1); (11374, 11374, (-10749)%Z, 1); (11375, 11375, (-10783)%Z, 1);
    (11376, 11376, (-10782)%Z, 1); (11378, 11378, 1%Z, 1); (11381, 11381, 1%Z, 1);
    (11390, 11391, (-10815)%Z, 1); (11392, 11490, 1%Z, 2); (11499, 11501, 1%Z, 2);
    (11506, 11506, 1%Z, 1); (42560, 42604, 1%Z, 2); (42624, 42650, 1%Z, 2);
    (42786, 42798, 1%Z, 2); (42802, 42862, 1%Z, 2); (42873, 42875, 1%Z, 2);
    (42877, 42877, (-35332)%Z, 1); (42878, 42886, 1%Z, 2); (42891, 42891, 1%Z, 1);
    (42893, 42893, (-42280)%Z, 1); (42896, 42898, 1%Z, 2); (42902, 42920, 1%Z, 2);
    (42922, 42922, (-42308)%Z, 1); (42923, 42923, (-42319)%Z, 1); (42924, 42924, (-42315)%Z, 1);
    (42925, 42925, (-42305)%Z, 1); (42926, 42926, (-42308)%Z, 1); (42928, 42928, (-42258)%Z, 1);
    (42929, 42929, (-42282)%Z, 1); (42930, 42930, (-42261)%Z, 1); (42931, 42931, 928%Z, 1);
    (42932, 42946, 1%Z, 2); (42948, 42948, (-48)%Z, 1); (42949, 42949, (-42307)%Z, 1);
    (42950, 42950, (-35384)%Z, 1); (42951, 42953, 1%Z, 2); (42960, 42960, 1%Z, 1);
    (42966, 42968, 1%Z, 2); (42997, 42997, 1%Z, 1); (65313, 65338, 32%Z, 1);
    (66560, 66599, 40%Z, 1); (66736, 66771, 40%Z, 1); (66928, 66938, 39%Z, 1);
    (66940, 66954, 39%Z, 1); (66956, 66962, 39%Z, 1); (66964, 66965, 39%Z, 1);
    (68736, 68786, 64%Z, 1); (71840, 71871, 32%Z, 1); (93760, 93791, 32%Z, 1);
    (125184, 125217, 34%Z, 1)
  ]%N.

(** The code points with the property Case_Ignorable. *)
Definition case_ignorable_ranges : list (N * N) :=
  [
    (39, 39); (46, 46); (58, 58); (94, 94); (96, 96); (168, 168); (173, 173); (175, 175);
    (180, 180); (183, 184); (688, 879); (884, 885); (890, 890); (900, 901); (903, 903);
    (1155, 1161); (1369, 1369); (1375, 1375); (1425, 1469); (1471, 1471); (1473, 1474);
    (1476, 1477); (1479, 1479); (1524, 1524); (1536, 1541); (1552, 1562); (1564, 1564);
    (1600, 1600); (1611, 1631); (1648, 1648); (1750, 1757); (1759, 1768); (1770, 1773);
    (1807, 1807); (1809, 1809); (1840, 1866); (1958, 1968); (2027, 2037); (2042, 2042);
    (2045, 2045); (2070, 2093); (2137, 2139); (2184, 2184); (2192, 2193); (2200, 2207);
    (2249, 2306); (2362, 2362); (2364, 2364); (2369, 2376); (2381, 2381); (2385, 2391);
    (2402, 2403); (2417, 2417); (2433, 2433); (2492, 2492); (2497, 2500); (2509, 2509);
    (2530, 2531); (2558, 2558); (2561, 2562); (2620, 2620); (2625, 2626); (2631, 2632);
    (2635, 2637); (2641, 2641); (2672, 2673); (2677, 2677); (2689, 2690); (2748, 2748);
    (2753, 2757); (2759, 2760); (2765, 2765); (2786, 2787); (2810, 2815); (2817, 2817);
    (2876, 2876); (2879, 2879); (2881, 2884); (2893, 2893); (2901, 2902); (2914, 2915);
    (2946, 2946); (3008, 3008); (3021, 3021); (3072, 3072); (3076, 3076); (3132, 3132);
    (3134, 3136); (3142, 3144); (3146, 3149); (3157, 3158); (3170, 3171); (3201, 3201);
    (3260, 3260); (3263, 3263); (3270, 3270); (3276, 3277); (3298, 3299); (3328, 3329);
    (3387, 3388); (3393, 3396); (3405, 3405); (3426, 3427); (3457, 3457); (3530, 3530);
    (3538, 3540); (3542, 3542); (3633, 3633); (3636, 3642); (3654, 3662); (3761, 3761);
    (3764, 3772); (3782, 3782); (3784, 3789); (3864, 3865); (3893, 3893); (3895, 3895);
    (3897, 3897); (3953, 3966); (3968, 3972); (3974, 3975); (3981, 3991); (3993, 4028);
    (4038, 4038); (4141, 4144); (4146, 4151); (4153, 4154); (4157, 4158); (4184, 4185);
    (4190, 4192); (4209, 4212); (4226, 4226); (4229, 4230); (4237, 4237); (4253, 4253);
    (4348, 4348); (4957, 4959); (5906, 5908); (5938, 5939); (5970, 5971); (6002, 6003);
    (6068, 6069); (6071, 6077); (6086, 6086); (6089, 6099); (6103, 6103); (6109, 6109);
    (6155, 6159); (6211, 6211); (6277, 6278); (6313, 6313); (6432, 6434); (6439, 6440);
    (6450, 6450); (6457, 6459); (6679, 6680); (6683, 6683); (6742, 6742); (6744, 6750);
    (6752, 6752); (6754, 6754); (6757, 6764); (6771, 6780); (6783, 6783); (6823, 6823);
    (6832, 6862); (6912, 6915); (6964, 6964); (6966, 6970); (6972, 6972); (6978, 6978);
    (7019, 7027); (7040, 7041); (7074, 7077); (7080, 7081); (7083, 7085); (7142, 7142);
    (7144, 7145); (7149, 7149); (7151, 7153); (7212, 7219); (7222, 7223); (7288, 7293);
    (7376, 7378); (7380, 7392); (7394, 7400); (7405, 7405); (7412, 7412); (7416, 7417);
    (7468, 7530); (7544, 7544); (7579, 7679); (8125, 8125); (8127, 8129); (8141, 8143);
    (8157, 8159); (8173, 8175); (8189, 8190); (8203, 8207); (8216, 8217); (8228, 8228);
    (8231, 8231); (8234, 8238); (8288, 8292); (8294, 8303); (8305, 8305); (8319, 8319);
    (8336, 8348); (8400, 8432); (11388, 11389); (11503, 11505); (11631, 11631); (11647, 11647);
    (11744, 11775); (11823, 11823); (12293, 12293); (12330, 12333); (12337, 12341);
    (12347, 12347); (12441, 12446); (12540, 12542); (40981, 40981); (42232, 42237);
    (42508, 42508); (42607, 42610); (42612, 42621); (42623, 42623); (42652, 42655);
    (42736, 42737); (42752, 42785); (42864, 42864); (42888, 42890); (42994, 42996);
    (43000, 43001); (43010, 43010); (43014, 43014); (43019, 43019); (43045, 43046);
    (43052, 43052); (43204, 43205); (43232, 43249); (43263, 43263); (43302, 43309);
    (43335, 43345); (43392, 43394); (43443, 43443); (43446, 43449); (43452, 43453);
    (43471, 43471); (43493, 43494); (43561, 43566); (43569, 43570); (43573, 43574);
    (43587, 43587); (43596, 43596); (43632, 43632); (43644, 43644); (43696, 43696);
    (43698, 43700); (43703, 43704); (43710, 43711); (43713, 43713); (43741, 43741);
    (43756, 43757); (43763, 43764); (43766, 43766); (43867, 43871); (43881, 43883);
    (44005, 44005); (44008, 44008); (44013, 44013); (64286, 64286); (64434, 64450);
    (65024, 65039); (65043, 65043); (65056, 65071); (65106, 65106); (65109, 65109);
    (65279, 65279); (65287, 65287); (65294, 65294); (65306, 65306); (65342, 65342);
    (65344, 65344); (65392, 65392); (65438, 65439); (65507, 65507); (65529, 65531);
    (66045, 66045); (66272, 66272); (66422, 66426); (67456, 67461); (67463, 67504);
    (67506, 67514); (68097, 68099); (68101, 68102); (68108, 68111); (68152, 68154);
    (68159, 68159); (68325, 68326); (68900, 68903); (69291, 69292); (69446, 69456);
    (69506, 69509); (69633, 69633); (69688, 69702); (69744, 69744); (69747, 69748);
    (69759, 69761); (69811, 69814); (69817, 69818); (69821, 69821); (69826, 69826);
    (69837, 69837); (69888, 69890); (69927, 69931); (69933, 69940); (70003, 70003);
    (70016, 70017); (70070, 70078); (70089, 70092); (70095, 70095); (70191, 70193);
    (70196, 70196); (70198, 70199); (70206, 70206); (70367, 70367); (70371, 70378);
    (70400, 70401); (70459, 70460); (70464, 70464); (70502, 70508); (70512, 70516);
    (70712, 70719); (70722, 70724); (70726, 70726); (70750, 70750); (70835, 70840);
    (70842, 70842); (70847, 70848); (70850, 70851); (71090, 71093); (71100, 71101);
    (71103, 71104); (71132, 71133); (71219, 71226); (71229, 71229); (71231, 71232);
    (71339, 71339); (71341, 71341); (71344, 71349); (71351, 71351); (71453, 71455);
    (71458, 71461); (71463, 71467); (71727, 71735); (71737, 71738); (71995, 71996);
    (71998, 71998); (72003, 72003); (72148, 72151); (72154, 72155); (72160, 72160);
    (72193, 72202); (72243, 72248); (72251, 72254); (72263, 72263); (72273, 72278);
    (72281, 72283); (72330, 72342); (72344, 72345); (72752, 72758); (72760, 72765);
    (72767, 72767); (72850, 72871); (72874, 72880); (72882, 72883); (72885, 72886);
    (73009, 73014); (73018, 73018); (73020, 73021); (73023, 73029); (73031, 73031);
    (73104, 73105); (73109, 73109); (73111, 73111); (73459, 73460); (78896, 78904);
    (92912, 92916); (92976, 92982); (92992, 92995); (94031, 94031); (94095, 94111);
    (94176, 94177); (94179, 94180); (110576, 110579); (110581, 110587); (110589, 110590);
    (113821, 113822); (113824, 113827); (118528, 118573); (118576, 118598); (119143, 119145);
    (119155, 119170); (119173, 119179); (119210, 119213); (119362, 119364); (121344, 121398);
    (121403, 121452); (121461, 121461); (121476, 121476); (121499, 121503); (121505, 121519);
    (122880, 122886); (122888, 122904); (122907, 122913); (122915, 122916); (122918, 122922);
    (123184, 123197); (123566, 123566); (123628, 123631); (125136, 125142); (125252, 125259);
    (127995, 127999); (917505, 917505); (917536, 917631); (917760, 917999)
  ]%N.

(** The code points with the property Cased that are not Case_Ignorable. *)
Definition cased_letter_ranges : list (N * N) :=
  [
    (65, 90); (97, 122); (170, 170); (181, 181); (186, 186); (192, 214); (216, 246); (248, 442);
    (444, 447); (452, 659); (661, 687); (880, 883); (886, 887); (891, 893); (895, 895);
    (902, 902); (904, 906); (908, 908); (910, 929); (931, 1013); (1015, 1153); (1162, 1327);
    (1329, 1366); (1376, 1416); (4256, 4293); (4295, 4295); (4301, 4301); (4304, 4346);
    (4349, 4351); (5024, 5109); (5112, 5117); (7296, 7304); (7312, 7354); (7357, 7359);
    (7424, 7467); (7531, 7543); (7545, 7578); (7680, 7957); (7960, 7965); (7968, 8005);
    (8008, 8013); (8016, 8023); (8025, 8025); (8027, 8027); (8029, 8029); (8031, 8061);
    (8064, 8116); (8118, 8124); (8126, 8126); (8130, 8132); (8134, 8140); (8144, 8147);
    (8150, 8155); (8160, 8172); (8178, 8180); (8182, 8188); (8450, 8450); (8455, 8455);
    (8458, 8467); (8469, 8469); (8473, 8477); (8484, 8484); (8486, 8486); (8488, 8488);
    (8490, 8493); (8495, 8500); (8505, 8505); (8508, 8511); (8517, 8521); (8526, 8526);
    (8544, 8575); (8579, 8580); (9398, 9449); (11264, 11387); (11390, 11492); (11499, 11502);
    (11506, 11507); (11520, 11557); (11559, 11559); (11565, 11565); (42560, 42605);
    (42624, 42651); (42786, 42863); (42865, 42887); (42891, 42894); (42896, 42954);
    (42960, 42961); (42963, 42963); (42965, 42969); (42997, 42998); (43002, 43002);
    (43824, 43866); (43872, 43880); (43888, 43967); (64256, 64262); (64275, 64279);
    (65313, 65338); (65345, 65370); (66560, 66639); (66736, 66771); (66776, 66811);
    (66928, 66938); (66940, 66954); (66956, 66962); (66964, 66965); (66967, 66977);
    (66979, 66993); (66995, 67001); (67003, 67004); (68736, 68786); (68800, 68850);
    (71840, 71903); (93760, 93823); (119808, 119892); (119894, 119964); (119966, 119967);
    (119970, 119970); (119973, 119974); (119977, 119980); (119982, 119993); (119995, 119995);
    (119997, 120003); (120005, 120069); (120071, 120074); (120077, 120084); (120086, 120092);
    (120094, 120121); (120123, 120126); (120128, 120132); (120134, 120134); (120138, 120144);
    (120146, 120485); (120488, 120512); (120514, 120538); (120540, 120570); (120572, 120596);
    (120598, 120628); (120630, 120654); (120656, 120686); (120688, 120712); (120714, 120744);
    (120746, 120770); (120772, 120779); (122624, 122633); (122635, 122654); (125184, 125251);
    (127280, 127305); (127312, 127337); (127344, 127369)
  ]%N.

Fixpoint in_ranges (ranges : list (N * N)) (c : N) : bool :=
  match ranges with
  | [] => false
  | (lo, hi) :: rest => if in_range lo hi c then true else in_ranges rest c
  end.

Definition case_ignorable (c : N) : bool := in_ranges case_ignorable_ranges c.
Definition cased_letter (c : N) : bool := in_ranges cased_letter_ranges c.

Fixpoint lower_in (runs : list (N * N * Z * N)) (c : N) : N :=
  match runs with
  | [] => c
  | (lo, hi, delta, stride) :: rest =>
    if in_range lo hi c
    then (if ((c - lo) mod stride =? 0)%N then Z.to_N (Z.of_N c + delta) else c)
    else lower_in rest c
  end.

(** The simple lower-case mapping of a code point. *)
Definition lower_point (c : N) : N := lower_in lower_runs c.

(** The code points of a string: a high surrogate followed by a low
    surrogate is one code point, any other unit is its own. *)
Fixpoint code_points (s : str) : list N :=
  match s with
  | [] => []
  | hi :: rest =>
    match rest with
    | lo :: s' =>
      if in_range 55296 56319 hi && in_range 56320 57343 lo
      then (65536 + (hi - 55296) * 1024 + (lo - 56320))%N :: code_points s'
      else hi :: code_points rest
    | [] => [hi]
    end
  end.

(** The code units of a code point. *)
Definition code_units (c : N) : str :=
  if (c <? 65536)%N then [c]
  else [(55296 + (c - 65536) / 1024)%N; (56320 + (c - 65536) mod 1024)%N].

Fixpoint skip_ignorable (l : list N) : list N :=
  match l with
  | c :: l' => if case_ignorable c then skip_ignorable l' else l
  | [] => []
  end.

(** A cased letter comes next, case-ignorable code points aside. *)
Definition cased_next (l : list N) : bool :=
  match skip_ignorable l with
  | c :: _ => cased_letter c
  | [] => false
  end.

(** The condition Final_Sigma: a cased letter before, none after;
    [before] is the text before the sigma, nearest code point first. *)
Definition final_sigma (before after : list N) : bool :=
  cased_next before && negb (cased_next after).

Fixpoint lower_points (before : list N) (l : list N) : list N :=
  match l with
  | [] => []
  | c :: l' =>
    (if (c =? 304)%N then [105; 775]%N
     else if (c =? 931)%N then [if final_sigma before l' then 962 else 963]%N
     else [lower_point c])
    ++ lower_points (c :: before) l'
  end.

(** [String.prototype.toLowerCase] *)
Definition toLowerCase (s : str) : str :=
  flat_map code_units (lower_points [] (code_points s)).

(** *** String methods *)

Fixpoint trimStart (s : str) : str :=
  match s with
  | c :: s' => if is_space c then trimStart s' else s
  | [] => []
  end.

(** [String.prototype.trim] *)
Definition trim (s : str) : str := rev (trimStart (rev (trimStart s))).

(** [s.replace(/\s+/g, " ")]: every maximal run of white space becomes one
    space; [inrun] tells that the previous unit belonged to a run. *)
Fixpoint collapse_spaces_from (inrun : bool) (s : str) : str :=
  match s with
  | [] => []
  | c :: s' =>
    if is_space c
    then (if inrun then collapse_spaces_from true s'
          else 32%N :: collapse_spaces_from true s')
    else c :: collapse_spaces_from false s'
  end.

Definition collapse_spaces (s : str) : str := collapse_spaces_from false s.

(** [s.replace(/\s+/g, empty)]: white space removed. *)
Definition remove_spaces (s : str) : str := filter (fun c => is_space c = false) s.

(** [s.replace(new RegExp("\\" + c, "g"), r)] for a single unit [c]. *)
Definition replace_all (c : N) (r : str) (s : str) : str :=
  flat_map (fun x => if (x =? c)%N then r else [x]) s.

(** [s.replace(c, r)] for a one-unit string [c]: first occurrence only. *)
Fixpoint replace_first (c : N) (r : str) (s : str) : str :=
  match s with
  | [] => []
  | x :: s' => if (x =? c)%N then r ++ s' else x :: replace_first c r s'
  end.

(** [(s.match(/c/g) || []).length] *)
Definition count_unit (c : N) (s : str) : Z :=
  Z.of_nat (length (filter (fun x => (x =? c)%N = true) s)).

(** [s.indexOf(c)] for a one-unit string; [-1] when absent. *)
Fixpoint indexOf_from (c : N) (s : str) (i : Z) : Z :=
  match s with
  | [] => -1
  | x :: s' => if (x =? c)%N then i else indexOf_from c s' (i + 1)
  end.

Definition indexOf (c : N) (s : str) : Z := indexOf_from c s 0.

(** [s.lastIndexOf(c)] *)
Fixpoint lastIndexOf_from (c : N) (s : str) (i : Z) (found : Z) : Z :=
  match s with
  | [] => found
  | x :: s' => lastIndexOf_from c s' (i + 1) (if (x =? c)%N then i else found)
  end.

Definition lastIndexOf (c : N) (s : str) : Z := lastIndexOf_from c s 0 (-1).

Definition strlen (s : str) : Z := Z.of_nat (length s).

(** [s.slice(a, b)] and [s.slice(a)] for [0 <= a <= b]. *)
Definition slice (a b : Z) (s : str) : str :=
  take (Z.to_nat b - Z.to_nat a) (drop (Z.to_nat a) s).

Definition slice_from (a : Z) (s : str) : str := drop (Z.to_nat a) s.

(** [s.startsWith(p)] *)
Fixpoint startsWith (p s : str) : bool :=
  match p, s with
  | [], _ => true
  | _ :: _, [] => false
  | a :: p', b :: s' => (a =? b)%N && startsWith p' s'
  end.

(** [s.includes(p)] *)
Fixpoint includes (p s : str) : bool :=
  startsWith p s ||
  match s with
  | [] => false
  | _ :: s' => includes p s'
  end.

(** [s.replace(/\/+$/, empty)]: trailing slashes removed. *)
Definition strip_trailing_slashes (s : str) : str :=
  rev ((fix go (l : str) : str :=
          match l with
          | c :: l' => if (c =? 47)%N then go l' else l
          | [] => []
          end) (rev s)).

(** Decimal digits of a non-negative integer, as [String(n)] prints them. *)
Fixpoint digits_fuel (fuel : nat) (n : Z) (acc : str) : str :=
  match fuel with
  | O => acc
  | S f =>
    let acc' := Z.to_N (48 + n mod 10) :: acc in
    if n <? 10 then acc' else digits_fuel f (n / 10) acc'
  end.

Definition string_of_nonneg (n : Z) : str :=
  digits_fuel (S (Z.to_nat (Z.log2 n))) n [].

End JS.

(** ** Regular expressions

    A backtracking matcher with the priorities of ECMAScript's [RegExp]:
    alternatives are tried left to right, [*] is greedy and gives characters
    back one at a time, and the search tries start positions left to right. *)

Module Regex.
Import JS.

Inductive re : Type :=
| Eps                         (* the empty pattern *)
| Cls (p : N -> bool)         (* one unit of a character class *)
| Seq (a b : re)
| Alt (a b : re)              (* a|b *)
| Star (a : re)               (* greedy a* *)
| Grp (i : nat) (a : re)      (* capture group number i *)
| WordB.                      (* \b *)

(** Captures, most recent first. *)
Definition caps := list (nat * str).

Fixpoint group (c : caps) (i : nat) : option str :=
  match c with
  | [] => None
  | (j, s) :: c' => if Nat.eqb i j then Some s else group c' i
  end.

Definition is_word_opt (c : option N) : bool :=
  match c with Some x => is_word x | None => false end.

(** The iterations of a greedy star: one more match of the body when it
    consumes input and the rest succeeds, the continuation otherwise. *)
Fixpoint star_loop {R : Type}
    (body : option N -> str -> caps -> (option N -> str -> caps -> option R) -> option R)
    (k : option N -> str -> caps -> option R)
    (fuel : nat) (prev : option N) (s : str) (c : caps) : option R :=
  match fuel with
  | O => k prev s c
  | S fuel' =>
    match body prev s c
            (fun prev' s' c' =>
               if (length s' <? length s)%nat then star_loop body k fuel' prev' s' c'
               else None)
    with
    | Some res => Some res
    | None => k prev s c
    end
  end.

(** [rmatch r prev s c k]: match [r] at the front of [s], [prev] being the
    unit before it; the continuation [k] receives the state after [r]. *)
Fixpoint rmatch {R : Type} (r : re) (prev : option N) (s : str) (c : caps)
    (k : option N -> str -> caps -> option R) {struct r} : option R :=
  match r with
  | Eps => k prev s c
  | Cls p =>
    match s with
    | x :: s' => if p x then k (Some x) s' c else None
    | [] => None
    end
  | Seq a b => rmatch a prev s c (fun prev' s' c' => rmatch b prev' s' c' k)
  | Alt a b =>
    match rmatch a prev s c k with
    | Some res => Some res
    | None => rmatch b prev s c k
    end
  | Star a =>
    star_loop (fun prev' s' c' k' => rmatch a prev' s' c' k') k (length s) prev s c
  | Grp i a =>
    rmatch a prev s c
      (fun prev' s' c' => k prev' s' ((i, take (length s - length s') s) :: c'))
  | WordB =>
    if xorb (is_word_opt prev) (is_word_opt (head s)) then k prev s c else None
  end.

(** The result of [RegExp.prototype.exec]: the whole match and the groups. *)
Record match_result := { m0 : str; groups : caps }.

Fixpoint search_from (r : re) (prev : option N) (s : str) : option match_result :=
  match rmatch r prev s [] (fun _ s' c => Some (s', c)) with
  | Some (s', c) => Some {| m0 := take (length s - length s') s; groups := c |}
  | None =>
    match s with
    | [] => None
    | x :: s' => search_from r (Some x) s'
    end
  end.

(** [s.match(r)] for a pattern without the global flag. *)
Definition exec (r : re) (s : str) : option match_result := search_from r None s.

(** [m[i]], [undefined] being [None]. *)
Definition grp (m : match_result) (i : nat) : option str := group (groups m) i.

(** *** Pattern builders *)

Definition Opt (a : re) : re := Alt a Eps.
Definition Plus (a : re) : re := Seq a (Star a).

Fixpoint Rep (n : nat) (a : re) : re :=
  match n with
  | O => Eps
  | S n' => Seq a (Rep n' a)
  end.

(** [a{n,}] *)
Definition AtLeast (n : nat) (a : re) : re := Seq (Rep n a) (Star a).

(** One unit of a literal under the ignore-case flag. *)
Definition Ci (x : N) : re := Cls (fun c => (canon c =? canon x)%N).

(** A literal word under the ignore-case flag. *)
Fixpoint Lit (w : str) : re :=
  match w with
  | [] => Eps
  | x :: w' => Seq (Ci x) (Lit w')
  end.

(** A bracket class [[...]] under the ignore-case flag. *)
Definition CiSet (l : str) : re :=
  Cls (fun c => existsb (fun x => (canon c =? canon x)%N) l).

(** [w1|w2|...] *)
Fixpoint AltWords (ws : list str) : re :=
  match ws with
  | [] => Cls (fun _ => false)
  | [w] => Lit w
  | w :: ws' => Alt (Lit w) (AltWords ws')
  end.

Definition Dig : re := Cls is_digit.
Definition Ws : re := Cls is_space.

End Regex.

(** ** Numbers: binary64

    A number is [NaN], an infinity, or a finite value, held as the rational
    it denotes in lowest terms.  An operation computes the exact result and
    rounds it to the nearest value of the format, ties to the even
    significand; results of magnitude [2^1024] or more after rounding are
    infinite, results below the normal range are rounded on the subnormal
    grid.  The sign of zero is not modelled. *)

Module F64.

Inductive num : Type :=
| NaN
| Inf (negative : bool)
| Fin (q : Q).

Definition two (e : Z) : Q := Qpower 2 e.

(** The binary exponent of a positive rational: [2^(ilog2 a) <= a < 2^(ilog2 a + 1)]. *)
Definition ilog2 (a : Q) : Z :=
  let k := Z.log2 (Qnum a) - Z.log2 (Z.pos (Qden a)) in
  if Qle_bool (two k) a then k else k - 1.

(** The nearest integer, ties to even. *)
Definition nearest_even (x : Q) : Z :=
  let f := Qfloor x in
  match Qcompare (x - inject_Z f) (1 # 2) with
  | Lt => f
  | Gt => f + 1
  | Eq => if Z.even f then f else f + 1
  end.

(** A positive rational rounded to 53 significant bits, on the subnormal
    grid of step [2^-1074] below the normal range. *)
Definition round_pos (a : Q) : Q :=
  let e := Z.max (ilog2 a - 52) (-1074) in
  (inject_Z (nearest_even (a / two e)) * two e)%Q.

Definition round_canon (q : Q) : num :=
  match Qcompare q 0 with
  | Eq => Fin 0
  | Gt =>
    let v := round_pos q in
    if Qle_bool (two 1024) v then Inf false else Fin (Qred v)
  | Lt =>
    let v := round_pos (- q) in
    if Qle_bool (two 1024) v then Inf true else Fin (Qred (- v))
  end.

(** The binary64 number nearest to a rational. *)
Definition round (q : Q) : num := round_canon (Qred q).

(** The number value of an integer. *)
Definition of_Z (z : Z) : num := round (inject_Z z).

Definition negative (q : Q) : bool :=
  match Qcompare q 0 with Lt => true | _ => false end.

(** [- x] *)
Definition opp (x : num) : num :=
  match x with
  | NaN => NaN
  | Inf s => Inf (negb s)
  | Fin q => Fin (Qred (- q))
  end.

(** [x + y] *)
Definition add (x y : num) : num :=
  match x, y with
  | NaN, _ | _, NaN => NaN
  | Inf s, Inf t => if Bool.eqb s t then Inf s else NaN
  | Inf s, Fin _ => Inf s
  | Fin _, Inf t => Inf t
  | Fin p, Fin q => round (p + q)
  end.

(** [x - y] *)
Definition sub (x y : num) : num := add x (opp y).

(** [x * y] *)
Definition mul (x y : num) : num :=
  match x, y with
  | NaN, _ | _, NaN => NaN
  | Inf s, Inf t => Inf (xorb s t)
  | Inf s, Fin q | Fin q, Inf s =>
    if Qeq_bool q 0 then NaN else Inf (xorb s (negative q))
  | Fin p, Fin q => round (p * q)
  end.


(** [x < y] *)
Definition ltb (x y : num) : bool :=
  match x, y with
  | NaN, _ | _, NaN => false
  | Inf s, Inf t => s && negb t
  | Inf s, Fin _ => s
  | Fin _, Inf t => negb t
  | Fin p, Fin q => negb (Qle_bool q p)
  end.

(** [x > y] *)
Definition gtb (x y : num) : bool := ltb y x.

(** [x === y] *)
Definition eqb (x y : num) : bool :=
  match x, y with
  | Inf s, Inf t => Bool.eqb s t
  | Fin p, Fin q => Qeq_bool p q
  | _, _ => false
  end.

(** [x <= y] *)
Definition leb (x y : num) : bool := ltb x y || eqb x y.


(** [Number.isNaN] *)
Definition isNaN (x : num) : bool :=
  match x with NaN => true | _ => false end.

(** [Number.isFinite] *)
Definition isFinite (x : num) : bool :=
  match x with Fin _ => true | _ => false end.

(** [Math.round]: the nearest integer, halves towards plus infinity.  The
    result is an integer below [2^53] in magnitude, or the argument itself
    when that is an integer already: a number of the format. *)
Definition Math_round (x : num) : num :=
  match x with
  | Fin q => Fin (inject_Z (Qfloor (q + (1 # 2))))
  | _ => x
  end.

(** The integer part, towards zero. *)
Definition truncate (q : Q) : Z :=
  if Qle_bool 0 q then Qfloor q else Qceiling q.

End F64.

(** ** Number literals in strings *)

Module Num.
Import JS F64.

(** Value of a run of decimal digits read left to right. *)
Fixpoint digits_value (acc : Z) (s : str) : option Z :=
  match s with
  | [] => Some acc
  | c :: s' =>
    if is_digit c then digits_value (acc * 10 + (Z.of_N c - 48)) s' else None
  end.

(** Split at the first full stop. *)
Fixpoint split_dot (s : str) : str * option str :=
  match s with
  | [] => ([], None)
  | c :: s' =>
    if (c =? 46)%N then ([], Some s')
    else let '(a, b) := split_dot s' in (c :: a, b)
  end.

(** The mathematical value of an unsigned decimal literal [ddd], [ddd.],
    [ddd.ddd] or [.ddd]; the empty string counts as 0. *)
Definition decimal_value (s : str) : option Q :=
  match split_dot s with
  | (ip, None) =>
    match ip with
    | [] => Some 0%Q
    | _ => option_map inject_Z (digits_value 0 ip)
    end
  | (ip, Some fp) =>
    match ip, fp with
    | [], [] => None
    | _, _ =>
      match digits_value 0 ip, digits_value 0 fp with
      | Some i, Some f =>
        Some (inject_Z i + Qmake f (Pos.pow 10 (Pos.of_nat (length fp))))%Q
      | _, _ => None
      end
    end
  end.

(** [Number(s)] for a string over digits, full stops and commas: the
    binary64 number nearest to the value of the literal, and [NaN] for
    anything else over that alphabet. *)
Definition Number (s : str) : num :=
  match decimal_value s with
  | Some q => round q
  | None => NaN
  end.

End Num.

(** ** Dates *)

Module Date.
Import JS.

Definition ms_per_day : Z := 86400000.

(** Time values a [Date] can hold. *)
Definition max_time_value : Z := 8640000000000000.

(** TimeClip on an integer time value; [None] is [NaN]. *)
Definition TimeClip (t : option Z) : option Z :=
  match t with
  | Some v => if Z.abs v <=? max_time_value then Some v else None
  | None => None
  end.

(** The time value of [new Date(v)] for a number [v]: TimeClip, which
    drops the fraction of a value in range. *)
Definition of_number (v : F64.num) : option Z :=
  match v with
  | F64.Fin q =>
    if Qle_bool (Qabs q) (inject_Z max_time_value) then Some (F64.truncate q) else None
  | _ => None
  end.

(** Year, month and day of the proleptic Gregorian calendar from the number
    of days since 1970-01-01. *)
Definition civil_from_days (z : Z) : Z * Z * Z :=
  let z := z + 719468 in
  let era := z / 146097 in
  let doe := z - era * 146097 in
  let yoe := (doe - doe / 1460 + doe / 36524 - doe / 146096) / 365 in
  let y := yoe + era * 400 in
  let doy := doe - (365 * yoe + yoe / 4 - yoe / 100) in
  let mp := (5 * doy + 2) / 153 in
  let d := doy - (153 * mp + 2) / 5 + 1 in
  let m := if mp <? 10 then mp + 3 else mp - 9 in
  (if m <=? 2 then y + 1 else y, m, d).

Definition digit (n : Z) : N := Z.to_N (48 + n mod 10).

Definition pad2 (n : Z) : str := [digit (n / 10); digit n].
Definition pad3 (n : Z) : str := [digit (n / 100); digit (n / 10); digit n].
Definition pad4 (n : Z) : str :=
  [digit (n / 1000); digit (n / 100); digit (n / 10); digit n].
Definition pad6 (n : Z) : str :=
  [digit (n / 100000); digit (n / 10000); digit (n / 1000); digit (n / 100);
   digit (n / 10); digit n].

(** The year of an ISO string: four digits from 0 to 9999, a sign and six
    digits otherwise. *)
Definition iso_year (y : Z) : str :=
  if (0 <=? y) && (y <=? 9999) then pad4 y
  else if y <? 0 then 45%N :: pad6 (- y)
  else 43%N :: pad6 y.

(** [new Date(t).toISOString()] of a valid time value [t]. *)
Definition toISOString (t : Z) : str :=
  let '(y, m, d) := civil_from_days (t / ms_per_day) in
  let msd := t mod ms_per_day in
  iso_year y ++ [45%N] ++ pad2 m ++ [45%N] ++ pad2 d ++ [84%N]
  ++ pad2 (msd / 3600000) ++ [58%N] ++ pad2 (msd / 60000 mod 60) ++ [58%N]
  ++ pad2 (msd / 1000 mod 60) ++ [46%N] ++ pad3 (msd mod 1000) ++ [90%N].

End Date.

(** ** URLs

    The URL record of the URL Standard, its serializer and the two setters
    the extension uses.  The parser belongs to the host. *)

Module URL.
Import JS.

Inductive url_path : Type :=
| Opaque (s : str)               (* an opaque path, as in [mailto:] *)
| Segments (l : list str).       (* a list of path segments *)

Record url := {
  scheme : str;
  username : str;
  password : str;
  host : option str;             (* the serialized host; [None] is null *)
  port : option Z;
  path : url_path;
  query : option str;
  fragment : option str;
}.

Definition with_path (u : url) (p : url_path) : url :=
  {| scheme := scheme u; username := username u; password := password u;
     host := host u; port := port u; path := p;
     query := query u; fragment := fragment u |}.

Definition with_query (u : url) (q : option str) : url :=
  {| scheme := scheme u; username := username u; password := password u;
     host := host u; port := port u; path := path u;
     query := q; fragment := fragment u |}.

Definition with_fragment (u : url) (f : option str) : url :=
  {| scheme := scheme u; username := username u; password := password u;
     host := host u; port := port u; path := path u;
     query := query u; fragment := f |}.

Fixpoint strip_leading_spaces (s : str) : str :=
  match s with
  | c :: s' => if (c =? 32)%N then strip_leading_spaces s' else s
  | [] => []
  end.

Definition strip_trailing_spaces (s : str) : str := rev (strip_leading_spaces (rev s)).

(** "Potentially strip trailing spaces from an opaque path". *)
Definition strip_opaque_path (u : url) : url :=
  match path u, fragment u, query u with
  | Opaque s, None, None => with_path u (Opaque (strip_trailing_spaces s))
  | _, _, _ => u
  end.

(** [u.search = ""] *)
Definition clear_search (u : url) : url := strip_opaque_path (with_query u None).

(** [u.hash = ""] *)
Definition clear_hash (u : url) : url := strip_opaque_path (with_fragment u None).

Definition serialize_path (p : url_path) : str :=
  match p with
  | Opaque s => s
  | Segments l => flat_map (fun segment => 47%N :: segment) l
  end.

(** What the serializer puts between the scheme and the path. *)
Definition serialize_authority (u : url) : str :=
  match host u with
  | Some h =>
    js "//"
    ++ (if truthy (username u) || truthy (password u)
        then username u
             ++ (if truthy (password u) then 58%N :: password u else [])
             ++ [64%N]
        else [])
    ++ h
    ++ match port u with
       | Some p => 58%N :: string_of_nonneg p
       | None => []
       end
  | None =>
    match path u with
    | Segments ([] :: _ :: _) => js "/."
    | _ => []
    end
  end.

(** The URL serializer; [u.toString()] and [u.href]. *)
Definition serialize (u : url) : str :=
  scheme u ++ [58%N] ++ serialize_authority u ++ serialize_path (path u)
  ++ match query u with Some q => 63%N :: q | None => [] end
  ++ match fragment u with Some f => 35%N :: f | None => [] end.

End URL.

(** ** Post records *)

(** A post as the background worker and the popup read it.  Counts are
    nullable integers; the string fields are empty when absent. *)
Record post := {
  post_url : JS.str;
  title : JS.str;
  content : JS.str;
  text : JS.str;
  posted_at_iso : JS.str;
  posted_at : JS.str;
  reactions_count : option Z;
  likes_count : option Z;
  comments_count : option Z;
  reposts_count : option Z;
  views_count : option Z;
}.

(** ** Host services *)

(** What the browser provides and the repository only calls. *)
Class Host := {
  (** The time value [new Date(s)] reads from a string, before TimeClip;
      [None] is the invalid date. *)
  Date_parse : JS.str -> option Z;
  (** The URL record of [new URL(s)]; [None] when the constructor throws. *)
  URL_parse : JS.str -> option URL.url;
  (** [JSON.stringify(post)] *)
  JSON_stringify : post -> JS.str;
}.

(** [new Date(s).getTime()]: the time value read from the string, clipped
    to the range of a [Date]. *)
Definition getTime `{Host} (s : JS.str) : option Z := Date.TimeClip (Date_parse s).

(** A completion of a call: a value, or a thrown error with its message. *)
Inductive completion (A : Type) : Type :=
| Normal (a : A)
| Throw (message : JS.str).
Arguments Normal {A} a.
Arguments Throw {A} message.

(** ** Content script: number and time normalizer *)

Module Content.
Import JS Regex F64 Num.

(** [cleanText] of the content script. *)
Definition cleanText (value : str) : str := trim (collapse_spaces value).

(** The pattern of [parseNumberToken], with the ignore-case flag: group 1 is
    a digit followed by any run of digits, white space, full stops and
    commas; then, optionally, white space and group 2, one unit of the class
    [[kкmм]]. *)
Definition number_token_re : re :=
  Seq (Grp 1 (Seq Dig (Star (Cls (fun c => is_digit c || is_space c
                                           || (c =? 46)%N || (c =? 44)%N)))))
      (Opt (Seq (Star Ws) (Grp 2 (CiSet (js "kкmм"))))).

Definition parseNumberToken (raw : str) : option num :=
  let text := cleanText raw in
  if negb (truthy text) then None else
  match exec number_token_re text with
  | None => None
  | Some m =>
    match grp m 1 with
    | None | Some [] => None
    | Some g1 =>
      let body := trim (remove_spaces (replace_all 160 [32%N] g1)) in
      if negb (truthy body) then None else
      let commaCount := count_unit 44 body in
      let dotCount := count_unit 46 body in
      let body :=
        if (0 <? commaCount) && (0 <? dotCount) then
          let lastComma := lastIndexOf 44 body in
          let lastDot := lastIndexOf 46 body in
          if lastDot <? lastComma
          then (* decimalSep = ",", thousandsSep = "." *)
            replace_first 44 [46%N] (replace_all 46 [] body)
          else (* decimalSep = ".", thousandsSep = "," *)
            replace_all 44 [] body
        else if 0 <? commaCount then
          if 1 <? commaCount then replace_all 44 [] body
          else
            let idx := indexOf 44 body in
            let digitsAfter := strlen body - idx - 1 in
            if digitsAfter =? 3 then replace_first 44 [] body
            else replace_first 44 [46%N] body
        else if 1 <? dotCount then
          let last := lastIndexOf 46 body in
          let digitsAfter := strlen body - last - 1 in
          if digitsAfter =? 3 then replace_all 46 [] body
          else replace_all 46 [] (slice 0 last body) ++ [46%N] ++ slice_from (last + 1) body
        else body in
      let n := Number body in
      if negb (isFinite n) then None else
      let suffix := toLowerCase (default [] (grp m 2)) in
      if str_eqb suffix (js "k") || str_eqb suffix (js "к")
      then Some (Math_round (mul n (of_Z 1000)))
      else if str_eqb suffix (js "m") || str_eqb suffix (js "м")
      then Some (Math_round (mul n (of_Z 1000000)))
      else Some (Math_round n)
    end
  end.

(** The unit words of the relative-time pattern, in the order of the
    alternation. *)
Definition relative_units : list str :=
  map js
    ["m"; "min"; "mins"; "minute"; "minutes"; "h"; "hr"; "hrs"; "hour"; "hours";
     "d"; "day"; "days"; "w"; "wk"; "wks"; "week"; "weeks"; "mo"; "mos";
     "month"; "months"; "y"; "yr"; "yrs"; "year"; "years";
     "мин"; "минута"; "минут"; "ч"; "час"; "часа"; "часов"; "дн"; "д"; "день";
     "дня"; "дней"; "нед"; "неделя"; "недели"; "недель"; "мес"; "месяц";
     "месяца"; "месяцев"; "г"; "год"; "года"; "лет"]%string.

(** The pattern of [parsePublishedIso], with the ignore-case flag: group 1 is
    one or more digits, then white space, then group 2, one of the unit
    words, then a word boundary. *)
Definition relative_time_re : re :=
  Seq (Grp 1 (Plus Dig))
      (Seq (Star Ws) (Seq (Grp 2 (AltWords relative_units)) WordB)).

Definition minute_ms : Z := 60 * 1000.
Definition hour_ms : Z := 60 * 60 * 1000.
Definition day_ms : Z := 24 * 60 * 60 * 1000.
Definition week_ms : Z := 7 * 24 * 60 * 60 * 1000.
Definition month_ms : Z := 30 * 24 * 60 * 60 * 1000.
Definition year_ms : Z := 365 * 24 * 60 * 60 * 1000.

(** The [offsets] table of [parsePublishedIso]. *)
Definition offsets : list (str * Z) :=
  map (fun '(k, v) => (js k, v))
    [("m", minute_ms); ("min", minute_ms); ("mins", minute_ms);
     ("minute", minute_ms); ("minutes", minute_ms);
     ("мин", minute_ms); ("минута", minute_ms); ("минут", minute_ms);
     ("h", hour_ms); ("hr", hour_ms); ("hrs", hour_ms); ("hour", hour_ms);
     ("hours", hour_ms);
     ("ч", hour_ms); ("час", hour_ms); ("часа", hour_ms); ("часов", hour_ms);
     ("d", day_ms); ("day", day_ms); ("days", day_ms);
     ("дн", day_ms); ("д", day_ms); ("день", day_ms); ("дня", day_ms);
     ("дней", day_ms);
     ("w", week_ms); ("wk", week_ms); ("wks", week_ms); ("week", week_ms);
     ("weeks", week_ms);
     ("нед", week_ms); ("неделя", week_ms); ("недели", week_ms);
     ("недель", week_ms);
     ("mo", month_ms); ("mos", month_ms); ("month", month_ms);
     ("months", month_ms);
     ("мес", month_ms); ("месяц", month_ms); ("месяца", month_ms);
     ("месяцев", month_ms);
     ("y", year_ms); ("yr", year_ms); ("yrs", year_ms); ("year", year_ms);
     ("years", year_ms);
     ("г", year_ms); ("год", year_ms); ("года", year_ms); ("лет", year_ms)]%string.

(** [offsets[unit]] *)
Fixpoint lookup_offset (tbl : list (str * Z)) (unit : str) : option Z :=
  match tbl with
  | [] => None
  | (k, v) :: tbl' => if str_eqb k unit then Some v else lookup_offset tbl' unit
  end.

Section WithHost.
Context `{Host}.

(** [parsePublishedIso(raw)], at [Date.now() = now]. *)
Definition parsePublishedIso (now : Z) (raw : str) : completion (option str) :=
  let value := cleanText raw in
  if negb (truthy value) then Normal None else
  match getTime value with
  | Some direct => Normal (Some (Date.toISOString direct))
  | None =>
    match exec relative_time_re value with
    | None => Normal None
    | Some m =>
      let n := Number (default [] (grp m 1)) in
      if negb (isFinite n) || leb n (of_Z 0) then Normal None else
      let unit := toLowerCase (default [] (grp m 2)) in
      match lookup_offset offsets unit with
      | None => Normal None
      | Some step =>
        if step =? 0 then Normal None else
        match Date.of_number (sub (of_Z now) (mul n (of_Z step))) with
        | Some t => Normal (Some (Date.toISOString t))
        | None => Throw (js "RangeError: Invalid time value")
        end
      end
    end
  end.

End WithHost.

End Content.

(** ** Background worker: identity and scoring engine *)

Module Background.
Import JS Regex F64 Num.

(** [cleanText] of the background worker. *)
Definition cleanText (value : str) : str := trim value.

(** [toNumber(value, fallback)] on a nullable integer count, for a
    fallback of any type. *)
Definition toNumber {A : Type} (inj : num -> A) (value : option Z) (fallback : A) : A :=
  match value with
  | None => fallback
  | Some v =>
    let n := of_Z v in
    if isFinite n then inj n else fallback
  end.

(** [a != null ? a : b] *)
Definition coalesce (a b : option Z) : option Z :=
  match a with Some _ => a | None => b end.

Definition scorePost (p : post) : num :=
  let reactions := toNumber id (coalesce (reactions_count p) (likes_count p)) (of_Z 0) in
  let comments := toNumber id (comments_count p) (of_Z 0) in
  let reposts := toNumber id (reposts_count p) (of_Z 0) in
  let views := toNumber id (views_count p) (of_Z 0) in
  add (add (add reactions (mul comments (of_Z 3))) (mul reposts (of_Z 2)))
      (mul views (round (2 # 100))).

(** The six patterns of [extractActivityId], each with the ignore-case flag
    and one group of at least eight digits. *)
Definition activity_markers : list str :=
  map js
    ["urn:li:activity:"; "activity-"; "ugcPost-"; "urn:li:ugcPost:";
     "urn:li:share:"; "share-"]%string.

Definition activity_pattern (marker : str) : re :=
  Seq (Lit marker) (Grp 1 (AtLeast 8 Dig)).

Definition activity_patterns : list re := map activity_pattern activity_markers.

Fixpoint first_group_match (patterns : list re) (text : str) : str :=
  match patterns with
  | [] => []
  | pattern :: rest =>
    match exec pattern text with
    | Some m =>
      match grp m 1 with
      | Some (c :: g) => c :: g
      | _ => first_group_match rest text
      end
    | None => first_group_match rest text
    end
  end.

Definition extractActivityId (raw : str) : str :=
  first_group_match activity_patterns raw.

Section WithHost.
Context `{Host}.

Definition postDateMs (p : post) : option Z :=
  let raw := cleanText (or_else (posted_at_iso p) (posted_at p)) in
  if negb (truthy raw) then None else getTime raw.

Definition normalizeUrlForKey (rawUrl : str) : str :=
  let raw := cleanText rawUrl in
  if negb (truthy raw) then [] else
  match URL_parse raw with
  | Some parsed =>
    let parsed := URL.clear_search parsed in
    let parsed := URL.clear_hash parsed in
    strip_trailing_slashes (URL.serialize parsed)
  | None => raw
  end.

Definition normalizedDay (raw : str) : str :=
  match getTime (cleanText raw) with
  | None => []
  | Some t => slice 0 10 (Date.toISOString t)
  end.

Definition normalizedSnippet (raw : str) : str :=
  slice 0 200 (collapse_spaces (toLowerCase (cleanText raw))).

Definition postIdentityKey (p : post) : str :=
  let activityId :=
    or_else (extractActivityId (post_url p))
      (or_else (extractActivityId (title p))
         (or_else (extractActivityId (content p))
            (extractActivityId (text p)))) in
  if truthy activityId then js "activity:" ++ activityId else
  let normalizedUrl := normalizeUrlForKey (post_url p) in
  if truthy normalizedUrl then js "url:" ++ normalizedUrl else
  let day := normalizedDay (or_else (posted_at_iso p) (posted_at p)) in
  let snippet := normalizedSnippet (or_else (text p) (or_else (content p) (title p))) in
  js "txt:" ++ day ++ js "|" ++ snippet.

(** *** [Map] with insertion order *)

Definition jsmap := list (str * post).

Fixpoint map_get (m : jsmap) (key : str) : option post :=
  match m with
  | [] => None
  | (k, v) :: m' => if str_eqb k key then Some v else map_get m' key
  end.

(** [Map.prototype.set]: an existing key keeps its place. *)
Fixpoint map_set (m : jsmap) (key : str) (value : post) : jsmap :=
  match m with
  | [] => [(key, value)]
  | (k, v) :: m' =>
    if str_eqb k key then (k, value) :: m' else (k, v) :: map_set m' key value
  end.

(** [Array.from(m.values())] *)
Definition map_values (m : jsmap) : list post := map snd m.

(** [a > b] on dates, false as soon as one of them is [NaN]. *)
Definition date_gtb (a b : option Z) : bool :=
  match a, b with
  | Some x, Some y => y <? x
  | _, _ => false
  end.

(** One turn of the loop of [dedupePosts]. *)
Definition dedupe_step (byKey : jsmap) (p : post) : jsmap :=
  let key := postIdentityKey p in
  if negb (truthy key) then byKey else
  match map_get byKey key with
  | None => map_set byKey key p
  | Some existing =>
    let existingScore := scorePost existing in
    let candidateScore := scorePost p in
    let existingDate := postDateMs existing in
    let candidateDate := postDateMs p in
    let shouldReplace :=
      gtb candidateScore existingScore
      || (eqb candidateScore existingScore && date_gtb candidateDate existingDate) in
    if shouldReplace then map_set byKey key p else byKey
  end.

Definition dedupePosts (posts : list post) : list post :=
  map_values (fold_left dedupe_step posts []).

(** *** Ranking *)






(** The outcome of a comparison in [Array.prototype.sort]: the first
    argument may stay before the second when the comparator returns a
    number that is not positive; [NaN] counts as [+0]. *)
Definition stays_before (v : num) : bool :=
  match v with
  | NaN => true
  | Inf negative => negative
  | Fin q => Qle_bool q 0
  end.







End WithHost.

Definition PROFILE_TOP_POSTS_WINDOW_DAYS : Z := 90.
Definition PROFILE_TOP_POSTS_LIMIT : nat := 10.
Definition TOP_POSTS_CACHE_TTL_MS : Z := 3 * 60 * 1000.

End Background.

(** ** Popup: identity keys of the duplicate check *)

Module Popup.
Import JS Regex.

(** [cleanText] of the popup. *)
Definition cleanText (value : str) : str := trim value.

(** The popup's copy of [extractActivityId]: the same six patterns. *)
Definition extractActivityId (raw : str) : str :=
  Background.first_group_match Background.activity_patterns raw.

(** [Set.prototype.add] on the ordered key collection of [postIdentityKeys]. *)
Definition keys_add (keys : list str) (k : str) : list str :=
  if bool_decide (k ∈ keys) then keys else keys ++ [k].

Section WithHost.
Context `{Host}.

Definition normalizedDay (value : str) : str :=
  let raw := cleanText value in
  if negb (truthy raw) then [] else
  match getTime raw with
  | None => []
  | Some t => slice 0 10 (Date.toISOString t)
  end.

Definition normalizedSnippet (value : str) : str :=
  slice 0 220 (collapse_spaces (toLowerCase (cleanText value))).

Definition normalizeLinkedInUrl (rawUrl : str) : str :=
  let raw := cleanText rawUrl in
  if negb (truthy raw) then [] else
  let activityId := extractActivityId raw in
  if truthy activityId
  then js "https://www.linkedin.com/feed/update/urn:li:activity:" ++ activityId ++ js "/"
  else
    match URL_parse raw with
    | Some parsed =>
      let parsed := URL.clear_search parsed in
      let parsed := URL.clear_hash parsed in
      strip_trailing_slashes (URL.serialize parsed)
    | None => raw
    end.

Definition postIdentityKeys (p : post) : list str :=
  let keys := [] in
  let activityId :=
    or_else (extractActivityId (post_url p))
      (or_else (extractActivityId (title p))
         (or_else (extractActivityId (content p))
            (extractActivityId (text p)))) in
  let keys := if truthy activityId then keys_add keys (js "activity:" ++ activityId) else keys in
  let normalizedUrl := normalizeLinkedInUrl (post_url p) in
  let keys := if truthy normalizedUrl then keys_add keys (js "url:" ++ normalizedUrl) else keys in
  let snippet := normalizedSnippet (or_else (content p) (or_else (text p) (title p))) in
  if truthy snippet then
    let day := normalizedDay (or_else (posted_at p) (posted_at_iso p)) in
    let keys := if truthy day then keys_add keys (js "txt:" ++ day ++ js "|" ++ snippet) else keys in
    keys_add keys (js "txt:|" ++ snippet)
  else keys.

Definition is_stable_key (key : str) : bool :=
  startsWith (js "activity:") key || startsWith (js "url:") key.

Definition hasStableIdentityKey (keys : list str) : bool := existsb is_stable_key keys.

Definition set_has (keySet : gset str) (key : str) : bool := bool_decide (key ∈ keySet).

(** The array [keysToCheck] of [isDuplicateAgainstKeySet]. *)
Definition keysToCheck (p : post) : list str :=
  let keys := postIdentityKeys p in
  let snippet := normalizedSnippet (or_else (content p) (or_else (text p) (title p))) in
  let isStrongTextFingerprint := 80 <=? strlen snippet in
  let textKeys :=
    List.filter (fun key => negb (is_stable_key key) && startsWith (js "txt:") key) keys in
  let daySpecificTextKeys :=
    List.filter (fun key => startsWith (js "txt:") key && negb (startsWith (js "txt:|") key)) textKeys in
  let noDayTextKeys := List.filter (fun key => startsWith (js "txt:|") key) textKeys in
  if isStrongTextFingerprint then daySpecificTextKeys ++ noDayTextKeys
  else daySpecificTextKeys.

Definition isDuplicateAgainstKeySet (p : post) (keySet : gset str) : bool :=
  let keys := postIdentityKeys p in
  if (length keys =? 0)%nat then false else
  let stableKeys := List.filter is_stable_key keys in
  if existsb (set_has keySet) stableKeys then true else
  let toCheck := keysToCheck p in
  if existsb (set_has keySet) toCheck then true else
  if existsb (fun key => set_has keySet (js "legacy_" ++ key)) toCheck then true else
  false.

(** The two loops of [addIdentityKeysToSet], the set being mutated in place. *)
Definition addIdentityKeysToSet (set : gset str) (p : post) : gset str :=
  let keys := postIdentityKeys p in
  if (length keys =? 0)%nat then set else
  let set := fold_left (fun acc key => if truthy key then {[key]} ∪ acc else acc) keys set in
  if negb (hasStableIdentityKey keys) then
    fold_left
      (fun acc key =>
         if truthy key && startsWith (js "txt:") key
         then {[js "legacy_" ++ key]} ∪ acc else acc)
      keys set
  else set.

End WithHost.

End Popup.

(** ** Failure messages of comment generation *)

Module Assist.
Import JS.

(** The response body as [toBackendErrorMessage] reads it: the fields that
    are strings; [None] for a field that is absent or not a string. *)
Record error_payload := {
  detail : option str;
  error : option str;
  message : option str;
}.

Definition nonempty_string (f : option str) : option str :=
  match f with
  | Some (c :: s) => Some (c :: s)
  | _ => None
  end.

(** [toBackendErrorMessage(status, payload, fallback)]; a [payload] that is
    [null] or not an object is [None]. *)
Definition toBackendErrorMessage (status : Z) (payload : option error_payload)
    (fallback : str) : str :=
  let generic := fallback ++ js " (HTTP " ++ string_of_nonneg status ++ js ")" in
  match payload with
  | Some pl =>
    match nonempty_string (detail pl) with
    | Some d => d
    | None =>
      match nonempty_string (error pl) with
      | Some e => e
      | None =>
        match nonempty_string (message pl) with
        | Some m => m
        | None => generic
        end
      end
    end
  | None => generic
  end.

(** What [backendRequest] throws on a response that is not [ok]. *)
Definition backendRequest_failure (status : Z) (payload : option error_payload) : str :=
  toBackendErrorMessage status payload (js "Request failed").

(** The status fields of [commentAssistState]. *)
Record assist_status := {
  statusText : str;
  statusKind : str;
  statusDetails : str;
}.

Definition msg_generic : str := js "Ошибка генерации комментария.".
Definition msg_network : str := js "Нет связи с backend. Проверь адрес в extension options.".
Definition msg_login : str := js "Нужен вход в MyVOICE. Открой extension options и нажми Open Login.".
Definition msg_forbidden : str := js "Доступ к генерации ограничен. Проверь тариф или лимиты.".
Definition msg_not_found : str := js "Сервис генерации не найден на backend.".
Definition msg_no_author : str := js "Выберите автора в блоке MyVOICE's и попробуйте снова.".

Definition setCommentAssistError (rawMessage : str) : assist_status :=
  let msg := Content.cleanText rawMessage in
  let low := toLowerCase msg in
  let text :=
    if includes (js "can't reach backend") low || includes (js "failed to fetch") low
       || includes (js "network error") low
    then msg_network
    else if includes (js "401") low || includes (js "unauthorized") low
    then msg_login
    else if includes (js "403") low then msg_forbidden
    else if includes (js "404") low then msg_not_found
    else if includes (js "автор") low
            && (includes (js "не выбран") low || includes (js "добав") low)
    then msg_no_author
    else or_else msg msg_generic in
  {| statusText := text; statusKind := js "error"; statusDetails := msg |}.

(** The path of a failed generation request.  The background worker answers
    [{ ok: false, error: err.message }]; the content script throws
    [response.error], or its own text when that is empty, and the [catch] of
    the generation routine hands the message to [setCommentAssistError]. *)
Definition status_after_backend_failure (status : Z) (payload : option error_payload)
    : assist_status :=
  let error := backendRequest_failure status payload in
  let msg := or_else error (js "Сервер не вернул варианты.") in
  setCommentAssistError msg.

End Assist.

(** ** Background worker: profile scrape orchestrator

    The worker runs on one event loop.  A turn of the loop is either the
    handling of a message or the resumption of a scrape job at the [await] it
    is suspended on; between two suspension points the code runs without
    interleaving.  The state holds the three module-level maps, the job
    objects with the continuation of their run, and the log of the
    [chrome.tabs] calls issued so far. *)

Module Orchestrator.
Import JS.

Record js_error := { err_message : str; err_code : str }.

Definition SCRAPE_CANCELLED_CODE : str := js "SCRAPE_CANCELLED".

Definition Error (message : str) : js_error :=
  {| err_message := message; err_code := [] |}.

Definition cancelledError : js_error :=
  {| err_message := SCRAPE_CANCELLED_CODE; err_code := SCRAPE_CANCELLED_CODE |}.

Definition isCancelledError (err : js_error) : bool :=
  let code := Background.cleanText (err_code err) in
  let message := Background.cleanText (err_message err) in
  str_eqb code SCRAPE_CANCELLED_CODE || str_eqb message SCRAPE_CANCELLED_CODE.

(** The calls to [chrome.tabs] that the orchestrator issues. *)
Inductive call : Type :=
| TabsCreate (profileKey : str)   (* create({ url: profile.recentActivityUrl, active: false }) *)
| TabsRemove (tabId : Z)
| TabsSendMessage (tabId : Z)
| TabsReload (tabId : Z).

#[export] Instance call_eq_dec : EqDecision call.
Proof. solve_decision. Defined.

(** [Number.isInteger(tabId) && tabId > 0]; a tab id that is not an integer
    is [None]. *)
Definition valid_tab (tabId : option Z) : bool :=
  match tabId with
  | Some t => 0 <? t
  | None => false
  end.

(** The call that [safeCloseTab(tabId)] issues before its [await]. *)
Definition safeCloseTab (tabId : option Z) : list call :=
  match tabId with
  | Some t => if 0 <? t then [TabsRemove t] else []
  | None => []
  end.

Section Orch.
(** [Data] is [response.data] of the extraction message, [Payload] the
    object a request resolves to. *)
Context {Data Payload : Type}.
(** The construction of [responsePayload] from the extracted data. *)
Variable buildPayload : Data -> Payload.
(** The object with [reason: "cancelled"]. *)
Variable cancelledPayload : Payload.

Record response := { ok : bool; data : option Data; error : str }.

(** How [scrapeProfilePosts] completes. *)
Inductive outcome : Type :=
| Returns (d : Data)
| Throws (err : js_error).

(** How the promise [run] is settled. *)
Inductive settlement : Type :=
| Fulfilled (p : Payload)
| Rejected (err : js_error).

(** The [await] a run is suspended on. *)
Inductive pc : Type :=
| AwaitCreate                                   (* chrome.tabs.create *)
| AwaitLoad (tabId : Z)                         (* waitForTabComplete, in scrapeProfilePosts *)
| AwaitSleep (tabId : Z)                        (* sleep(1400) *)
| AwaitSend (tabId : Z) (attempt : nat)         (* chrome.tabs.sendMessage *)
| AwaitReload (tabId : Z) (attempt : nat)       (* chrome.tabs.reload *)
| AwaitReloadComplete (tabId : Z) (attempt : nat) (* waitForTabComplete, in requestPostsFromTab *)
| AwaitRetrySleep (tabId : Z) (attempt : nat)   (* sleep(1200) *)
| AwaitClose (tabId : Z) (result : outcome)     (* safeCloseTab, in the finally block *)
| Settled (result : settlement).

Record cache_entry := { updatedAt : Z; payload : Payload }.

(** One invocation of the async arrow [run]: the job object
    [{ cancelled, tabId }], the locals [tabId] and [cached] of the closures,
    and the suspension point. *)
Record run := {
  run_key : str;
  job_cancelled : bool;
  job_tabId : option Z;
  local_tabId : option Z;
  local_cached : option cache_entry;
  run_pc : pc;
}.

Record state := {
  topPostsCache : gmap str cache_entry;
  topPostsInflight : gmap str nat;
  topPostsJobs : gmap str nat;
  runs : list run;
  calls : list call;
}.

Definition init : state :=
  {| topPostsCache := ∅; topPostsInflight := ∅; topPostsJobs := ∅;
     runs := []; calls := [] |}.

Definition set_run (s : state) (id : nat) (r : run) (new_calls : list call) : state :=
  {| topPostsCache := topPostsCache s;
     topPostsInflight := topPostsInflight s;
     topPostsJobs := topPostsJobs s;
     runs := <[id := r]> (runs s);
     calls := calls s ++ new_calls |}.

(** Assignments to the fields of a run. *)
Definition with_pc (r : run) (p : pc) : run :=
  {| run_key := run_key r; job_cancelled := job_cancelled r;
     job_tabId := job_tabId r; local_tabId := local_tabId r;
     local_cached := local_cached r; run_pc := p |}.

Definition set_cancelled (r : run) (b : bool) : run :=
  {| run_key := run_key r; job_cancelled := b;
     job_tabId := job_tabId r; local_tabId := local_tabId r;
     local_cached := local_cached r; run_pc := run_pc r |}.

Definition set_job_tabId (r : run) (t : option Z) : run :=
  {| run_key := run_key r; job_cancelled := job_cancelled r;
     job_tabId := t; local_tabId := local_tabId r;
     local_cached := local_cached r; run_pc := run_pc r |}.

Definition set_local_tabId (r : run) (t : option Z) : run :=
  {| run_key := run_key r; job_cancelled := job_cancelled r;
     job_tabId := job_tabId r; local_tabId := t;
     local_cached := local_cached r; run_pc := run_pc r |}.

(** The answer of [getProfileTopPosts] to its caller. *)
Inductive reply : Type :=
| ReplyNotProfile              (* reason: "not_profile_page" *)
| ReplyCached (p : Payload)    (* the payload of a fresh cache entry *)
| ReplyPromise (id : nat).     (* the promise of run number id *)

(** [cached && now - cached.updatedAt < TOP_POSTS_CACHE_TTL_MS] *)
Definition fresh (cached : option cache_entry) (now : Z) : option Payload :=
  match cached with
  | Some c =>
    if now - updatedAt c <? Background.TOP_POSTS_CACHE_TTL_MS then Some (payload c)
    else None
  | None => None
  end.

(** [getProfileTopPosts], up to its first suspension.  [profile] is the
    [profileKey] of [parseLinkedInProfile(profileUrl)], if any.  A new run
    creates its job, registers it, enters [scrapeProfilePosts] and calls
    [chrome.tabs.create] before control comes back and the promise is
    stored in [topPostsInflight]. *)
Definition getProfileTopPosts (s : state) (profile : option str) (now : Z)
    : state * reply :=
  match profile with
  | None => (s, ReplyNotProfile)
  | Some key =>
    let cached := topPostsCache s !! key in
    match fresh cached now with
    | Some p => (s, ReplyCached p)
    | None =>
      match topPostsInflight s !! key with
      | Some id => (s, ReplyPromise id)
      | None =>
        let id := length (runs s) in
        let job :=
          {| run_key := key; job_cancelled := false; job_tabId := None;
             local_tabId := None; local_cached := cached;
             run_pc := AwaitCreate |} in
        ({| topPostsCache := topPostsCache s;
            topPostsInflight := <[key := id]> (topPostsInflight s);
            topPostsJobs := <[key := id]> (topPostsJobs s);
            runs := runs s ++ [job];
            calls := calls s ++ [TabsCreate key] |},
         ReplyPromise id)
      end
    end
  end.

(** The handler of the cancel message. *)
Definition cancelProfileTopPosts (s : state) (profile : option str) : state :=
  match profile with
  | None => s
  | Some key =>
    match topPostsJobs s !! key with
    | None => s
    | Some id =>
      match runs s !! id with
      | None => s
      | Some r =>
        (* job.cancelled = true; then safeCloseTab(job.tabId) for a valid id *)
        set_run s id (set_cancelled r true)
          (if valid_tab (job_tabId r) then safeCloseTab (job_tabId r) else [])
      end
    end
  end.

(** The [finally] block of [scrapeProfilePosts]: the job forgets the tab and
    the run suspends on [safeCloseTab(tabId)]. *)
Definition enter_finally (s : state) (id : nat) (r : run) (tabId : Z) (result : outcome)
    : state :=
  set_run s id
    (with_pc (set_job_tabId r None) (AwaitClose tabId result))
    (safeCloseTab (Some tabId)).

(** The rest of the async arrow [run] once [scrapeProfilePosts] has
    completed, and the [finally] of [getProfileTopPosts] behind it: no
    suspension separates them. *)
Definition finish_run (s : state) (id : nat) (r : run) (result : outcome) (now : Z)
    : state :=
  let key := run_key r in
  let '(cache, settled) :=
    match result with
    | Returns d =>
      let responsePayload := buildPayload d in
      (<[key := {| updatedAt := now; payload := responsePayload |}]> (topPostsCache s),
       Fulfilled responsePayload)
    | Throws err =>
      if isCancelledError err then
        match local_cached r with
        | Some c => (topPostsCache s, Fulfilled (payload c))
        | None => (topPostsCache s, Fulfilled cancelledPayload)
        end
      else (topPostsCache s, Rejected err)
    end in
  {| topPostsCache := cache;
     topPostsInflight := delete key (topPostsInflight s);
     topPostsJobs := delete key (topPostsJobs s);
     runs := <[id := with_pc r (Settled settled)]> (runs s);
     calls := calls s |}.

(** How the promise a run awaits is settled. *)
Inductive resolution : Type :=
| TabCreated (tabId : option Z)     (* chrome.tabs.create: Number(tab && tab.id) *)
| Done                              (* fulfilled, the value is not used *)
| Responded (r : option response)   (* chrome.tabs.sendMessage; None is a falsy response *)
| Failed (err : js_error).          (* rejected *)

(** [try { if (job.cancelled) throw cancelledError(); ...] at a check point
    of [scrapeProfilePosts]: either the [finally] block with the
    cancellation error, or the continuation [k]. *)
Definition check_cancelled (s : state) (id : nat) (r : run) (tabId : Z)
    (k : state) : state :=
  if job_cancelled r then enter_finally s id r tabId (Throws cancelledError) else k.

(** Resumption of run [id] at its suspension point. *)
Definition resume (s : state) (id : nat) (res : resolution) (now : Z) : state :=
  match runs s !! id with
  | None => s
  | Some r =>
    match run_pc r, res with
    | AwaitCreate, TabCreated t =>
      (* const tabId = Number(tab && tab.id) *)
      let r := set_local_tabId r t in
      match t with
      | Some tabId =>
        if valid_tab t then
          (* job.tabId = tabId, then the try block *)
          let r := set_job_tabId r (Some tabId) in
          check_cancelled s id r tabId (set_run s id (with_pc r (AwaitLoad tabId)) [])
        else finish_run s id r (Throws (Error (js "Failed to open a hidden LinkedIn tab."))) now
      | None => finish_run s id r (Throws (Error (js "Failed to open a hidden LinkedIn tab."))) now
      end
    | AwaitCreate, Failed err => finish_run s id r (Throws err) now
    | AwaitLoad tabId, Done =>
      check_cancelled s id r tabId (set_run s id (with_pc r (AwaitSleep tabId)) [])
    | AwaitLoad tabId, Failed err => enter_finally s id r tabId (Throws err)
    | AwaitSleep tabId, Done =>
      check_cancelled s id r tabId
        (set_run s id (with_pc r (AwaitSend tabId 1)) [TabsSendMessage tabId])
    | AwaitSend tabId attempt, Responded resp =>
      match resp with
      | Some {| ok := true; data := Some d |} =>
        check_cancelled s id r tabId (enter_finally s id r tabId (Returns d))
      | Some {| error := e |} =>
        enter_finally s id r tabId
          (Throws (Error (or_else e (js "Failed to parse profile posts from LinkedIn."))))
      | None =>
        enter_finally s id r tabId
          (Throws (Error (js "Failed to parse profile posts from LinkedIn.")))
      end
    | AwaitSend tabId attempt, Failed err =>
      let canRetry :=
        (attempt <? 3)%nat && includes (js "Receiving end does not exist") (err_message err) in
      if canRetry
      then set_run s id (with_pc r (AwaitReload tabId attempt)) [TabsReload tabId]
      else enter_finally s id r tabId (Throws err)
    | AwaitReload tabId attempt, Done =>
      set_run s id (with_pc r (AwaitReloadComplete tabId attempt)) []
    | AwaitReload tabId attempt, Failed err => enter_finally s id r tabId (Throws err)
    | AwaitReloadComplete tabId attempt, Done =>
      set_run s id (with_pc r (AwaitRetrySleep tabId attempt)) []
    | AwaitReloadComplete tabId attempt, Failed err =>
      enter_finally s id r tabId (Throws err)
    | AwaitRetrySleep tabId attempt, Done =>
      set_run s id (with_pc r (AwaitSend tabId (attempt + 1))) [TabsSendMessage tabId]
    | AwaitClose tabId result, Done => finish_run s id r result now
    | AwaitClose tabId result, Failed _ => finish_run s id r result now
    | _, _ => s
    end
  end.

(** A turn of the event loop. *)
Inductive event : Type :=
| GetTopPosts (profile : option str) (now : Z)
| CancelTopPosts (profile : option str)
| Resume (id : nat) (res : resolution) (now : Z).

Definition step (s : state) (e : event) : state :=
  match e with
  | GetTopPosts profile now => fst (getProfileTopPosts s profile now)
  | CancelTopPosts profile => cancelProfileTopPosts s profile
  | Resume id res now => resume s id res now
  end.

Definition exec (s : state) (events : list event) : state := fold_left step events s.

(** The result a caller holding [rep] has received in state [s], if any. *)
Definition received (s : state) (rep : reply) : option settlement :=
  match rep with
  | ReplyPromise id =>
    match runs s !! id with
    | Some {| run_pc := Settled result |} => Some result
    | _ => None
    end
  | _ => None
  end.

Definition is_settled (r : run) : bool :=
  match run_pc r with
  | Settled _ => true
  | _ => false
  end.

(** Number of tabs opened for a profile. *)
Definition tabs_opened (key : str) (s : state) : nat :=
  length (List.filter (fun c => bool_decide (c = TabsCreate key)) (calls s)).

End Orch.

End Orchestrator.

(** ** Sample data *)

Module Demo.
Import JS.

(** A host on which no string parses as an absolute date and no string as a
    URL. *)
Definition bare_host : Host :=
  {| Date_parse := fun _ => None;
     URL_parse := fun _ => None;
     JSON_stringify := fun _ => [] |}.

(** A host that reads a time value written in decimal digits, enough to
    give sample posts a date. *)
Definition digit_host : Host :=
  {| Date_parse := fun s => match s with [] => None | _ => Num.digits_value 0 s end;
     URL_parse := fun _ => None;
     JSON_stringify := fun _ => [] |}.

(** [s] cut at the first [c]. *)
Fixpoint cut (c : N) (s : str) : str * option str :=
  match s with
  | [] => ([], None)
  | x :: s' =>
    if (x =? c)%N then ([], Some s')
    else let '(a, b) := cut c s' in (x :: a, b)
  end.

(** [s.split(c)] *)
Fixpoint split_on (c : N) (s : str) : list str :=
  match s with
  | [] => [[]]
  | x :: s' =>
    match split_on c s' with
    | first :: others => if (x =? c)%N then [] :: first :: others else (x :: first) :: others
    | [] => [[]]
    end
  end.

(** The record of a URL of the plain form [scheme://host/path?query#fragment]. *)
Definition parse_plain_url (s : str) : option URL.url :=
  let '(s, fragment) := cut 35 s in
  let '(s, query) := cut 63 s in
  match cut 58 s with
  | (scheme, Some rest) =>
    if startsWith (js "//") rest then
      let '(host, path) := cut 47 (drop 2 rest) in
      Some {| URL.scheme := scheme; URL.username := []; URL.password := [];
              URL.host := Some host; URL.port := None;
              URL.path := URL.Segments (split_on 47 (default [] path));
              URL.query := query; URL.fragment := fragment |}
    else None
  | _ => None
  end.

(** A host that reads time values in decimal digits and plain URLs. *)
Definition web_host : Host :=
  {| Date_parse := fun s => match s with [] => None | _ => Num.digits_value 0 s end;
     URL_parse := parse_plain_url;
     JSON_stringify := fun _ => [] |}.

Definition mk_post (url txt date : string) (reactions : option Z) : post :=
  {| post_url := js url; title := []; content := []; text := js txt;
     posted_at_iso := js date; posted_at := [];
     reactions_count := reactions; likes_count := None; comments_count := None;
     reposts_count := None; views_count := None |}.

(** A post with reactions and views. *)
Definition mk_viewed (url date : string) (reactions views : option Z) : post :=
  {| post_url := js url; title := []; content := []; text := [];
     posted_at_iso := js date; posted_at := [];
     reactions_count := reactions; likes_count := None; comments_count := None;
     reposts_count := None; views_count := views |}.

(** Two captures of one post: four reactions and one view, dated later;
    201 views, dated earlier.  By the formula both score 4.02. *)
Definition viewed_later : post :=
  mk_viewed "https://www.linkedin.com/posts/v" "7" (Some 4) (Some 1).
Definition viewed_earlier : post :=
  mk_viewed "https://www.linkedin.com/posts/v" "5" None (Some 201).


(** Two captures of one post with five reactions, the first without date. *)
Definition undated_first : post :=
  mk_post "https://www.linkedin.com/posts/u" "Hello" EmptyString (Some 5).
Definition dated_second : post :=
  mk_post "https://www.linkedin.com/posts/u" "Hello" "7" (Some 5).

(** Three captures: [post_a] and [post_c] are the same post, seen first
    with one reaction and later with five; [post_b] is another post. *)
Definition post_a : post := mk_post "https://www.linkedin.com/posts/a" "Hello" "5" (Some 1).
Definition post_b : post := mk_post "https://www.linkedin.com/posts/b" "World" EmptyString None.
Definition post_c : post := mk_post "https://www.linkedin.com/posts/a" "Hello" "7" (Some 5).

(** A capture without link ([bare_hello]) and a later capture of the same
    post with its link ([linked_hello]), neither dated; and the same pair
    dated on one day. *)
Definition activity_url : string :=
  "https://www.linkedin.com/feed/update/urn:li:activity:7123456789012345678/".
Definition bare_hello : post := mk_post EmptyString "Hello" EmptyString None.
Definition linked_hello : post := mk_post activity_url "Hello" EmptyString None.
Definition bare_hello_dated : post := mk_post EmptyString "Hello" "1700000000000" None.
Definition linked_hello_dated : post := mk_post activity_url "Hello" "1700000000000" None.

(** The orchestrator on toy data: the extracted data and the payload are
    numbers, the payload of data [d] being [d] itself and the cancelled
    payload 0. *)
Definition run_events : list (@Orchestrator.event nat) -> @Orchestrator.state nat nat :=
  Orchestrator.exec (fun d : nat => d) 0%nat Orchestrator.init.

Definition jane : JS.str := js "in/jane-doe".

Definition good_response : option (@Orchestrator.response nat) :=
  Some {| Orchestrator.ok := true; Orchestrator.data := Some 42%nat;
          Orchestrator.error := [] |}.

(** A request, the tab 7 opened and loaded, the extraction answered, the
    tab closed. *)
Definition trace_success : list (@Orchestrator.event nat) :=
  [Orchestrator.GetTopPosts (Some jane) 1000;
   Orchestrator.Resume 0 (Orchestrator.TabCreated (Some 7)) 1001;
   Orchestrator.Resume 0 Orchestrator.Done 1002;
   Orchestrator.Resume 0 Orchestrator.Done 1003;
   Orchestrator.Resume 0 (Orchestrator.Responded good_response) 1004;
   Orchestrator.Resume 0 Orchestrator.Done 1005].

(** The extraction answers nothing usable. *)
Definition trace_extraction_failure : list (@Orchestrator.event nat) :=
  [Orchestrator.GetTopPosts (Some jane) 1000;
   Orchestrator.Resume 0 (Orchestrator.TabCreated (Some 7)) 1001;
   Orchestrator.Resume 0 Orchestrator.Done 1002;
   Orchestrator.Resume 0 Orchestrator.Done 1003;
   Orchestrator.Resume 0 (Orchestrator.Responded None) 1004;
   Orchestrator.Resume 0 Orchestrator.Done 1005].

(** The tab does not finish loading in time, or is closed before. *)
Definition trace_load_failure : list (@Orchestrator.event nat) :=
  [Orchestrator.GetTopPosts (Some jane) 1000;
   Orchestrator.Resume 0 (Orchestrator.TabCreated (Some 7)) 1001;
   Orchestrator.Resume 0
     (Orchestrator.Failed
        (Orchestrator.Error (js "Timed out while loading LinkedIn profile activity page.")))
     1002;
   Orchestrator.Resume 0 Orchestrator.Done 1003].

(** The cancel message arrives before [chrome.tabs.create] has answered. *)
Definition trace_cancel_early : list (@Orchestrator.event nat) :=
  [Orchestrator.GetTopPosts (Some jane) 1000;
   Orchestrator.CancelTopPosts (Some jane);
   Orchestrator.Resume 0 (Orchestrator.TabCreated (Some 7)) 1001].

(** The cancel message arrives while the extraction is awaited. *)
Definition trace_cancel_late : list (@Orchestrator.event nat) :=
  [Orchestrator.GetTopPosts (Some jane) 1000;
   Orchestrator.Resume 0 (Orchestrator.TabCreated (Some 7)) 1001;
   Orchestrator.Resume 0 Orchestrator.Done 1002;
   Orchestrator.Resume 0 Orchestrator.Done 1003;
   Orchestrator.CancelTopPosts (Some jane)].

End Demo.

(** ** Vocabulary of the statements *)

Module Spec.
Import JS.

(** The Latin and the Cyrillic unit words of the relative-time pattern. *)
Definition latin_units : list str := take 27 Content.relative_units.
Definition cyrillic_units : list str := drop 27 Content.relative_units.

(** *** Activity ids in a text *)

(** [w] is at the front of [s], letter case aside. *)
Fixpoint ci_prefix (w s : str) : bool :=
  match w, s with
  | [], _ => true
  | _ :: _, [] => false
  | x :: w', y :: s' => (canon y =? canon x)%N && ci_prefix w' s'
  end.

(** The digits at the front of a string. *)
Fixpoint digit_run (s : str) : str :=
  match s with
  | c :: s' => if is_digit c then c :: digit_run s' else []
  | [] => []
  end.

(** The id that [marker] introduces at the front of [s]: the whole run of
    digits behind the marker, when it has eight digits at least. *)
Definition reference_at (marker s : str) : option str :=
  if ci_prefix marker s then
    let id := digit_run (drop (length marker) s) in
    if (8 <=? length id)%nat then Some id else None
  else None.

(** The id at the first place of [s] where [marker] introduces one. *)
Fixpoint leftmost_reference (marker s : str) : option str :=
  match reference_at marker s with
  | Some id => Some id
  | None =>
    match s with
    | [] => None
    | _ :: s' => leftmost_reference marker s'
    end
  end.

(** The id of the first marker of the list that introduces one somewhere
    in [s]; the empty string when none does. *)
Fixpoint first_reference (markers : list str) (s : str) : str :=
  match markers with
  | [] => []
  | marker :: rest =>
    match leftmost_reference marker s with
    | Some id => id
    | None => first_reference rest s
    end
  end.

(** All the ids that the markers of [extractActivityId] introduce in [s],
    at any place. *)
Definition references (s : str) : list str :=
  flat_map
    (fun k => omap (fun marker => reference_at marker (drop k s)) Background.activity_markers)
    (seq 0 (S (length s))).

(** [s] holds the activity id [id], in whatever shape, and no other. *)
Definition refers_only_to (s id : str) : bool :=
  match references s with
  | [] => false
  | ids => forallb (str_eqb id) ids
  end.

(** *** Normalized URLs *)

(** The serialization of a URL without query and fragment: scheme,
    authority and path, an opaque path without the spaces at its end. *)
Definition location (u : URL.url) : str :=
  URL.scheme u ++ [58%N] ++ URL.serialize_authority u
  ++ match URL.path u with
     | URL.Opaque s => URL.strip_trailing_spaces s
     | URL.Segments l => URL.serialize_path (URL.Segments l)
     end.

(** Two URLs that differ in query and fragment at most. *)
Definition same_location (u1 u2 : URL.url) : Prop :=
  URL.with_fragment (URL.with_query u1 None) None
  = URL.with_fragment (URL.with_query u2 None) None.

(** [s] is [t] without the slashes at its end. *)
Definition without_trailing_slashes (s t : str) : Prop :=
  last s <> Some 47%N /\ exists n, t = s ++ repeat 47%N n.

(** *** Days *)

(** The UTC day of a time value, in days since 1970-01-01. *)
Definition utc_day (t : Z) : Z := t / Date.ms_per_day.

(** "YYYY-MM-DD" for a day of the years 0 to 9999. *)
Definition day_string (day : Z) : str :=
  let '(y, m, d) := Date.civil_from_days day in
  Date.pad4 y ++ [45%N] ++ Date.pad2 m ++ [45%N] ++ Date.pad2 d.

(** The time values of the years 0 to 9999, whose ISO string starts with
    the four digits of the year. *)
Definition four_digit_year (t : Z) : bool :=
  (-62167219200000 <=? t) && (t <=? 253402300799999).

(** Days since 1970-01-01 of a date of the proleptic Gregorian calendar:
    the inverse of [Date.civil_from_days]. *)
Definition days_from_civil (y m d : Z) : Z :=
  let y := if m <=? 2 then y - 1 else y in
  let era := y / 400 in
  let yoe := y - era * 400 in
  let mp := if 2 <? m then m - 3 else m + 9 in
  let doy := (153 * mp + 2) / 5 + d - 1 in
  let doe := yoe * 365 + yoe / 4 - yoe / 100 + doy in
  era * 146097 + doe - 719468.

(** What [Date.civil_from_days] computes within one era of 146097 days:
    the year of the era, counted from March, with month and day. *)
Definition civil_of_era_day (doe : Z) : Z * Z * Z :=
  let yoe := (doe - doe / 1460 + doe / 36524 - doe / 146096) / 365 in
  let doy := doe - (365 * yoe + yoe / 4 - yoe / 100) in
  let mp := (5 * doy + 2) / 153 in
  let d := doy - (153 * mp + 2) / 5 + 1 in
  let m := if mp <? 10 then mp + 3 else mp - 9 in
  (yoe, m, d).

(** [f] holds on the [n] integers from [base] on. *)
Fixpoint all_from (n : positive) (f : Z -> bool) (base : Z) : bool :=
  match n with
  | xH => f base
  | xO n' => all_from n' f base && all_from n' f (base + Z.pos n')
  | xI n' => all_from n' f base && all_from n' f (base + Z.pos n') && f (base + Z.pos n'~0)
  end.

(** The facts about one day of an era that the calendar lemmas rest on:
    the ranges, the round trip, and that January and February of the era's
    last year are its last 60 days. *)
Definition era_day_ok (doe : Z) : bool :=
  let '(yoe, m, d) := civil_of_era_day doe in
  let mp := if 2 <? m then m - 3 else m + 9 in
  (0 <=? yoe) && (yoe <=? 399) && (1 <=? m) && (m <=? 12) && (1 <=? d) && (d <=? 31)
  && (yoe * 365 + yoe / 4 - yoe / 100 + ((153 * mp + 2) / 5 + d - 1) =? doe)
  && Bool.eqb ((yoe =? 399) && (m <=? 2)) (146037 <=? doe).

(** The days of the years 0 to 9999. *)
Definition four_digit_day (day : Z) : Prop := -719528 <= day <= 2932896.

(** *** Text fingerprints *)

(** Every white-space unit of [s] is a U+0020 that no white space
    follows. *)
Fixpoint single_spaces (s : str) : bool :=
  match s with
  | [] => true
  | c :: s' =>
    (if is_space c
     then (c =? 32)%N && match s' with d :: _ => negb (is_space d) | [] => true end
     else true)
    && single_spaces s'
  end.

(** *** Scores *)

(** The values of the binary64 format lie on the grid of the multiples of
    its least positive value. *)
Definition on_grid (q : Q) : Prop :=
  exists k : Z, (q == inject_Z k * F64.two (-1074))%Q.

(** A number of the format. *)
Definition proper (x : F64.num) : Prop :=
  match x with
  | F64.Fin q => on_grid q
  | _ => True
  end.

(** A number that is not negative. *)
Definition nonnegative (x : F64.num) : Prop :=
  match x with
  | F64.NaN => False
  | F64.Inf negative => negative = false
  | F64.Fin q => (0 <= q)%Q
  end.

(** A count, absent counts being 0. *)
Definition count_or_zero (c : option Z) : Q := inject_Z (default 0 c).

(** The score as the specification writes it, in exact arithmetic. *)
Definition formula_score (p : post) : Q :=
  (count_or_zero (Background.coalesce (reactions_count p) (likes_count p))
   + count_or_zero (comments_count p) * 3
   + count_or_zero (reposts_count p) * 2
   + count_or_zero (views_count p) * (2 # 100))%Q.

(** The counts of a post are absent or between 0 and [bound]. *)
Definition counts_within (bound : Z) (p : post) : Prop :=
  Forall (fun c => match c with Some n => 0 <= n <= bound | None => True end)
    [reactions_count p; likes_count p; comments_count p; reposts_count p; views_count p].

Section WithHost.
Context `{Host}.

(** [r] is as recent as [p]: when [p] is dated, [r] is dated and not
    earlier. *)
Definition as_recent_as (r p : post) : Prop :=
  match Background.postDateMs p with
  | Some dp =>
    match Background.postDateMs r with
    | Some dr => dp <= dr
    | None => False
    end
  | None => True
  end.

(** C1 as the specification states it, for one input list: every record
    has, under its key, a kept record whose score by the formula is not
    lower and which, at equal scores, is as recent. *)
Definition keeps_best_by_formula (posts : list post) : Prop :=
  forall p, p ∈ posts ->
    exists r, r ∈ Background.dedupePosts posts
              /\ Background.postIdentityKey r = Background.postIdentityKey p
              /\ (formula_score p <= formula_score r)%Q
              /\ ((formula_score p == formula_score r)%Q -> as_recent_as r p).

(** [v] is a record that deduplication may keep in the presence of [p]:
    the score of [p] is not greater and, at equal scores, the date of [p] is
    not greater, in the comparisons of the source ([NaN] never compares). *)
Definition at_least_as_good (v p : post) : Prop :=
  F64.gtb (Background.scorePost p) (Background.scorePost v) = false
  /\ (F64.eqb (Background.scorePost p) (Background.scorePost v) = true ->
      Background.date_gtb (Background.postDateMs p) (Background.postDateMs v) = false).




(** The activity id of a post: the first of URL, title, content and text
    that holds one. *)
Definition activity_id_of (p : post) : str :=
  or_else (Background.extractActivityId (post_url p))
    (or_else (Background.extractActivityId (title p))
       (or_else (Background.extractActivityId (content p))
          (Background.extractActivityId (text p)))).

(** In the popup: the text the fingerprint is taken from, the day of the
    post, and the two text keys built from them. *)
Definition snippet_of (p : post) : str :=
  Popup.normalizedSnippet (or_else (content p) (or_else (text p) (title p))).

Definition day_of (p : post) : str :=
  Popup.normalizedDay (or_else (posted_at p) (posted_at_iso p)).

Definition day_key (p : post) : str := js "txt:" ++ day_of p ++ js "|" ++ snippet_of p.
Definition noday_key (p : post) : str := js "txt:|" ++ snippet_of p.

(** The loop invariant of [dedupePosts], [seen] being the posts read so
    far: the keys of the map are distinct, every entry is a post read so far
    under its own key, and every post read so far has an entry under its key
    that is at least as good. *)
Definition dedupe_inv (m : Background.jsmap) (seen : list post) : Prop :=
  NoDup m.*1
  /\ (forall k v, Background.map_get m k = Some v ->
        Background.postIdentityKey v = k /\ v ∈ seen)
  /\ (forall p, p ∈ seen ->
        exists v, Background.map_get m (Background.postIdentityKey p) = Some v
                  /\ at_least_as_good v p).


End WithHost.

End Spec.

(** ** Invariants of the orchestrator *)

Module OrchSpec.
Import JS Orchestrator.

Section Orch.
Context {Data Payload : Type}.
Variable buildPayload : Data -> Payload.
Variable cancelledPayload : Payload.

(** What the suspension point of a run says about its tab: no tab before
    [chrome.tabs.create] answers; between that and the [finally] block the
    job knows the tab, and a cancelled job has had it closed; from the
    [finally] block on, [chrome.tabs.remove] has been called on it. *)
Definition run_ok (cs : list call) (r : @run Data Payload) : Prop :=
  match run_pc r with
  | AwaitCreate => local_tabId r = None /\ job_tabId r = None
  | AwaitClose t _ =>
    local_tabId r = Some t /\ 0 < t /\ job_tabId r = None /\ TabsRemove t ∈ cs
  | Settled _ =>
    job_tabId r = None
    /\ forall t, local_tabId r = Some t -> 0 < t -> TabsRemove t ∈ cs
  | AwaitLoad t | AwaitSleep t | AwaitSend t _ | AwaitReload t _
  | AwaitReloadComplete t _ | AwaitRetrySleep t _ =>
    local_tabId r = Some t /\ job_tabId r = Some t /\ 0 < t
    /\ (job_cancelled r = true -> TabsRemove t ∈ cs)
  end.

Definition tab_inv (s : @state Data Payload) : Prop :=
  forall id r, runs s !! id = Some r -> run_ok (calls s) r.

(** The in-flight map holds exactly the runs that are not settled. *)
Definition flight_inv (s : @state Data Payload) : Prop :=
  (forall id r, runs s !! id = Some r -> is_settled r = false ->
                topPostsInflight s !! run_key r = Some id)
  /\ (forall key id, topPostsInflight s !! key = Some id ->
        exists r, runs s !! id = Some r /\ run_key r = key /\ is_settled r = false).

Definition is_create (c : call) : bool :=
  match c with
  | TabsCreate _ => true
  | _ => false
  end.

(** The three shapes of a resumption: nothing happens (the resolution does
    not fit the suspension point), the run moves to another suspension
    point, or the run is settled. *)
Inductive resume_shape (s : @state Data Payload) (id : nat) (now : Z)
    : @state Data Payload -> Prop :=
| resume_same : resume_shape s id now s
| resume_move (r r' : @run Data Payload) (new : list call) :
    runs s !! id = Some r -> is_settled r = false ->
    run_key r' = run_key r -> is_settled r' = false ->
    (forall cs, run_ok cs r -> run_ok (cs ++ new) r') ->
    Forall (fun c => is_create c = false) new ->
    resume_shape s id now (set_run s id r' new)
| resume_settle (r r' : @run Data Payload) (out : outcome) :
    runs s !! id = Some r -> is_settled r = false ->
    run_key r' = run_key r ->
    (forall cs x, run_ok cs r -> run_ok cs (with_pc r' (Settled x))) ->
    resume_shape s id now (finish_run buildPayload cancelledPayload s id r' out now).

End Orch.

End OrchSpec.

(** * Properties *)

(** Replace a closed term by its value. *)
Ltac vm_eval t := let v := eval vm_compute in t in change t with v.

(** ** The matcher *)

Module RegexProps.
Import JS Regex Spec.

Section Matcher.
Context {R : Type}.
Implicit Types (k : option N -> str -> caps -> option R) (s w : str) (c : caps).

Lemma rmatch_Seq (a b : re) prev s c k :
  rmatch (Seq a b) prev s c k
  = rmatch a prev s c (fun prev' s' c' => rmatch b prev' s' c' k).
Proof. reflexivity. Qed.

Lemma rmatch_Grp (i : nat) (a : re) prev s c k :
  rmatch (Grp i a) prev s c k
  = rmatch a prev s c
      (fun prev' s' c' => k prev' s' ((i, take (length s - length s') s) :: c')).
Proof. reflexivity. Qed.

(** A literal matches exactly where it is a prefix, letter case aside. *)
Lemma rmatch_Lit_fail w prev s c k :
  ci_prefix w s = false -> rmatch (Lit w) prev s c k = None.
Proof.
  revert prev s. induction w as [|x w IH]; intros prev s Hp; [discriminate Hp|].
  destruct s as [|y s]; [reflexivity|]. simpl in *.
  destruct (canon y =? canon x)%N; [|reflexivity]. apply IH. exact Hp.
Qed.

Lemma rmatch_Lit_ok w prev s c k :
  ci_prefix w s = true ->
  exists prev', rmatch (Lit w) prev s c k = k prev' (drop (length w) s) c.
Proof.
  revert prev s. induction w as [|x w IH]; intros prev s Hp.
  - exists prev. reflexivity.
  - destruct s as [|y s]; [discriminate Hp|]. simpl in *.
    destruct (canon y =? canon x)%N; [|discriminate Hp]. apply IH. exact Hp.
Qed.

(** A fixed number of class units. *)
Lemma rmatch_Rep_ok (p : N -> bool) (n : nat) prev s c k :
  (n <= length s)%nat -> forallb p (take n s) = true ->
  exists prev', rmatch (Rep n (Cls p)) prev s c k = k prev' (drop n s) c.
Proof.
  revert prev s. induction n as [|n IH]; intros prev s Hlen Hall.
  - exists prev. reflexivity.
  - destruct s as [|y s]; [simpl in Hlen; lia|]. simpl in *.
    apply andb_true_iff in Hall as [Hy Hall]. rewrite Hy.
    apply IH; [lia | exact Hall].
Qed.

(** A greedy star of a class takes the whole run when the rest succeeds
    behind it. *)
Lemma star_loop_run
    (body : option N -> str -> caps -> (option N -> str -> caps -> option R) -> option R)
    (p : N -> bool) (run rest : str) k c (res : R) :
  (forall prev s c k',
     body prev s c k'
     = match s with
       | x :: s' => if p x then k' (Some x) s' c else None
       | [] => None
       end) ->
  forallb p run = true -> match rest with y :: _ => p y = false | [] => True end ->
  (forall prev', k prev' rest c = Some res) ->
  forall fuel prev, (length run <= fuel)%nat ->
    star_loop body k fuel prev (run ++ rest) c = Some res.
Proof.
  intros Hbody Hrun Hrest Hk. induction run as [|x run IH]; intros fuel prev Hfuel.
  - destruct fuel as [|fuel]; cbn [star_loop app]; [apply Hk|].
    rewrite Hbody. destruct rest as [|y rest]; [apply Hk|]. rewrite Hrest. apply Hk.
  - destruct fuel as [|fuel]; [simpl in Hfuel; lia|].
    simpl in Hrun. apply andb_true_iff in Hrun as [Hx Hrun].
    cbn [star_loop app]. rewrite Hbody, Hx.
    replace (length (run ++ rest) <? length (x :: run ++ rest))%nat with true
      by (symmetry; apply Nat.ltb_lt; simpl; lia).
    rewrite (IH Hrun fuel (Some x)) by (simpl in Hfuel; lia). reflexivity.
Qed.

Lemma rmatch_Star_run (p : N -> bool) (run rest : str) prev k c (res : R) :
  forallb p run = true -> match rest with y :: _ => p y = false | [] => True end ->
  (forall prev', k prev' rest c = Some res) ->
  rmatch (Star (Cls p)) prev (run ++ rest) c k = Some res.
Proof.
  intros Hrun Hrest Hk. cbn [rmatch].
  apply (star_loop_run _ p run rest k c res); try assumption.
  - intros prev0 s0 c0 k'. reflexivity.
  - rewrite length_app. lia.
Qed.

(** A fixed number of class units fails on a shorter run. *)
Lemma rmatch_Rep_short (n : nat) prev s c k :
  (length (digit_run s) < n)%nat -> rmatch (Rep n Dig) prev s c k = None.
Proof.
  revert prev s. induction n as [|n IH]; intros prev s Hlen; [lia|].
  destruct s as [|y s]; [reflexivity|]. simpl in *.
  destruct (is_digit y); [|reflexivity]. apply IH. simpl in Hlen. lia.
Qed.

End Matcher.

Lemma digit_run_split (s : str) :
  s = digit_run s ++ drop (length (digit_run s)) s
  /\ forallb is_digit (digit_run s) = true
  /\ match drop (length (digit_run s)) s with
     | y :: _ => is_digit y = false
     | [] => True
     end.
Proof.
  induction s as [|x s (IH1 & IH2 & IH3)]; [repeat split|].
  simpl. destruct (is_digit x) eqn:E.
  - simpl. rewrite E. repeat split; [f_equal; exact IH1 | exact IH2 | exact IH3].
  - simpl. repeat split. exact E.
Qed.

Lemma ci_prefix_length (w s : str) : ci_prefix w s = true -> (length w <= length s)%nat.
Proof.
  revert s. induction w as [|x w IH]; intros s Hp; [simpl; lia|].
  destruct s as [|y s]; [discriminate Hp|]. simpl in *.
  apply andb_true_iff in Hp as [_ Hp]. specialize (IH s Hp). lia.
Qed.

(** The pattern of an activity marker, tried at the front of a text: it
    matches where the marker introduces an id, and group 1 is that id. *)
Lemma activity_pattern_reference (marker s : str) (prev : option N) :
  rmatch (Background.activity_pattern marker) prev s [] (fun _ s' c => Some (s', c))
  = match reference_at marker s with
    | Some id => Some (drop (length marker + length id) s, [(1%nat, id)])
    | None => None
    end.
Proof.
  unfold Background.activity_pattern, reference_at. rewrite rmatch_Seq.
  destruct (ci_prefix marker s) eqn:Hci; [|apply rmatch_Lit_fail; exact Hci].
  match goal with
  | |- rmatch (Lit _) _ _ _ ?K = _ =>
    destruct (rmatch_Lit_ok marker prev s [] K Hci) as (p1 & ->)
  end.
  set (rest := drop (length marker) s).
  destruct (digit_run_split rest) as (Hsplit & Hdig & Hpost).
  set (id := digit_run rest) in *. set (post := drop (length id) rest) in *.
  rewrite rmatch_Grp. unfold AtLeast. rewrite rmatch_Seq.
  destruct (8 <=? length id)%nat eqn:Hlen.
  - apply Nat.leb_le in Hlen.
    assert (Hdig' : forall x, x ∈ id -> is_digit x = true).
    { intros x Hx. rewrite forallb_forall in Hdig. apply Hdig.
      apply list_elem_of_In. exact Hx. }
    rewrite Hsplit.
    assert (Hfirst : forallb is_digit (take 8 (id ++ post)) = true).
    { rewrite take_app_le by lia. apply forallb_forall. intros x Hx.
      apply Hdig'. apply list_elem_of_In in Hx. eapply subseteq_take; eassumption. }
    unfold Dig.
    match goal with
    | |- rmatch (Rep _ _) _ _ _ ?K = _ =>
      destruct (rmatch_Rep_ok is_digit 8 p1 (id ++ post) [] K
                  ltac:(rewrite length_app; lia) Hfirst) as (p2 & ->)
    end.
    rewrite drop_app_le by lia.
    erewrite (rmatch_Star_run is_digit (drop 8 id) post); cycle 1.
    { apply forallb_forall. intros x Hx. apply Hdig'.
      apply list_elem_of_In in Hx. eapply subseteq_drop; eassumption. }
    { destruct post as [|y post']; [exact I | exact Hpost]. }
    { intros _. reflexivity. }
    rewrite length_app.
    replace (length id + length post - length post)%nat with (length id) by lia.
    rewrite take_app_length. f_equal. f_equal.
    unfold post, rest. rewrite drop_drop. reflexivity.
  - apply Nat.leb_gt in Hlen. apply rmatch_Rep_short. exact Hlen.
Qed.

(** The search finds the first place where the marker introduces an id. *)
Lemma search_activity_reference (marker s : str) (prev : option N) :
  option_map (fun m => grp m 1) (search_from (Background.activity_pattern marker) prev s)
  = option_map Some (leftmost_reference marker s).
Proof.
  revert prev. induction s as [|x s IH]; intros prev.
  - cbn [search_from leftmost_reference]. rewrite activity_pattern_reference.
    destruct (reference_at marker []); reflexivity.
  - cbn [search_from leftmost_reference]. rewrite activity_pattern_reference.
    destruct (reference_at marker (x :: s)); [reflexivity | apply IH].
Qed.

Lemma reference_at_length (marker s id : str) :
  reference_at marker s = Some id -> (8 <= length id)%nat /\ forallb is_digit id = true.
Proof.
  unfold reference_at. destruct (ci_prefix marker s); [|discriminate].
  destruct (8 <=? _)%nat eqn:E; [|discriminate]. intros [= <-].
  apply Nat.leb_le in E. split; [exact E|].
  apply (digit_run_split (drop (length marker) s)).
Qed.

Lemma leftmost_reference_at (marker s id : str) :
  leftmost_reference marker s = Some id ->
  exists k, (k <= length s)%nat /\ reference_at marker (drop k s) = Some id.
Proof.
  induction s as [|x s IH]; cbn [leftmost_reference].
  - destruct (reference_at marker []) eqn:E; [|discriminate].
    intros [= ->]. exists 0%nat. split; [simpl; lia | exact E].
  - destruct (reference_at marker (x :: s)) eqn:E.
    + intros [= ->]. exists 0%nat. split; [simpl; lia | exact E].
    + intros Hl. destruct (IH Hl) as (k & Hk & Hr).
      exists (S k). split; [simpl; lia | exact Hr].
Qed.

Lemma leftmost_reference_none (marker s : str) (k : nat) :
  leftmost_reference marker s = None -> reference_at marker (drop k s) = None.
Proof.
  revert k. induction s as [|x s IH]; intros k; cbn [leftmost_reference].
  - destruct (reference_at marker []) eqn:E; [discriminate|].
    intros _. rewrite drop_nil. exact E.
  - destruct (reference_at marker (x :: s)) eqn:E; [discriminate|].
    intros Hl. destruct k as [|k]; [exact E | apply IH; exact Hl].
Qed.

End RegexProps.

(** ** Binary64 arithmetic *)

Module F64Props.
Import F64 Spec.

Local Open Scope Q_scope.

Lemma two_pos (e : Z) : 0 < two e.
Proof. unfold two. apply Qpower_0_lt. reflexivity. Qed.

Lemma two_add (a b : Z) : two (a + b) == two a * two b.
Proof. unfold two. apply Qpower_plus. discriminate. Qed.

Lemma two_sub (a b : Z) : two (a - b) == two a / two b.
Proof. unfold two. apply Qpower_minus. discriminate. Qed.

Lemma two_Z (n : Z) : (0 <= n)%Z -> two n == inject_Z (2 ^ n).
Proof. intros Hn. unfold two. rewrite Zpower_Qpower by exact Hn. reflexivity. Qed.

Lemma two_le (a b : Z) : (a <= b)%Z -> two a <= two b.
Proof. intros H. unfold two. apply Qpower_le_compat_l; [exact H | discriminate]. Qed.

Lemma two_lt_inv (a b : Z) : two a < two b -> (a < b)%Z.
Proof.
  intros H. destruct (Z_lt_le_dec a b) as [Hlt|Hge]; [exact Hlt|].
  apply two_le in Hge. lra.
Qed.

(** [ilog2] is a lower bound of the binary logarithm. *)
Lemma ilog2_le (a : Q) : 0 < a -> two (ilog2 a) <= a.
Proof.
  intros Ha. unfold ilog2.
  destruct (Qle_bool (two _) a) eqn:E; [apply Qle_bool_iff; exact E|].
  destruct a as [n d]. cbn [Qnum Qden] in *.
  assert (Hn : (0 < n)%Z) by (unfold Qlt in Ha; simpl in Ha; lia).
  set (ln := Z.log2 n). set (ld := Z.log2 (Z.pos d)).
  assert (Hln : (0 <= ln)%Z) by apply Z.log2_nonneg.
  assert (Hld : (0 <= ld)%Z) by apply Z.log2_nonneg.
  destruct (Z.log2_spec n Hn) as [Hn1 _]. fold ln in Hn1.
  destruct (Z.log2_spec (Z.pos d) ltac:(lia)) as [_ Hd2]. fold ld in Hd2.
  replace (ln - ld - 1)%Z with (ln - (ld + 1))%Z by lia.
  rewrite two_sub, (two_Z ln), (two_Z (ld + 1)) by lia.
  rewrite (Qmake_Qdiv n d).
  assert (Hp : (0 < 2 ^ (ld + 1))%Z) by (apply Z.pow_pos_nonneg; lia).
  apply Qle_shift_div_l; [unfold Qlt; simpl; lia|].
  unfold Qdiv. rewrite <- Qmult_assoc, (Qmult_comm (/ _)), Qmult_assoc.
  apply Qle_shift_div_r; [unfold Qlt; simpl; lia|].
  rewrite <- !inject_Z_mult, <- Zle_Qle.
  change (Z.succ ld) with (ld + 1)%Z in Hd2. nia.
Qed.

Lemma nearest_even_ge (x : Q) : (Qfloor x <= nearest_even x)%Z.
Proof.
  unfold nearest_even. cbv zeta.
  destruct (Qcompare _ _); [destruct (Z.even _)| |]; lia.
Qed.

Lemma nearest_even_Z (x : Q) (n : Z) : x == inject_Z n -> nearest_even x = n.
Proof.
  intros Hx. unfold nearest_even.
  assert (Hf : Qfloor x = n) by (rewrite Hx; apply Qfloor_Z).
  rewrite Hf.
  assert (Hc : (x - inject_Z n ?= 1 # 2) = Lt).
  { apply Qlt_alt. rewrite Hx.
    setoid_replace (inject_Z n - inject_Z n) with 0 using relation Qeq by ring. reflexivity. }
  rewrite Hc. reflexivity.
Qed.

Lemma round_pos_shape (a : Q) :
  exists (m e : Z), (-1074 <= e)%Z /\ m = nearest_even (a / two e)
                    /\ (e = ilog2 a - 52 \/ e = -1074)%Z
                    /\ (ilog2 a - 52 <= e)%Z
                    /\ round_pos a = inject_Z m * two e.
Proof.
  unfold round_pos. set (e := Z.max (ilog2 a - 52) (-1074)).
  exists (nearest_even (a / two e)), e. repeat split; try lia.
Qed.

Lemma on_grid_scaled (m e : Z) : (-1074 <= e)%Z -> on_grid (inject_Z m * two e).
Proof.
  intros He. exists (m * 2 ^ (e + 1074))%Z.
  rewrite inject_Z_mult, <- two_Z by lia.
  rewrite <- Qmult_assoc, <- two_add.
  replace (e + 1074 + -1074)%Z with e by lia. reflexivity.
Qed.

Lemma on_grid_comp (p q : Q) : p == q -> on_grid p -> on_grid q.
Proof. intros E [k Hk]. exists k. rewrite <- E. exact Hk. Qed.

Lemma on_grid_opp (q : Q) : on_grid q -> on_grid (- q).
Proof.
  intros [k Hk]. exists (- k)%Z. rewrite Hk, inject_Z_opp. ring.
Qed.

Lemma on_grid_0 : on_grid 0.
Proof. exists 0%Z. ring. Qed.


Lemma round_pos_grid (a : Q) : on_grid (round_pos a).
Proof.
  destruct (round_pos_shape a) as (m & e & He & _ & _ & _ & ->).
  apply on_grid_scaled. exact He.
Qed.

Lemma round_pos_nonneg (a : Q) : 0 < a -> 0 <= round_pos a.
Proof.
  intros Ha. destruct (round_pos_shape a) as (m & e & He & Hm & _ & _ & ->).
  apply Qmult_le_0_compat; [|apply Qlt_le_weak, two_pos].
  rewrite <- (Qfloor_Z 0) at 1. change (inject_Z 0 <= inject_Z m). rewrite <- Zle_Qle.
  rewrite Hm. etransitivity; [|apply nearest_even_ge].
  change 0%Z with (Qfloor 0). apply Qfloor_resp_le.
  apply Qle_shift_div_l; [apply two_pos | lra].
Qed.

(** A value at or above the least positive value of the format is not
    rounded to zero. *)
Lemma round_pos_pos (a : Q) : two (-1074) <= a -> two (-1074) <= round_pos a.
Proof.
  intros Ha. pose proof (two_pos (-1074)) as Hp.
  assert (Ha0 : 0 < a) by lra.
  destruct (round_pos_shape a) as (m & e & He & Hm & Hcase & Hlow & ->).
  assert (Hle : two e <= a).
  { destruct Hcase as [->| ->]; [|exact Ha].
    eapply Qle_trans; [|apply ilog2_le; exact Ha0]. apply two_le. lia. }
  assert (H1 : (1 <= m)%Z).
  { rewrite Hm. etransitivity; [|apply nearest_even_ge].
    change 1%Z with (Qfloor 1). apply Qfloor_resp_le.
    apply Qle_shift_div_l; [apply two_pos | lra]. }
  rewrite Zle_Qle in H1. pose proof (two_pos e) as Hpe.
  pose proof (two_le _ _ He) as Hge.
  assert (two e <= inject_Z m * two e); [|lra].
  setoid_replace (two e) with (1 * two e) using relation Qeq at 1 by ring.
  apply Qmult_le_compat_r; [exact H1 | lra].
Qed.

(** A value with a significand below [2^53] at an exponent of the format is
    left as it is. *)
Lemma round_pos_exact (a : Q) (m e : Z) :
  (0 < m < 2 ^ 53)%Z -> (-1074 <= e)%Z -> a == inject_Z m * two e ->
  round_pos a == a.
Proof.
  intros [Hm0 Hm1] He Ha.
  assert (Hpos : 0 < a).
  { rewrite Ha. apply Qmult_lt_0_compat; [|apply two_pos].
    change 0 with (inject_Z 0). rewrite <- Zlt_Qlt. exact Hm0. }
  destruct (round_pos_shape a) as (m' & e' & He' & Hm' & Hcase & Hlow & ->).
  assert (Hee : (e' <= e)%Z).
  { destruct Hcase as [->| ->]; [|exact He].
    assert (ilog2 a < 53 + e)%Z; [|lia].
    apply two_lt_inv. eapply Qle_lt_trans; [apply ilog2_le; exact Hpos|].
    rewrite Ha, two_add, (two_Z 53) by lia.
    apply Qmult_lt_compat_r; [apply two_pos|]. rewrite <- Zlt_Qlt. exact Hm1. }
  assert (Hq : a / two e' == inject_Z (m * 2 ^ (e - e'))).
  { rewrite inject_Z_mult, <- two_Z by lia. rewrite Ha, two_sub.
    field. pose proof (two_pos e'). lra. }
  rewrite Hm', (nearest_even_Z _ _ Hq), inject_Z_mult, <- two_Z by lia.
  rewrite Ha, two_sub. field. pose proof (two_pos e'). lra.
Qed.

Lemma Qred_inject_Z (z : Z) : Qred (inject_Z z) = inject_Z z.
Proof. apply Qred_identity. simpl. apply Z.gcd_1_r. Qed.

Lemma two_1024_gt (z : Z) : (z <= 2 ^ 53)%Z -> Qle_bool (two 1024) (inject_Z z) = false.
Proof.
  intros Hz. apply not_true_iff_false. rewrite Qle_bool_iff.
  rewrite (two_Z 1024) by lia. rewrite <- Zle_Qle.
  assert (2 ^ 53 < 2 ^ 1024)%Z by (apply Z.pow_lt_mono_r; lia). lia.
Qed.

Lemma Qle_bool_comp (a b c : Q) : b == c -> Qle_bool a b = Qle_bool a c.
Proof.
  intros E. destruct (Qle_bool a c) eqn:Ec.
  - apply Qle_bool_iff. apply Qle_bool_iff in Ec. lra.
  - apply not_true_iff_false. intros Eb. apply Qle_bool_iff in Eb.
    apply not_true_iff_false in Ec. apply Ec. apply Qle_bool_iff. lra.
Qed.

Lemma round_pos_Z (z : Z) : (0 < z <= 2 ^ 53)%Z -> round_pos (inject_Z z) == inject_Z z.
Proof.
  intros [H0 H1]. destruct (Z.eq_dec z (2 ^ 53)%Z) as [->|Hne].
  - apply (round_pos_exact _ (2 ^ 52)%Z 1); [split; reflexivity | lia | reflexivity].
  - apply (round_pos_exact _ z 0); [lia | lia |].
    change (two 0) with 1. ring.
Qed.

(** *** Rounding *)

(** Rounding acts on the value of a rational, not on its fraction. *)
Lemma round_comp (p q : Q) : p == q -> round p = round q.
Proof. intros E. unfold round. rewrite (Qred_complete _ _ E). reflexivity. Qed.

Lemma round_0 : round 0 = Fin 0.
Proof. reflexivity. Qed.

(** Integers up to [2^53] in absolute value are numbers of the format. *)
Lemma of_Z_exact (z : Z) : (Z.abs z <= 2 ^ 53)%Z -> of_Z z = Fin (inject_Z z).
Proof.
  intros Hz. unfold of_Z, round. rewrite Qred_inject_Z. unfold round_canon.
  destruct (Qcompare (inject_Z z) 0) eqn:Ec.
  - apply Qeq_alt in Ec. f_equal.
    assert (z = 0%Z) by (unfold Qeq in Ec; simpl in Ec; lia). subst. reflexivity.
  - apply Qlt_alt in Ec. change 0 with (inject_Z 0) in Ec. rewrite <- Zlt_Qlt in Ec.
    rewrite <- inject_Z_opp.
    pose proof (round_pos_Z (- z) ltac:(lia)) as E.
    rewrite (Qle_bool_comp _ _ _ E), two_1024_gt by lia.
    f_equal. etransitivity; [|apply Qred_inject_Z]. apply Qred_complete.
    rewrite E, inject_Z_opp. ring.
  - apply Qgt_alt in Ec. change 0 with (inject_Z 0) in Ec. rewrite <- Zlt_Qlt in Ec.
    pose proof (round_pos_Z z ltac:(lia)) as E.
    rewrite (Qle_bool_comp _ _ _ E), two_1024_gt by lia.
    f_equal. etransitivity; [|apply Qred_inject_Z]. apply Qred_complete. exact E.
Qed.

Lemma round_Z (q : Q) (z : Z) :
  q == inject_Z z -> (Z.abs z <= 2 ^ 53)%Z -> round q = Fin (inject_Z z).
Proof. intros E Hz. rewrite (round_comp _ _ E). apply of_Z_exact. exact Hz. Qed.

(** The three outcomes of rounding, by the sign of the argument. *)
Lemma round_cases (q : Q) :
  (q == 0 /\ round q = Fin 0)
  \/ (0 < q /\ (round q = Inf false
                \/ exists v, round q = Fin v /\ 0 <= v /\ on_grid v
                             /\ (two (-1074) <= q -> 0 < v)))
  \/ (q < 0 /\ (round q = Inf true
                \/ exists v, round q = Fin v /\ v <= 0 /\ on_grid v
                             /\ (q <= - two (-1074) -> v < 0))).
Proof.
  unfold round, round_canon. pose proof (Qred_correct q) as Er.
  pose proof (two_pos (-1074)) as Hu.
  destruct (Qcompare (Qred q) 0) eqn:Ec.
  - left. apply Qeq_alt in Ec. split; [rewrite <- Er; exact Ec | reflexivity].
  - right. right. apply Qlt_alt in Ec. split; [rewrite <- Er; exact Ec|].
    destruct (Qle_bool _ _); [left; reflexivity|]. right.
    eexists. split; [reflexivity|].
    assert (Hn : 0 < - Qred q) by lra.
    pose proof (round_pos_nonneg _ Hn) as H0.
    pose proof (Qred_correct (- round_pos (- Qred q))) as Ev.
    split; [rewrite Ev; lra|]. split.
    + apply (on_grid_comp _ _ (Qeq_sym _ _ Ev)). apply on_grid_opp, round_pos_grid.
    + intros Hq. assert (Hq' : two (-1074) <= - Qred q) by lra.
      pose proof (round_pos_pos _ Hq'). rewrite Ev. lra.
  - right. left. apply Qgt_alt in Ec. split; [rewrite <- Er; exact Ec|].
    destruct (Qle_bool _ _); [left; reflexivity|]. right.
    eexists. split; [reflexivity|].
    pose proof (round_pos_nonneg _ Ec) as H0.
    pose proof (Qred_correct (round_pos (Qred q))) as Ev.
    split; [rewrite Ev; lra|]. split.
    + apply (on_grid_comp _ _ (Qeq_sym _ _ Ev)). apply round_pos_grid.
    + intros Hq. assert (Hq' : two (-1074) <= Qred q) by lra.
      pose proof (round_pos_pos _ Hq'). rewrite Ev. lra.
Qed.

Lemma round_not_NaN (q : Q) : isNaN (round q) = false.
Proof.
  destruct (round_cases q) as [[_ ->]|[[_ [->|(v & -> & _)]]|[_ [->|(v & -> & _)]]]];
    reflexivity.
Qed.

Lemma round_proper (q : Q) : proper (round q).
Proof.
  destruct (round_cases q) as [[_ ->]|[[_ [->|(v & -> & _ & Hg & _)]]|[_ [->|(v & -> & _ & Hg & _)]]]];
    simpl; auto using on_grid_0.
Qed.

Lemma round_nonnegative (q : Q) : 0 <= q -> nonnegative (round q).
Proof.
  intros Hq.
  destruct (round_cases q) as [[_ ->]|[[_ [->|(v & -> & Hv & _)]]|[Hneg _]]];
    simpl; auto; lra.
Qed.

(** *** Operations on numbers of the format *)

Lemma of_Z_proper (z : Z) : proper (of_Z z).
Proof. apply round_proper. Qed.

Lemma of_Z_not_NaN (z : Z) : isNaN (of_Z z) = false.
Proof. apply round_not_NaN. Qed.

Lemma add_proper (x y : num) : proper (add x y).
Proof.
  destruct x as [|s|p], y as [|t|q]; simpl; auto; try apply round_proper.
  destruct (Bool.eqb s t); exact I.
Qed.

Lemma opp_proper (x : num) : proper x -> proper (opp x).
Proof.
  destruct x as [|s|p]; simpl; auto. intros Hp.
  apply (on_grid_comp (- p)); [symmetry; apply Qred_correct | apply on_grid_opp; exact Hp].
Qed.

Lemma sub_proper (x y : num) : proper (sub x y).
Proof. apply add_proper. Qed.

Lemma mul_proper (x y : num) : proper (mul x y).
Proof.
  destruct x as [|s|p], y as [|t|q]; simpl; auto; try apply round_proper;
    destruct (Qeq_bool _ _); exact I.
Qed.

Lemma add_nonnegative (x y : num) : nonnegative x -> nonnegative y -> nonnegative (add x y).
Proof.
  destruct x as [|s|p], y as [|t|q]; simpl; try tauto.
  - intros -> ->. reflexivity.
  - intros Hp Hq. apply round_nonnegative. lra.
Qed.

Lemma mul_Fin_nonnegative (p q : Q) : 0 <= p -> 0 <= q -> nonnegative (mul (Fin p) (Fin q)).
Proof. intros Hp Hq. simpl. apply round_nonnegative. apply Qmult_le_0_compat; assumption. Qed.

Lemma nonnegative_not_NaN (x : num) : nonnegative x -> isNaN x = false.
Proof. destruct x; simpl; tauto. Qed.

(** Small integers: the operations are exact. *)
Lemma add_Z (a b : Z) :
  (Z.abs (a + b) <= 2 ^ 53)%Z ->
  add (Fin (inject_Z a)) (Fin (inject_Z b)) = Fin (inject_Z (a + b)).
Proof. intros H. simpl. apply round_Z; [rewrite inject_Z_plus; reflexivity | exact H]. Qed.

Lemma mul_Z (a b : Z) :
  (Z.abs (a * b) <= 2 ^ 53)%Z ->
  mul (Fin (inject_Z a)) (Fin (inject_Z b)) = Fin (inject_Z (a * b)).
Proof. intros H. simpl. apply round_Z; [rewrite inject_Z_mult; reflexivity | exact H]. Qed.

Lemma sub_Z (a b : Z) :
  (Z.abs (a - b) <= 2 ^ 53)%Z ->
  sub (Fin (inject_Z a)) (Fin (inject_Z b)) = Fin (inject_Z (a - b)).
Proof.
  intros H. unfold sub. simpl. apply round_Z; [|exact H].
  rewrite Qred_correct. unfold Z.sub. rewrite inject_Z_plus, inject_Z_opp. reflexivity.
Qed.

(** *** Comparisons *)


Lemma ltb_Fin_false (p q : Q) : ltb (Fin p) (Fin q) = false <-> q <= p.
Proof. simpl. rewrite negb_false_iff. apply Qle_bool_iff. Qed.

Lemma eqb_Fin (p q : Q) : eqb (Fin p) (Fin q) = true <-> p == q.
Proof. simpl. apply Qeq_bool_iff. Qed.

Lemma eqb_Fin_false (p q : Q) : eqb (Fin p) (Fin q) = false <-> ~ p == q.
Proof.
  simpl. split.
  - intros E. apply Qeq_bool_neq. exact E.
  - intros Hn. apply not_true_iff_false. intros E. apply Hn, Qeq_bool_iff. exact E.
Qed.

Lemma Qle_bool_false (p q : Q) : Qle_bool p q = false <-> q < p.
Proof.
  rewrite <- not_true_iff_false, Qle_bool_iff.
  split; [apply Qnot_le_lt | apply Qlt_not_le].
Qed.

Lemma gtb_irrefl (x : num) : gtb x x = false.
Proof.
  destruct x as [|[|]|q]; try reflexivity.
  unfold gtb. apply ltb_Fin_false. apply Qle_refl.
Qed.

Lemma eqb_refl (x : num) : isNaN x = false -> eqb x x = true.
Proof.
  destruct x as [|[|]|q]; try reflexivity; try discriminate.
  intros _. apply eqb_Fin. reflexivity.
Qed.

Lemma eqb_sym (x y : num) : eqb x y = eqb y x.
Proof.
  destruct x as [|[|]|p], y as [|[|]|q]; try reflexivity.
  simpl. destruct (Qeq_bool p q) eqn:E.
  - symmetry. apply Qeq_bool_iff. apply Qeq_bool_iff in E. symmetry. exact E.
  - symmetry. apply not_true_iff_false. intros E'. apply Qeq_bool_iff in E'.
    apply Qeq_bool_neq in E. apply E. symmetry. exact E'.
Qed.

Lemma eqb_not_NaN (x y : num) : eqb x y = true -> isNaN x = false /\ isNaN y = false.
Proof. destruct x as [|[|]|p], y as [|[|]|q]; simpl; auto; discriminate. Qed.

Lemma gtb_not_NaN (x y : num) : gtb x y = true -> isNaN x = false /\ isNaN y = false.
Proof. destruct x as [|[|]|p], y as [|[|]|q]; unfold gtb; simpl; auto; discriminate. Qed.

(** Numbers that are not [NaN] are totally ordered. *)
Lemma order_total (x y : num) :
  isNaN x = false -> isNaN y = false ->
  gtb x y = true \/ eqb x y = true \/ gtb y x = true.
Proof.
  destruct x as [|[|]|p], y as [|[|]|q]; unfold gtb; simpl; auto; try discriminate.
  intros _ _. destruct (Q_dec p q) as [[Hlt|Hgt]|Heq].
  - right. right. apply negb_true_iff, Qle_bool_false. exact Hlt.
  - left. apply negb_true_iff, Qle_bool_false. exact Hgt.
  - right. left. apply Qeq_bool_iff. exact Heq.
Qed.

Lemma gtb_trans (x y z : num) : gtb x y = true -> gtb y z = true -> gtb x z = true.
Proof.
  destruct x as [|[|]|p], y as [|[|]|q], z as [|[|]|r]; unfold gtb; simpl; auto;
    try discriminate.
  rewrite !negb_true_iff, !Qle_bool_false. intros H1 H2. lra.
Qed.

Lemma gtb_eqb_trans (x y z : num) : gtb x y = true -> eqb y z = true -> gtb x z = true.
Proof.
  destruct x as [|[|]|p], y as [|[|]|q], z as [|[|]|r]; unfold gtb; simpl; auto;
    try discriminate.
  rewrite !negb_true_iff, !Qle_bool_false, Qeq_bool_iff. intros H1 H2. lra.
Qed.


Lemma eqb_trans (x y z : num) : eqb x y = true -> eqb y z = true -> eqb x z = true.
Proof.
  destruct x as [|[|]|p], y as [|[|]|q], z as [|[|]|r]; simpl; auto; try discriminate.
  rewrite !Qeq_bool_iff. intros H1 H2. lra.
Qed.

Lemma gtb_eqb_false (x y : num) : gtb x y = true -> eqb x y = false.
Proof.
  destruct x as [|[|]|p], y as [|[|]|q]; unfold gtb; simpl; auto; try discriminate.
  rewrite negb_true_iff, Qle_bool_false. intros H.
  apply not_true_iff_false. rewrite Qeq_bool_iff. lra.
Qed.

Lemma gtb_asym (x y : num) : gtb x y = true -> gtb y x = false.
Proof.
  destruct x as [|[|]|p], y as [|[|]|q]; unfold gtb; simpl; auto; try discriminate.
  rewrite negb_true_iff, negb_false_iff, Qle_bool_false, Qle_bool_iff. intros H. lra.
Qed.

(** The comparisons the statements use, read as an order on numbers. *)
Lemma gtb_false_leb (x y : num) :
  isNaN x = false -> isNaN y = false -> gtb x y = false -> leb x y = true.
Proof.
  intros Hx Hy Hg. destruct (order_total x y Hx Hy) as [H|[H|H]].
  - congruence.
  - unfold leb. rewrite H. apply orb_true_r.
  - unfold leb. unfold gtb in H. rewrite H. reflexivity.
Qed.

(** *** The sign of a difference *)




(** *** Time values as numbers *)


Lemma truncate_Z (z : Z) : truncate (inject_Z z) = z.
Proof.
  unfold truncate. destruct (Qle_bool 0 (inject_Z z)).
  - apply Qfloor_Z.
  - apply Qceiling_Z.
Qed.

Lemma of_number_Z (t : Z) : Date.of_number (Fin (inject_Z t)) = Date.TimeClip (Some t).
Proof.
  unfold Date.of_number, Date.TimeClip. rewrite truncate_Z.
  destruct (Z.abs t <=? Date.max_time_value)%Z eqn:E.
  - apply Z.leb_le in E.
    replace (Qle_bool _ _) with true; [reflexivity|].
    symmetry. apply Qle_bool_iff.
    change (Qabs (inject_Z t)) with (inject_Z (Z.abs t)). rewrite <- Zle_Qle. exact E.
  - apply Z.leb_gt in E.
    replace (Qle_bool _ _) with false; [reflexivity|].
    symmetry. apply Qle_bool_false.
    change (Qabs (inject_Z t)) with (inject_Z (Z.abs t)). rewrite <- Zlt_Qlt. exact E.
Qed.

End F64Props.

(** ** Number/time normalizer *)

Module NormalizerProps.
Import JS Regex F64 Num Content Spec.

(** The suffix letter has to follow the number directly or after white
    space: a Cyrillic or Latin k or m, in either case. *)
Lemma parseNumberToken_suffixes :
  map parseNumberToken [js "3к"; js "3 К"; js "3k"; js "3 K"; js "2м"; js "2 M"]
  = [Some (of_Z 3000); Some (of_Z 3000); Some (of_Z 3000); Some (of_Z 3000); Some (of_Z 2000000); Some (of_Z 2000000)].
Proof. vm_compute. reflexivity. Qed.

(** In "3 тыс." the unit after the number is the letter "т": the pattern
    stops before it and no suffix is captured. *)
Lemma number_token_re_tys :
  option_map (fun m => (grp m 1, grp m 2)) (exec number_token_re (js "3 тыс."))
  = Some (Some (js "3 "), None).
Proof. vm_compute. reflexivity. Qed.

(** C4, as stated, fails: the normalizer does not map "3 тыс." to 3000. *)
Lemma parseNumberToken_samples_counterexample :
  ~ (parseNumberToken (js "1,234") = Some (of_Z 1234)
     /\ (parseNumberToken (js "1.234,5") = Some (of_Z 1234)
         \/ parseNumberToken (js "1.234,5") = Some (of_Z 1235))
     /\ parseNumberToken (js "2.5K") = Some (of_Z 2500)
     /\ parseNumberToken (js "3 тыс.") = Some (of_Z 3000)).
Proof.
  intros (_ & _ & _ & Htys).
  vm_compute in Htys. discriminate Htys.
Qed.

(** C4, amended: the normalizer maps "1,234" to 1234, "1.234,5" to 1235
    (halves round up), "2.5K" to 2500 and "3 тыс." to 3; the thousands suffix
    it knows is the single letter, so that "3 к" is 3000. *)
Theorem parseNumberToken_samples :
  parseNumberToken (js "1,234") = Some (of_Z 1234)
  /\ parseNumberToken (js "1.234,5") = Some (of_Z 1235)
  /\ parseNumberToken (js "2.5K") = Some (of_Z 2500)
  /\ parseNumberToken (js "3 тыс.") = Some (of_Z 3)
  /\ parseNumberToken (js "3 к") = Some (of_Z 3000).
Proof. repeat split; vm_compute; reflexivity. Qed.

(** *** Relative time stamps *)

(** Every Latin unit word is found after a count, as itself. *)
Lemma relative_time_re_latin :
  forallb
    (fun u =>
       match exec relative_time_re (js "2 " ++ u) with
       | Some m => bool_decide (grp m 1 = Some (js "2") /\ grp m 2 = Some u)
       | None => false
       end) latin_units = true.
Proof. vm_compute. reflexivity. Qed.

(** No Cyrillic unit word is: the word boundary that closes the pattern
    needs a Latin letter, a digit or an underscore on one side. *)
Lemma relative_time_re_cyrillic :
  forallb
    (fun u =>
       match exec relative_time_re (js "2 " ++ u) with
       | Some _ => false
       | None => true
       end) cyrillic_units = true.
Proof. vm_compute. reflexivity. Qed.

(** A run of digits has no full stop. *)
Lemma split_dot_digits (s : str) (acc n : Z) :
  digits_value acc s = Some n -> split_dot s = (s, None).
Proof.
  revert acc. induction s as [|c s IH]; intros acc Hn; [reflexivity|].
  simpl in *. destruct (is_digit c) eqn:Hc; [|discriminate].
  replace (c =? 46)%N with false.
  - rewrite (IH _ Hn). reflexivity.
  - symmetry. apply N.eqb_neq. intros ->. discriminate Hc.
Qed.

Section WithHost.
Context `{Host}.

(** The relative branch of [parsePublishedIso]: a text that is no absolute
    date, in which the pattern finds a count [n] and a unit of the table,
    count and times small enough for the arithmetic to be exact. *)
Lemma parsePublishedIso_relative (now : Z) (raw : str) (m : match_result) (n step : Z) :
  truthy (cleanText raw) = true ->
  getTime (cleanText raw) = None ->
  exec relative_time_re (cleanText raw) = Some m ->
  digits_value 0 (default [] (grp m 1)) = Some n ->
  default [] (grp m 1) <> [] ->
  0 < n ->
  lookup_offset offsets (toLowerCase (default [] (grp m 2))) = Some step ->
  step <> 0 ->
  Z.abs now <= 2 ^ 53 -> Z.abs step <= 2 ^ 53 -> n <= 2 ^ 53 -> Z.abs (n * step) <= 2 ^ 53 ->
  Z.abs (now - n * step) <= Date.max_time_value ->
  parsePublishedIso now raw = Normal (Some (Date.toISOString (now - n * step))).
Proof.
  intros Ht Hd He Hn Hne Hpos Hstep Hnz Hnow Hst Hn53 Hprod Hrange.
  unfold parsePublishedIso.
  rewrite Ht, Hd, He, Hstep. cbn [negb].
  assert (HN : Number (default [] (grp m 1)) = Fin (inject_Z n)).
  { unfold Number, decimal_value.
    pose proof (split_dot_digits _ _ _ Hn) as Hsplit.
    rewrite Hsplit. destruct (default [] (grp m 1)) as [|c s]; [contradiction|].
    rewrite Hn. simpl. apply F64Props.of_Z_exact. lia. }
  rewrite HN.
  replace (leb (Fin (inject_Z n)) (of_Z 0)) with false.
  - cbn [isFinite negb orb].
    replace (step =? 0) with false by (symmetry; apply Z.eqb_neq; exact Hnz).
    rewrite (F64Props.of_Z_exact now), (F64Props.of_Z_exact step) by assumption.
    rewrite F64Props.mul_Z by assumption.
    rewrite F64Props.sub_Z
      by (unfold Date.max_time_value in Hrange;
          assert (8640000000000000 <= 2 ^ 53) by (vm_compute; discriminate); lia).
    rewrite F64Props.of_number_Z. unfold Date.TimeClip.
    replace (Z.abs (now - n * step) <=? Date.max_time_value) with true
      by (symmetry; apply Z.leb_le; exact Hrange).
    reflexivity.
  - symmetry. rewrite (F64Props.of_Z_exact 0) by (vm_compute; discriminate).
    unfold leb. apply orb_false_iff. split.
    + apply F64Props.ltb_Fin_false. rewrite <- Zle_Qle. lia.
    + apply F64Props.eqb_Fin_false. intros E. unfold Qeq in E. simpl in E. lia.
Qed.

(** The Latin samples of the specification, on a host for which they are no
    absolute dates. *)
Lemma parsePublishedIso_latin_samples (now : Z) :
  Z.abs now <= 8000000000000000 ->
  getTime (js "3h") = None ->
  getTime (js "1 year") = None ->
  parsePublishedIso now (js "3h") = Normal (Some (Date.toISOString (now - 3 * hour_ms)))
  /\ parsePublishedIso now (js "1 year")
     = Normal (Some (Date.toISOString (now - 1 * year_ms))).
Proof.
  intros Hnow H3 H1.
  assert (H53 : 2 ^ 53 = 9007199254740992) by reflexivity.
  split.
  - eapply (parsePublishedIso_relative now (js "3h") _ 3 hour_ms).
    + reflexivity.
    + exact H3.
    + vm_compute. reflexivity.
    + vm_compute. reflexivity.
    + vm_compute. discriminate.
    + lia.
    + vm_compute. reflexivity.
    + discriminate.
    + lia.
    + vm_compute. discriminate.
    + vm_compute. discriminate.
    + vm_compute. discriminate.
    + unfold Date.max_time_value. change (3 * hour_ms) with 10800000. lia.
  - eapply (parsePublishedIso_relative now (js "1 year") _ 1 year_ms).
    + reflexivity.
    + exact H1.
    + vm_compute. reflexivity.
    + vm_compute. reflexivity.
    + vm_compute. discriminate.
    + lia.
    + vm_compute. reflexivity.
    + discriminate.
    + lia.
    + vm_compute. discriminate.
    + vm_compute. discriminate.
    + vm_compute. discriminate.
    + unfold Date.max_time_value. change (1 * year_ms) with 31536000000. lia.
Qed.

(** C5, at an input that breaks it: "2 недели", which is no absolute date,
    is not read as two weeks ago; the result is [null]. *)
Theorem parsePublishedIso_two_weeks_russian (now : Z) :
  Date_parse (js "2 недели") = None ->
  parsePublishedIso now (js "2 недели") = Normal None.
Proof.
  intros Hdate. unfold parsePublishedIso, getTime.
  change (cleanText (js "2 недели")) with (js "2 недели").
  rewrite Hdate. vm_compute. reflexivity.
Qed.

End WithHost.

Lemma parsePublishedIso_two_weeks_russian_witness :
  @Date_parse Demo.bare_host (js "2 недели") = None
  /\ @parsePublishedIso Demo.bare_host 1700000000000 (js "2 недели") = Normal None.
Proof.
  split.
  - reflexivity.
  - apply (@parsePublishedIso_two_weeks_russian Demo.bare_host 1700000000000).
    reflexivity.
Defined.

End NormalizerProps.

(** ** Failure messages of comment generation *)

Module AssistProps.
Import JS Assist.

(** A message that names the status 401 or says "unauthorized", and that
    does not read as a network failure, gets the login text. *)
Lemma setCommentAssistError_login (rawMessage : str) :
  let low := toLowerCase (Content.cleanText rawMessage) in
  includes (js "can't reach backend") low = false ->
  includes (js "failed to fetch") low = false ->
  includes (js "network error") low = false ->
  includes (js "401") low || includes (js "unauthorized") low = true ->
  statusText (setCommentAssistError rawMessage) = msg_login.
Proof.
  intros low Hn1 Hn2 Hn3 Hauth. unfold setCommentAssistError. fold low.
  rewrite Hn1, Hn2, Hn3, Hauth. reflexivity.
Qed.

Lemma setCommentAssistError_login_witness :
  statusText (setCommentAssistError (js "HTTP 401 Unauthorized")) = msg_login.
Proof.
  apply (setCommentAssistError_login (js "HTTP 401 Unauthorized")); vm_compute; reflexivity.
Defined.

(** A 401 response whose body carries no text of its own is reported as
    "Request failed (HTTP 401)" and ends in the login text. *)
Lemma status_after_bare_401 (payload : option error_payload) :
  match payload with
  | Some pl =>
    nonempty_string (detail pl) = None /\ nonempty_string (error pl) = None
    /\ nonempty_string (message pl) = None
  | None => True
  end ->
  statusText (status_after_backend_failure 401 payload) = msg_login.
Proof.
  intros Hpl. unfold status_after_backend_failure, backendRequest_failure,
    toBackendErrorMessage.
  destruct payload as [pl|].
  - destruct Hpl as (-> & -> & ->). vm_compute. reflexivity.
  - vm_compute. reflexivity.
Qed.

Lemma status_after_bare_401_witness :
  statusText (status_after_backend_failure 401 None) = msg_login.
Proof. apply (status_after_bare_401 None). exact I. Defined.

(** C9, at an input that breaks it: a 401 response whose JSON body is
    [{"detail": "Not authenticated"}].  The status code is dropped in favour
    of the detail text, the classifier finds neither "401" nor "unauthorized"
    in it, and the status line shows the raw text in place of the login
    message. *)
Theorem status_after_401_with_detail :
  let payload := Some {| detail := Some (js "Not authenticated");
                         error := None; message := None |} in
  backendRequest_failure 401 payload = js "Not authenticated"
  /\ statusText (status_after_backend_failure 401 payload) = js "Not authenticated"
  /\ statusText (status_after_backend_failure 401 payload) <> msg_login.
Proof.
  cbv zeta. repeat split; try (vm_compute; reflexivity).
  vm_compute. discriminate.
Qed.

End AssistProps.

(** ** Deduplication *)

Module DedupeProps.
Import JS F64 Background Spec.

Lemma str_eqb_true (a b : str) : str_eqb a b = true <-> a = b.
Proof. unfold str_eqb. apply bool_decide_eq_true. Qed.

Lemma str_eqb_false (a b : str) : str_eqb a b = false <-> a <> b.
Proof. unfold str_eqb. apply bool_decide_eq_false. Qed.

(** *** The insertion-ordered map *)

Lemma map_get_None (m : jsmap) (k : str) : map_get m k = None <-> k ∉ m.*1.
Proof.
  induction m as [|[k' v'] m IH]; simpl.
  - split; [intros _; apply not_elem_of_nil | reflexivity].
  - destruct (str_eqb k' k) eqn:E.
    + apply str_eqb_true in E as ->. split; [discriminate|].
      intros Hn. exfalso. apply Hn. left.
    + apply str_eqb_false in E. rewrite IH, not_elem_of_cons.
      split; [intros Hn; split; [congruence | assumption] | intros [_ Hn]; assumption].
Qed.

Lemma map_get_Some_elem (m : jsmap) (k : str) (v : post) :
  map_get m k = Some v -> (k, v) ∈ m.
Proof.
  induction m as [|[k' v'] m IH]; simpl; [discriminate|].
  destruct (str_eqb k' k) eqn:E.
  - apply str_eqb_true in E as ->. intros [= ->]. left.
  - intros Hg. right. auto.
Qed.

Lemma elem_map_get (m : jsmap) (k : str) (v : post) :
  NoDup m.*1 -> (k, v) ∈ m -> map_get m k = Some v.
Proof.
  induction m as [|[k' v'] m IH]; simpl; intros Hnd Hin.
  - inversion Hin.
  - apply NoDup_cons in Hnd as [Hk' Hnd].
    apply elem_of_cons in Hin as [[= -> ->]|Hin].
    + replace (str_eqb k' k') with true by (symmetry; apply str_eqb_true; reflexivity).
      reflexivity.
    + destruct (str_eqb k' k) eqn:E; [|auto].
      apply str_eqb_true in E as ->. exfalso. apply Hk'.
      apply list_elem_of_fmap. exists (k, v). split; [reflexivity | assumption].
Qed.

Lemma map_set_absent (m : jsmap) (k : str) (v : post) :
  k ∉ m.*1 -> map_set m k v = m ++ [(k, v)].
Proof.
  induction m as [|[k' v'] m IH]; simpl; intros Hn; [reflexivity|].
  apply not_elem_of_cons in Hn as [Hne Hn].
  replace (str_eqb k' k) with false
    by (symmetry; apply str_eqb_false; congruence).
  rewrite IH by assumption. reflexivity.
Qed.

Lemma map_set_present_keys (m : jsmap) (k : str) (v : post) :
  k ∈ m.*1 -> (map_set m k v).*1 = m.*1.
Proof.
  induction m as [|[k' v'] m IH]; simpl; intros Hin; [inversion Hin|].
  destruct (str_eqb k' k) eqn:E; [reflexivity|].
  apply str_eqb_false in E. apply elem_of_cons in Hin as [->|Hin]; [congruence|].
  rewrite !fmap_cons. f_equal. apply IH. assumption.
Qed.

Lemma map_set_NoDup (m : jsmap) (k : str) (v : post) :
  NoDup m.*1 -> NoDup (map_set m k v).*1.
Proof.
  intros Hnd. destruct (decide (k ∈ m.*1)) as [Hin|Hn].
  - rewrite map_set_present_keys by assumption. assumption.
  - rewrite map_set_absent by assumption. rewrite fmap_app. simpl.
    apply NoDup_app. split; [assumption|]. split.
    + intros x Hx Hx'. apply list_elem_of_singleton in Hx' as ->. contradiction.
    + apply NoDup_singleton.
Qed.

Lemma map_get_set_eq (m : jsmap) (k : str) (v : post) :
  map_get (map_set m k v) k = Some v.
Proof.
  induction m as [|[k' v'] m IH]; simpl.
  - replace (str_eqb k k) with true by (symmetry; apply str_eqb_true; reflexivity).
    reflexivity.
  - destruct (str_eqb k' k) eqn:E; simpl; rewrite E; [reflexivity | assumption].
Qed.

Lemma map_get_set_ne (m : jsmap) (k k' : str) (v : post) :
  k <> k' -> map_get (map_set m k v) k' = map_get m k'.
Proof.
  intros Hne. induction m as [|[k0 v0] m IH]; simpl.
  - replace (str_eqb k k') with false by (symmetry; apply str_eqb_false; assumption).
    reflexivity.
  - destruct (str_eqb k0 k) eqn:E; simpl.
    + apply str_eqb_true in E as ->.
      replace (str_eqb k k') with false by (symmetry; apply str_eqb_false; assumption).
      reflexivity.
    + rewrite IH. reflexivity.
Qed.

(** *** Order on dates *)

Lemma date_gtb_true (a b : option Z) :
  date_gtb a b = true <-> exists x y, a = Some x /\ b = Some y /\ y < x.
Proof.
  destruct a as [x|], b as [y|]; simpl; split;
    try discriminate; try (intros (? & ? & ? & ? & _); discriminate).
  - intros Hlt. exists x, y. apply Z.ltb_lt in Hlt. auto.
  - intros (x' & y' & [= <-] & [= <-] & Hlt). apply Z.ltb_lt. assumption.
Qed.

Lemma date_gtb_irrefl (a : option Z) : date_gtb a a = false.
Proof. destruct a as [x|]; simpl; [apply Z.ltb_irrefl | reflexivity]. Qed.

Section WithHost.
Context `{Host}.

(** The key of a post is never empty: the test [if (!key) continue] of
    [dedupePosts] never fires. *)
Lemma postIdentityKey_truthy (p : post) : truthy (postIdentityKey p) = true.
Proof.
  unfold postIdentityKey.
  destruct (truthy (or_else _ _)); [reflexivity|].
  destruct (truthy (normalizeUrlForKey _)); reflexivity.
Qed.

Lemma at_least_as_good_refl (p : post) : at_least_as_good p p.
Proof.
  split; [apply F64Props.gtb_irrefl|]. intros _. apply date_gtb_irrefl.
Qed.

(** The candidate that replaces the kept record is at least as good as
    everything the kept record was. *)
Lemma replace_keeps_order (c v p : post) :
  gtb (scorePost c) (scorePost v)
  || (eqb (scorePost c) (scorePost v) && date_gtb (postDateMs c) (postDateMs v)) = true ->
  at_least_as_good v p -> at_least_as_good c p.
Proof.
  intros Hrep [Hle Htie].
  apply orb_true_iff in Hrep as [Hgt|Heq].
  - destruct (F64Props.gtb_not_NaN _ _ Hgt) as [Hc Hv].
    destruct (isNaN (scorePost p)) eqn:Hp.
    { unfold at_least_as_good. destruct (scorePost p); try discriminate.
      split; [unfold gtb; destruct (scorePost c); reflexivity|].
      intros E. discriminate E. }
    assert (Hpc : gtb (scorePost c) (scorePost p) = true).
    { destruct (F64Props.order_total (scorePost v) (scorePost p) Hv Hp) as [H1|[H1|H1]].
      - eapply F64Props.gtb_trans; eassumption.
      - eapply F64Props.gtb_eqb_trans; eassumption.
      - congruence. }
    split.
    + apply F64Props.gtb_asym. exact Hpc.
    + intros E. rewrite F64Props.eqb_sym in E.
      rewrite (F64Props.gtb_eqb_false _ _ Hpc) in E. discriminate E.
  - apply andb_true_iff in Heq as [Heq Hd].
    apply date_gtb_true in Hd as (x & y & Hc & Hv & Hlt). split.
    + destruct (gtb (scorePost p) (scorePost c)) eqn:E; [|reflexivity].
      rewrite (F64Props.gtb_eqb_trans _ _ _ E Heq) in Hle. discriminate Hle.
    + intros Hpc. specialize (Htie (F64Props.eqb_trans _ _ _ Hpc Heq)).
      rewrite Hv in Htie. rewrite Hc.
      destruct (postDateMs p) as [z|]; [|reflexivity].
      simpl in *. apply Z.ltb_ge in Htie. apply Z.ltb_ge. lia.
Qed.

(** The candidate that does not replace the kept record is not better. *)
Lemma keep_is_good (c v : post) :
  gtb (scorePost c) (scorePost v)
  || (eqb (scorePost c) (scorePost v) && date_gtb (postDateMs c) (postDateMs v)) = false ->
  at_least_as_good v c.
Proof.
  intros Hrep. apply orb_false_iff in Hrep as [Hgt Heq].
  split; [assumption|]. intros E. rewrite E in Heq. exact Heq.
Qed.

(** *** The loop invariant of [dedupePosts] *)

Lemma dedupe_inv_nil : dedupe_inv [] [].
Proof.
  split; [apply NoDup_nil_2|]. split.
  - intros k v Hg. discriminate Hg.
  - intros p Hp. inversion Hp.
Qed.

Lemma dedupe_inv_step (m : jsmap) (seen : list post) (c : post) :
  dedupe_inv m seen -> dedupe_inv (dedupe_step m c) (seen ++ [c]).
Proof.
  intros (Hnd & Hval & Hbest). unfold dedupe_step.
  rewrite postIdentityKey_truthy. cbn [negb].
  set (key := postIdentityKey c).
  assert (Hins :
    (forall p, p ∈ seen -> postIdentityKey p = key -> at_least_as_good c p) ->
    dedupe_inv (map_set m key c) (seen ++ [c])).
  { intros Hold. split; [apply map_set_NoDup; assumption|]. split.
    - intros k v Hg. destruct (decide (key = k)) as [<-|Hne].
      + rewrite map_get_set_eq in Hg. injection Hg as <-.
        split; [reflexivity|]. apply elem_of_app. right. left.
      + rewrite map_get_set_ne in Hg by assumption.
        destruct (Hval k v Hg) as [Hk Hin]. split; [assumption|].
        apply elem_of_app. left. assumption.
    - intros p Hp. apply elem_of_app in Hp as [Hp|Hp].
      + destruct (decide (key = postIdentityKey p)) as [Hk|Hne].
        * rewrite <- Hk, map_get_set_eq. exists c. split; [reflexivity|].
          apply Hold; [assumption | symmetry; assumption].
        * rewrite map_get_set_ne by assumption. apply Hbest. assumption.
      + apply list_elem_of_singleton in Hp as ->. fold key.
        rewrite map_get_set_eq. exists c. split; [reflexivity | apply at_least_as_good_refl]. }
  destruct (map_get m key) as [existing|] eqn:Hget.
  - cbv zeta.
    destruct (gtb (scorePost c) (scorePost existing)
              || eqb (scorePost c) (scorePost existing)
                 && date_gtb (postDateMs c) (postDateMs existing)) eqn:Hrep.
    + apply Hins. intros p Hp Hk.
      destruct (Hbest p Hp) as (v & Hv & Hgood). rewrite Hk, Hget in Hv.
      injection Hv as <-. eapply replace_keeps_order; eassumption.
    + split; [assumption|]. split.
      * intros k v Hg. destruct (Hval k v Hg) as [Hk Hin]. split; [assumption|].
        apply elem_of_app. left. assumption.
      * intros p Hp. apply elem_of_app in Hp as [Hp|Hp]; [apply Hbest; assumption|].
        apply list_elem_of_singleton in Hp as ->. fold key. rewrite Hget.
        exists existing. split; [reflexivity | apply keep_is_good; assumption].
  - apply Hins. intros p Hp Hk.
    destruct (Hbest p Hp) as (v & Hv & _). rewrite Hk, Hget in Hv. discriminate Hv.
Qed.

Lemma dedupe_inv_fold (posts : list post) (m : jsmap) (seen : list post) :
  dedupe_inv m seen -> dedupe_inv (fold_left dedupe_step posts m) (seen ++ posts).
Proof.
  revert m seen. induction posts as [|c posts IH]; intros m seen Hinv; simpl.
  - rewrite app_nil_r. assumption.
  - replace (seen ++ c :: posts) with ((seen ++ [c]) ++ posts)
      by (rewrite <- app_assoc; reflexivity).
    apply IH. apply dedupe_inv_step. assumption.
Qed.

Lemma dedupe_inv_final (posts : list post) :
  dedupe_inv (fold_left dedupe_step posts []) posts.
Proof. apply (dedupe_inv_fold posts [] []). apply dedupe_inv_nil. Qed.

(** The keys of the kept records are the keys of the map, in order. *)
Lemma dedupe_keys (m : jsmap) (seen : list post) :
  dedupe_inv m seen -> postIdentityKey <$> map_values m = m.*1.
Proof.
  intros (Hnd & Hval & _). unfold map_values.
  assert (Hall : forall k v, (k, v) ∈ m -> postIdentityKey v = k).
  { intros k v Hin. apply (Hval k v). apply elem_map_get; assumption. }
  clear Hnd Hval. induction m as [|[k v] m IH]; [reflexivity|].
  change (map snd ((k, v) :: m)) with (v :: map snd m).
  rewrite !fmap_cons. cbn [fst]. f_equal.
  - apply Hall. left.
  - apply IH. intros k' v' Hin. apply Hall. right. assumption.
Qed.

Lemma dedupePosts_keys_NoDup (posts : list post) :
  NoDup (postIdentityKey <$> dedupePosts posts).
Proof.
  unfold dedupePosts. rewrite (dedupe_keys _ posts (dedupe_inv_final posts)).
  apply (dedupe_inv_final posts).
Qed.

Lemma dedupePosts_elem (posts : list post) (r : post) :
  r ∈ dedupePosts posts -> r ∈ posts.
Proof.
  unfold dedupePosts, map_values. intros Hin.
  apply list_elem_of_fmap in Hin as ([k v] & -> & Hin).
  destruct (dedupe_inv_final posts) as (Hnd & Hval & _).
  apply (Hval k v). apply elem_map_get; assumption.
Qed.

Lemma dedupePosts_best (posts : list post) (p : post) :
  p ∈ posts ->
  exists r, r ∈ dedupePosts posts /\ postIdentityKey r = postIdentityKey p
            /\ at_least_as_good r p.
Proof.
  intros Hp. destruct (dedupe_inv_final posts) as (Hnd & Hval & Hbest).
  destruct (Hbest p Hp) as (v & Hg & Hgood). exists v. split.
  - unfold dedupePosts, map_values. apply list_elem_of_fmap.
    exists (postIdentityKey p, v). split; [reflexivity|].
    apply map_get_Some_elem. assumption.
  - split; [apply (Hval _ _ Hg) | assumption].
Qed.

(** A list whose keys are pairwise distinct goes through unchanged. *)
Lemma dedupe_fold_distinct (posts : list post) (m : jsmap) :
  NoDup (m.*1 ++ (postIdentityKey <$> posts)) ->
  fold_left dedupe_step posts m = m ++ ((fun p => (postIdentityKey p, p)) <$> posts).
Proof.
  revert m. induction posts as [|c posts IH]; intros m Hnd; simpl.
  - rewrite app_nil_r. reflexivity.
  - rewrite fmap_cons in Hnd.
    assert (Hfresh : postIdentityKey c ∉ m.*1).
    { apply NoDup_app in Hnd as (_ & Hdisj & _). intros Hin.
      apply (Hdisj _ Hin). left. }
    unfold dedupe_step at 2. rewrite postIdentityKey_truthy. cbn [negb].
    replace (map_get m (postIdentityKey c)) with (@None post)
      by (symmetry; apply map_get_None; assumption).
    rewrite map_set_absent by assumption.
    rewrite IH.
    + rewrite <- app_assoc. reflexivity.
    + rewrite fmap_app. simpl. rewrite <- app_assoc. simpl. assumption.
Qed.

Lemma dedupePosts_distinct (posts : list post) :
  NoDup (postIdentityKey <$> posts) -> dedupePosts posts = posts.
Proof.
  intros Hnd. unfold dedupePosts, map_values.
  rewrite dedupe_fold_distinct by (simpl; assumption). simpl.
  induction posts as [|c posts IH]; [reflexivity|].
  rewrite !fmap_cons. simpl. f_equal. apply IH.
  rewrite fmap_cons in Hnd. apply NoDup_cons in Hnd as [_ Hnd]. assumption.
Qed.

End WithHost.

(** *** The score *)

(** A count read by [toNumber] is a number of the format, and not
    negative when the count is not. *)
Lemma toNumber_proper (value : option Z) :
  proper (toNumber id value (of_Z 0)) /\ isFinite (toNumber id value (of_Z 0)) = true.
Proof.
  unfold toNumber. destruct value as [v|].
  - destruct (isFinite (of_Z v)) eqn:E.
    + split; [apply F64Props.of_Z_proper | exact E].
    + split; [apply F64Props.of_Z_proper | reflexivity].
  - split; [apply F64Props.of_Z_proper | reflexivity].
Qed.

Lemma toNumber_nonnegative (value : option Z) :
  match value with Some n => 0 <= n | None => True end ->
  exists q, toNumber id value (of_Z 0) = Fin q /\ (0 <= q)%Q.
Proof.
  intros Hv.
  assert (H0 : exists q, of_Z 0 = Fin q /\ (0 <= q)%Q)
    by (exists 0%Q; split; [reflexivity | apply Qle_refl]).
  unfold toNumber. destruct value as [v|]; [|exact H0].
  destruct (isFinite (of_Z v)) eqn:E; [|exact H0].
  pose proof (F64Props.round_nonnegative (inject_Z v)) as Hn.
  fold (of_Z v) in Hn. destruct (of_Z v) as [| |q]; try discriminate.
  exists q. split; [reflexivity|]. apply Hn.
  change 0%Q with (inject_Z 0). rewrite <- Zle_Qle. exact Hv.
Qed.

Lemma toNumber_exact (value : option Z) (bound : Z) :
  match value with Some n => 0 <= n <= bound | None => True end -> bound <= 2 ^ 53 ->
  toNumber id value (of_Z 0) = Fin (inject_Z (default 0 value)).
Proof.
  intros Hv Hb. unfold toNumber. destruct value as [v|]; [|reflexivity].
  rewrite F64Props.of_Z_exact by lia. reflexivity.
Qed.


(** With counts that are not negative the score is a number: [NaN] needs
    infinite terms of both signs. *)
Lemma scorePost_not_NaN (p : post) (bound : Z) :
  counts_within bound p -> isNaN (scorePost p) = false.
Proof.
  intros Hc. apply F64Props.nonnegative_not_NaN.
  unfold counts_within in Hc.
  repeat match goal with
         | H : Forall _ (_ :: _) |- _ => apply Forall_cons in H as [? H]
         end.
  assert (Hre : match coalesce (reactions_count p) (likes_count p) with
                | Some n => 0 <= n | None => True end).
  { unfold coalesce. destruct (reactions_count p) as [n|].
    - lia.
    - destruct (likes_count p); [lia | exact I]. }
  unfold scorePost.
  destruct (toNumber_nonnegative _ Hre) as (r & -> & Hr).
  destruct (toNumber_nonnegative (comments_count p)) as (c & -> & Hcq);
    [destruct (comments_count p); [lia | exact I]|].
  destruct (toNumber_nonnegative (reposts_count p)) as (s & -> & Hs);
    [destruct (reposts_count p); [lia | exact I]|].
  destruct (toNumber_nonnegative (views_count p)) as (v & -> & Hvq);
    [destruct (views_count p); [lia | exact I]|].
  assert (Hthree : exists q3, of_Z 3 = Fin q3 /\ (0 <= q3)%Q)
    by (eexists; split; [reflexivity | vm_compute; discriminate]).
  assert (Htwo : exists q2, of_Z 2 = Fin q2 /\ (0 <= q2)%Q)
    by (eexists; split; [reflexivity | vm_compute; discriminate]).
  assert (Hk : exists k, round (2 # 100) = Fin k /\ (0 <= k)%Q)
    by (eexists; split; [reflexivity | vm_compute; discriminate]).
  destruct Hthree as (q3 & -> & Hq3), Htwo as (q2 & -> & Hq2), Hk as (k & -> & Hk).
  repeat apply F64Props.add_nonnegative;
    try (apply F64Props.mul_Fin_nonnegative; assumption).
  exact Hr.
Qed.

(** Where no views are counted and the counts are not negative and below
    [2^50], the score is the value of the formula. *)
Lemma scorePost_exact (p : post) :
  counts_within (2 ^ 50) p ->
  match views_count p with Some n => n = 0 | None => True end ->
  scorePost p = Fin (Qred (formula_score p)).
Proof.
  intros Hc Hviews. unfold counts_within in Hc.
  repeat match goal with
         | H : Forall _ (_ :: _) |- _ => apply Forall_cons in H as [? H]
         end.
  assert (H50 : 2 ^ 50 = 1125899906842624) by reflexivity.
  assert (H53 : 2 ^ 53 = 9007199254740992) by reflexivity.
  assert (Hre : match coalesce (reactions_count p) (likes_count p) with
                | Some n => 0 <= n <= 2 ^ 50 | None => True end).
  { unfold coalesce. destruct (reactions_count p) as [n|].
    - lia.
    - destruct (likes_count p); [lia | exact I]. }
  unfold scorePost, formula_score, count_or_zero.
  rewrite (toNumber_exact _ (2 ^ 50) Hre) by lia.
  rewrite (toNumber_exact (comments_count p) (2 ^ 50)) by (try assumption; lia).
  rewrite (toNumber_exact (reposts_count p) (2 ^ 50)) by (try assumption; lia).
  rewrite (toNumber_exact (views_count p) (2 ^ 50)) by (try assumption; lia).
  set (r := default 0 (coalesce (reactions_count p) (likes_count p))).
  set (c := default 0 (comments_count p)).
  set (s := default 0 (reposts_count p)).
  assert (Hr : 0 <= r <= 2 ^ 50)
    by (unfold r; destruct (coalesce _ _); simpl in *; lia).
  assert (Hcc : 0 <= c <= 2 ^ 50)
    by (unfold c; destruct (comments_count p); simpl in *; lia).
  assert (Hs : 0 <= s <= 2 ^ 50)
    by (unfold s; destruct (reposts_count p); simpl in *; lia).
  assert (Hv : default 0 (views_count p) = 0)
    by (destruct (views_count p); simpl in *; [assumption | reflexivity]).
  rewrite Hv.
  rewrite (F64Props.of_Z_exact 3), (F64Props.of_Z_exact 2) by lia.
  rewrite !F64Props.mul_Z by lia.
  rewrite !F64Props.add_Z by lia.
  assert (E0 : mul (Fin (inject_Z 0)) (round (2 # 100)) = Fin (inject_Z 0))
    by reflexivity.
  rewrite E0, F64Props.add_Z by lia.
  f_equal. rewrite <- F64Props.Qred_inject_Z. apply Qred_complete.
  rewrite !inject_Z_plus, !inject_Z_mult. simpl. ring.
Qed.

(** The two-record form: of two captures under one key, the second
    replaces the first exactly when its score is higher, or equal with a
    later date. *)
Lemma dedupePosts_pair `{Host} (a b : post) :
  postIdentityKey a = postIdentityKey b ->
  dedupePosts [a; b] =
  [if gtb (scorePost b) (scorePost a)
      || (eqb (scorePost b) (scorePost a) && date_gtb (postDateMs b) (postDateMs a))
   then b else a].
Proof.
  intros Hk. unfold dedupePosts. simpl. unfold dedupe_step at 2.
  rewrite postIdentityKey_truthy. simpl.
  unfold dedupe_step. rewrite postIdentityKey_truthy. simpl.
  rewrite <- Hk.
  replace (str_eqb (postIdentityKey a) (postIdentityKey a)) with true
    by (symmetry; apply str_eqb_true; reflexivity).
  destruct (_ || _); simpl.
  - replace (str_eqb (postIdentityKey a) (postIdentityKey a)) with true
      by (symmetry; apply str_eqb_true; reflexivity).
    reflexivity.
  - reflexivity.
Qed.

(** C1, as stated, fails, in two ways.  The score is computed in binary64:
    four reactions and one view give 4.02, 201 views give
    4.0200000000000005, and the capture with 201 views replaces the other,
    which by the formula scores the same and is the more recent.  And a
    record without date is neither replaced by nor replaces a record of the
    same score: the undated capture seen first is kept, not the dated
    one. *)
Lemma dedupePosts_formula_counterexample :
  (@dedupePosts Demo.digit_host [Demo.viewed_later; Demo.viewed_earlier]
   = [Demo.viewed_earlier]
   /\ (formula_score Demo.viewed_later == formula_score Demo.viewed_earlier)%Q
   /\ @postDateMs Demo.digit_host Demo.viewed_later = Some 7
   /\ @postDateMs Demo.digit_host Demo.viewed_earlier = Some 5
   /\ ~ @keeps_best_by_formula Demo.digit_host [Demo.viewed_later; Demo.viewed_earlier])
  /\ (@dedupePosts Demo.digit_host [Demo.undated_first; Demo.dated_second]
      = [Demo.undated_first]
      /\ ~ @keeps_best_by_formula Demo.digit_host [Demo.undated_first; Demo.dated_second]).
Proof.
  assert (E1 : @dedupePosts Demo.digit_host [Demo.viewed_later; Demo.viewed_earlier]
               = [Demo.viewed_earlier]) by (vm_compute; reflexivity).
  assert (E2 : @dedupePosts Demo.digit_host [Demo.undated_first; Demo.dated_second]
               = [Demo.undated_first]) by (vm_compute; reflexivity).
  split; [split; [exact E1 | split; [reflexivity | split; [reflexivity | split;
    [reflexivity|]]]] | split; [exact E2|]].
  - intros Hclaim.
    destruct (Hclaim Demo.viewed_later (list_elem_of_here _ _)) as (r & Hr & _ & _ & Htie).
    rewrite E1 in Hr. apply list_elem_of_singleton in Hr as ->.
    specialize (Htie ltac:(reflexivity)). vm_compute in Htie. apply Htie. reflexivity.
  - intros Hclaim.
    destruct (Hclaim Demo.dated_second) as (r & Hr & _ & _ & Htie);
      [right; left|].
    rewrite E2 in Hr. apply list_elem_of_singleton in Hr as ->.
    specialize (Htie ltac:(reflexivity)). vm_compute in Htie. exact Htie.
Qed.

(** C1, amended: [dedupePosts] groups the records by identity key (each key
    of the input is kept once), and the record it keeps for a key is an
    input record of that key whose score, computed in binary64 as
    [reactions + comments*3 + reposts*2 + views*0.02] with absent counts as
    0, no record of the key exceeds, and whose date no record of the key
    with the same score exceeds, in the comparisons of the source: a record
    replaces the kept one on a greater score, or on the same score and a
    later date, both dates being valid.  With counts that are not negative
    the scores are numbers and the kept score is the greatest; without views
    and with counts below [2^50] the score is the formula's value. *)
Theorem dedupePosts_keeps_best `{Host} (posts : list post) :
  NoDup (postIdentityKey <$> dedupePosts posts)
  /\ (forall r, r ∈ dedupePosts posts -> r ∈ posts)
  /\ (forall p, p ∈ posts ->
        exists r, r ∈ dedupePosts posts
                  /\ postIdentityKey r = postIdentityKey p
                  /\ gtb (scorePost p) (scorePost r) = false
                  /\ (eqb (scorePost p) (scorePost r) = true ->
                      date_gtb (postDateMs p) (postDateMs r) = false)
                  /\ (forall bound, counts_within bound p -> counts_within bound r ->
                      leb (scorePost p) (scorePost r) = true))
  /\ (forall a b, postIdentityKey a = postIdentityKey b ->
        dedupePosts [a; b]
        = [if gtb (scorePost b) (scorePost a)
              || (eqb (scorePost b) (scorePost a)
                  && date_gtb (postDateMs b) (postDateMs a))
           then b else a])
  /\ (forall p,
        scorePost p
        = add (add (add (toNumber id (coalesce (reactions_count p) (likes_count p)) (of_Z 0))
                        (mul (toNumber id (comments_count p) (of_Z 0)) (of_Z 3)))
                   (mul (toNumber id (reposts_count p) (of_Z 0)) (of_Z 2)))
              (mul (toNumber id (views_count p) (of_Z 0)) (round (2 # 100))))
  /\ (forall p, counts_within (2 ^ 50) p ->
        match views_count p with Some n => n = 0 | None => True end ->
        scorePost p = Fin (Qred (formula_score p))).
Proof.
  split; [apply dedupePosts_keys_NoDup|].
  split; [apply dedupePosts_elem|].
  split; [|split; [apply dedupePosts_pair | split; [reflexivity | apply scorePost_exact]]].
  intros p Hp. destruct (dedupePosts_best posts p Hp) as (r & Hr & Hk & Hle & Htie).
  exists r. repeat split; auto.
  intros bound Hcp Hcr. apply F64Props.gtb_false_leb; try assumption.
  - apply (scorePost_not_NaN p bound Hcp).
  - apply (scorePost_not_NaN r bound Hcr).
Qed.

(** C10, as stated, fails: the record that replaces an earlier capture takes
    the earlier capture's place, ahead of records that came before it in the
    input; the output need not be a sublist of the input. *)
Lemma dedupePosts_sublist_counterexample :
  let input := [Demo.post_a; Demo.post_b; Demo.post_c] in
  @dedupePosts Demo.digit_host input = [Demo.post_c; Demo.post_b]
  /\ ~ sublist (@dedupePosts Demo.digit_host input) input.
Proof.
  cbv zeta.
  assert (E : @dedupePosts Demo.digit_host [Demo.post_a; Demo.post_b; Demo.post_c]
              = [Demo.post_c; Demo.post_b]) by (vm_compute; reflexivity).
  split; [exact E|]. rewrite E. intros Hs.
  apply sublist_cons_l in Hs as (k1 & k2 & Hk & Hs).
  destruct k1 as [|x1 [|x2 [|x3 k1]]].
  - apply (f_equal head) in Hk. vm_compute in Hk. discriminate Hk.
  - apply (f_equal (fun l => l !! 1%nat)) in Hk. vm_compute in Hk. discriminate Hk.
  - simpl in Hk.
    assert (k2 = []) as -> by (destruct k2; [reflexivity | discriminate Hk]).
    apply sublist_nil_r in Hs. discriminate Hs.
  - apply (f_equal length) in Hk. rewrite !length_app in Hk. simpl in Hk. lia.
Qed.

(** C10, amended: the output of [dedupePosts] is made of input records,
    none taken more often than the input has it (a sublist up to order), its
    identity keys are pairwise distinct, and [dedupePosts] applied to its own
    output returns that output unchanged. *)
Theorem dedupePosts_idempotent `{Host} (posts : list post) :
  dedupePosts posts ⊆+ posts
  /\ NoDup (postIdentityKey <$> dedupePosts posts)
  /\ dedupePosts (dedupePosts posts) = dedupePosts posts.
Proof.
  pose proof (dedupePosts_keys_NoDup posts) as Hnd.
  split; [|split; [assumption|]].
  - apply NoDup_submseteq.
    + eapply NoDup_fmap_1. eassumption.
    + intros r. apply dedupePosts_elem.
  - apply dedupePosts_distinct. assumption.
Qed.

End DedupeProps.

(** ** Ranking of the best posts *)

Module RankingProps.
Import JS F64 Background Spec.

(** *** The stable sort *)

Section Sort.
Context {A : Type} (cmp : A -> A -> num) (P : A -> Prop).

Let R (x y : A) : Prop := stays_before (cmp x y) = true.

(** The comparator is consistent on the elements that satisfy [P]. *)
Hypothesis R_total : forall x y, P x -> P y -> R x y \/ R y x.
Hypothesis R_trans : forall x y z, P x -> P y -> P z -> R x y -> R y z -> R x z.





End Sort.

(** *** The comparator *)





(** *** The cut-off of the window *)


(** *** The two ranking arrays *)

Section WithHost.
Context `{Host}.












End WithHost.


End RankingProps.

(** ** Identity keys *)

Module IdentityProps.
Import JS Regex Background Spec.

Lemma truthy_true (s : str) : truthy s = true <-> s <> [].
Proof. destruct s; simpl; split; congruence. Qed.

Lemma truthy_false (s : str) : truthy s = false <-> s = [].
Proof. destruct s; simpl; split; congruence. Qed.

(** *** Activity ids *)

(** [extractActivityId] through its patterns: the first marker, in the order
    of the patterns, that introduces an id anywhere in the text decides, and
    the id is the one it introduces first. *)
Lemma first_group_match_reference (markers : list str) (s : str) :
  first_group_match (activity_pattern <$> markers) s = first_reference markers s.
Proof.
  induction markers as [|m ms IH]; [reflexivity|].
  rewrite fmap_cons. cbn [first_group_match first_reference]. unfold exec.
  pose proof (RegexProps.search_activity_reference m s None) as Hs.
  destruct (search_from (activity_pattern m) None s) as [res|];
    destruct (leftmost_reference m s) as [id|] eqn:Hl; simpl in Hs; try discriminate.
  - injection Hs as ->.
    destruct (RegexProps.leftmost_reference_at _ _ _ Hl) as (k & _ & Hr).
    destruct (RegexProps.reference_at_length _ _ _ Hr) as [Hlen _].
    destruct id as [|c g]; [simpl in Hlen; lia | reflexivity].
  - exact IH.
Qed.

Lemma extractActivityId_reference (raw : str) :
  extractActivityId raw = first_reference activity_markers raw.
Proof. apply first_group_match_reference. Qed.

Lemma first_reference_found (markers : list str) (s : str) :
  first_reference markers s <> [] ->
  exists m k, m ∈ markers /\ (k <= length s)%nat
              /\ reference_at m (drop k s) = Some (first_reference markers s).
Proof.
  induction markers as [|m ms IH]; cbn [first_reference]; [contradiction|].
  destruct (leftmost_reference m s) as [id|] eqn:Hl.
  - intros _. destruct (RegexProps.leftmost_reference_at _ _ _ Hl) as (k & Hk & Hr).
    exists m, k. split; [left | auto].
  - intros Hne. destruct (IH Hne) as (m' & k & Hm & Hk & Hr).
    exists m', k. split; [right; exact Hm | auto].
Qed.

Lemma first_reference_none (markers : list str) (s : str) :
  first_reference markers s = [] ->
  forall m k, m ∈ markers -> reference_at m (drop k s) = None.
Proof.
  induction markers as [|m ms IH]; cbn [first_reference]; intros He m' k Hm.
  - inversion Hm.
  - destruct (leftmost_reference m s) as [id|] eqn:Hl.
    + exfalso. subst id.
      destruct (RegexProps.leftmost_reference_at _ _ _ Hl) as (k' & _ & Hr).
      destruct (RegexProps.reference_at_length _ _ _ Hr) as [Hlen _].
      simpl in Hlen. lia.
    + apply elem_of_cons in Hm as [->|Hm].
      * apply RegexProps.leftmost_reference_none. exact Hl.
      * apply IH; assumption.
Qed.

Lemma references_elem (s id : str) :
  id ∈ references s
  <-> exists m k, m ∈ activity_markers /\ (k <= length s)%nat
                  /\ reference_at m (drop k s) = Some id.
Proof.
  unfold references. rewrite list_elem_of_In, in_flat_map. split.
  - intros (k & Hk & Hin). apply in_seq in Hk.
    apply list_elem_of_In, list_elem_of_omap in Hin as (m & Hm & Hr).
    exists m, k. split; [exact Hm|]. split; [lia | exact Hr].
  - intros (m & k & Hm & Hk & Hr). exists k. split; [apply in_seq; lia|].
    apply list_elem_of_In, list_elem_of_omap. exists m. auto.
Qed.

(** A text that holds one activity id, in whatever shapes and wherever,
    yields that id. *)
Lemma extractActivityId_refers (s id : str) :
  refers_only_to s id = true -> extractActivityId s = id /\ id <> [].
Proof.
  unfold refers_only_to. intros Href.
  destruct (references s) as [|id0 ids] eqn:Hrefs; [discriminate|].
  assert (Hall : forall x, x ∈ references s -> x = id).
  { intros x Hx. rewrite Hrefs in Hx. rewrite forallb_forall in Href.
    apply list_elem_of_In in Hx. specialize (Href x Hx).
    apply bool_decide_eq_true in Href. congruence. }
  assert (Hin0 : id0 ∈ references s) by (rewrite Hrefs; left).
  rewrite extractActivityId_reference.
  destruct (first_reference activity_markers s) as [|c g] eqn:Hf.
  - exfalso. apply references_elem in Hin0 as (m & k & Hm & _ & Hr).
    rewrite (first_reference_none _ _ Hf m k Hm) in Hr. discriminate.
  - assert (Hne : first_reference activity_markers s <> []) by (rewrite Hf; discriminate).
    destruct (first_reference_found _ _ Hne) as (m & k & Hm & Hk & Hr).
    rewrite Hf in Hr.
    assert (E : c :: g = id) by (apply Hall, references_elem; eauto).
    split; [exact E | rewrite <- E; discriminate].
Qed.

(** *** Normalized URLs *)

Lemma strip_leading_spaces_idemp (s : str) :
  URL.strip_leading_spaces (URL.strip_leading_spaces s) = URL.strip_leading_spaces s.
Proof.
  induction s as [|c s IH]; [reflexivity|]. simpl.
  destruct (c =? 32)%N eqn:E; [exact IH|]. simpl. rewrite E. reflexivity.
Qed.

Lemma strip_trailing_spaces_idemp (s : str) :
  URL.strip_trailing_spaces (URL.strip_trailing_spaces s) = URL.strip_trailing_spaces s.
Proof.
  unfold URL.strip_trailing_spaces. rewrite rev_involutive, strip_leading_spaces_idemp.
  reflexivity.
Qed.

(** With [search] and [hash] emptied, the serialization of a URL is its
    scheme, authority and path. *)
Lemma serialize_cleared (u : URL.url) :
  URL.serialize (URL.clear_hash (URL.clear_search u)) = location u.
Proof.
  destruct u as [sch usr pwd hst prt pth qry frg].
  unfold URL.clear_hash, URL.clear_search, URL.strip_opaque_path, location, URL.serialize,
    URL.serialize_authority.
  destruct pth as [s|l], frg as [f|]; cbn; rewrite ?strip_trailing_spaces_idemp,
    ?app_nil_r; reflexivity.
Qed.

Lemma location_same (u1 u2 : URL.url) : same_location u1 u2 -> location u1 = location u2.
Proof.
  unfold same_location. intros E.
  change (location (URL.with_fragment (URL.with_query u1 None) None)
          = location (URL.with_fragment (URL.with_query u2 None) None)).
  rewrite E. reflexivity.
Qed.

Lemma last_rev (s : str) : last (rev s) = head s.
Proof.
  destruct s as [|c s]; [reflexivity|]. simpl. apply last_snoc.
Qed.

Lemma strip_trailing_slashes_spec (s : str) :
  without_trailing_slashes (strip_trailing_slashes s) s.
Proof.
  unfold without_trailing_slashes, strip_trailing_slashes.
  set (go := fix go (l : str) : str :=
               match l with
               | c :: l' => if (c =? 47)%N then go l' else l
               | [] => []
               end).
  assert (Hgo : forall l, head (go l) <> Some 47%N
                          /\ exists n, l = repeat 47%N n ++ go l).
  { induction l as [|c l [IH1 (n & IH2)]]; [split; [discriminate | exists 0%nat; reflexivity]|].
    simpl. destruct (c =? 47)%N eqn:E.
    - apply N.eqb_eq in E as ->. split; [exact IH1|]. exists (S n). simpl. f_equal. exact IH2.
    - apply N.eqb_neq in E. split; [simpl; congruence | exists 0%nat; reflexivity]. }
  destruct (Hgo (rev s)) as [H1 (n & H2)]. split.
  - rewrite last_rev. exact H1.
  - exists n. rewrite <- (rev_involutive s) at 1. rewrite H2 at 1.
    rewrite rev_app_distr, rev_repeat. reflexivity.
Qed.

(** *** Days *)

Lemma all_from_spec (n : positive) (f : Z -> bool) (base : Z) :
  all_from n f base = true -> forall z, (base <= z < base + Z.pos n)%Z -> f z = true.
Proof.
  revert base. induction n as [n IH|n IH|]; intros base Hall z Hz; cbn [all_from] in Hall.
  - apply andb_true_iff in Hall as [Hall H3]. apply andb_true_iff in Hall as [H1 H2].
    destruct (Z_lt_le_dec z (base + Z.pos n)) as [Hlt|Hge]; [apply (IH base H1); lia|].
    destruct (Z_lt_le_dec z (base + Z.pos n~0)) as [Hlt|Hge'].
    + apply (IH _ H2). lia.
    + replace z with (base + Z.pos n~0)%Z by lia. exact H3.
  - apply andb_true_iff in Hall as [H1 H2].
    destruct (Z_lt_le_dec z (base + Z.pos n)) as [Hlt|Hge]; [apply (IH base H1); lia|].
    apply (IH _ H2). lia.
  - replace z with base by lia. exact Hall.
Qed.

Lemma era_days_ok (doe : Z) : (0 <= doe < 146097)%Z -> era_day_ok doe = true.
Proof.
  apply (all_from_spec 146097 era_day_ok 0). vm_compute. reflexivity.
Qed.

(** [Date.civil_from_days], read era by era. *)
Lemma civil_from_days_era (z : Z) :
  let era := (z + 719468) / 146097 in
  let doe := z + 719468 - era * 146097 in
  Date.civil_from_days z
  = let '(yoe, m, d) := civil_of_era_day doe in
    (if m <=? 2 then yoe + era * 400 + 1 else yoe + era * 400, m, d).
Proof. reflexivity. Qed.

Lemma era_day_range (z : Z) :
  let era := (z + 719468) / 146097 in
  0 <= z + 719468 - era * 146097 < 146097.
Proof.
  intros era. unfold era.
  pose proof (Z.div_mod (z + 719468) 146097 ltac:(lia)) as Hdm.
  pose proof (Z.mod_pos_bound (z + 719468) 146097 ltac:(lia)) as Hb. lia.
Qed.

(** The calendar date determines the day. *)
Lemma days_from_civil_inverse (z : Z) :
  let '(y, m, d) := Date.civil_from_days z in days_from_civil y m d = z.
Proof.
  rewrite civil_from_days_era. cbv zeta.
  set (era := (z + 719468) / 146097). set (doe := z + 719468 - era * 146097).
  pose proof (era_days_ok doe (era_day_range z)) as Hok.
  unfold era_day_ok in Hok. destruct (civil_of_era_day doe) as [[yoe m] d].
  repeat (apply andb_true_iff in Hok as [Hok ?]).
  repeat match goal with
         | H : (_ <=? _) = true |- _ => apply Z.leb_le in H
         | H : (_ =? _) = true |- _ => apply Z.eqb_eq in H
         end.
  unfold days_from_civil.
  assert (Hy : (if m <=? 2
                then (if m <=? 2 then yoe + era * 400 + 1 else yoe + era * 400) - 1
                else (if m <=? 2 then yoe + era * 400 + 1 else yoe + era * 400))
               = yoe + era * 400) by (destruct (m <=? 2); lia).
  rewrite Hy.
  assert (He : (yoe + era * 400) / 400 = era).
  { symmetry. apply (Z.div_unique _ 400 era yoe); lia. }
  rewrite He.
  replace (yoe + era * 400 - era * 400) with yoe by lia.
  unfold doe in *. lia.
Qed.

Lemma civil_from_days_inj (z1 z2 : Z) :
  Date.civil_from_days z1 = Date.civil_from_days z2 -> z1 = z2.
Proof.
  intros E. pose proof (days_from_civil_inverse z1) as H1.
  pose proof (days_from_civil_inverse z2) as H2. rewrite E in H1.
  destruct (Date.civil_from_days z2) as [[y m] d]. congruence.
Qed.

(** The dates of the days of the years 0 to 9999. *)
Lemma civil_from_days_range (z : Z) :
  four_digit_day z ->
  let '(y, m, d) := Date.civil_from_days z in
  0 <= y <= 9999 /\ 1 <= m <= 12 /\ 1 <= d <= 31.
Proof.
  intros Hz. pose proof Hz as [Hlo Hhi]. rewrite civil_from_days_era. cbv zeta.
  set (era := (z + 719468) / 146097). set (doe := z + 719468 - era * 146097).
  pose proof (era_day_range z) as Hdoe. cbv zeta in Hdoe. fold era doe in Hdoe.
  pose proof (era_days_ok doe Hdoe) as Hok.
  unfold era_day_ok in Hok. destruct (civil_of_era_day doe) as [[yoe m] d].
  repeat (apply andb_true_iff in Hok as [Hok ?]).
  repeat match goal with
         | H : (_ <=? _) = true |- _ => apply Z.leb_le in H
         | H : (_ =? _) = true |- _ => apply Z.eqb_eq in H
         end.
  match goal with H : Bool.eqb _ _ = true |- _ => apply Bool.eqb_prop in H; rename H into Hlast end.
  assert (Hera : -1 <= era < 25) by (unfold four_digit_day in *; unfold era; split;
    [apply Z.div_le_lower_bound; lia | apply Z.div_lt_upper_bound; lia]).
  split; [|lia].
  destruct (146037 <=? doe) eqn:Hd.
  - apply andb_true_iff in Hlast as [Hy Hm].
    apply Z.eqb_eq in Hy. rewrite Hm.
    apply Z.leb_le in Hd. unfold doe in *. lia.
  - apply Z.leb_gt in Hd.
    assert (Hera' : 0 <= era) by (unfold doe in *; lia).
    destruct (m <=? 2) eqn:Hm.
    + assert (Hy : yoe <> 399).
      { intros ->. rewrite Z.eqb_refl in Hlast. discriminate Hlast. }
      lia.
    + lia.
Qed.

Lemma digit_inj (a b : Z) : Date.digit a = Date.digit b -> a mod 10 = b mod 10.
Proof.
  unfold Date.digit. intros E.
  pose proof (Z.mod_pos_bound a 10 ltac:(lia)).
  pose proof (Z.mod_pos_bound b 10 ltac:(lia)).
  apply Z2N.inj in E; lia.
Qed.

Lemma pad2_inj (a b : Z) : 0 <= a <= 99 -> 0 <= b <= 99 -> Date.pad2 a = Date.pad2 b -> a = b.
Proof.
  intros Ha Hb E. unfold Date.pad2 in E. injection E as E1 E2.
  apply digit_inj in E1, E2.
  pose proof (Z.div_mod a 10 ltac:(lia)). pose proof (Z.div_mod b 10 ltac:(lia)).
  assert ((a / 10) mod 10 = a / 10) by (apply Z.mod_small; split;
    [apply Z.div_pos; lia | apply Z.div_lt_upper_bound; lia]).
  assert ((b / 10) mod 10 = b / 10) by (apply Z.mod_small; split;
    [apply Z.div_pos; lia | apply Z.div_lt_upper_bound; lia]).
  lia.
Qed.

Lemma pad4_inj (a b : Z) :
  0 <= a <= 9999 -> 0 <= b <= 9999 -> Date.pad4 a = Date.pad4 b -> a = b.
Proof.
  intros Ha Hb E. unfold Date.pad4 in E. injection E as E1 E2 E3 E4.
  apply digit_inj in E1, E2, E3, E4.
  assert (Hdigits : forall n, 0 <= n <= 9999 ->
            n = 1000 * ((n / 1000) mod 10) + 100 * ((n / 100) mod 10)
                + 10 * ((n / 10) mod 10) + n mod 10).
  { intros n Hn.
    pose proof (Z.div_mod n 10 ltac:(lia)).
    pose proof (Z.div_mod (n / 10) 10 ltac:(lia)).
    pose proof (Z.div_mod (n / 10 / 10) 10 ltac:(lia)).
    rewrite (Z.div_div n 10 10) in * by lia.
    pose proof (Z.div_div n 100 10 ltac:(lia) ltac:(lia)) as H1000.
    change (100 * 10) with 1000 in H1000. change (10 * 10) with 100 in *.
    rewrite H1000 in *.
    assert ((n / 1000) mod 10 = n / 1000) by (apply Z.mod_small; split;
      [apply Z.div_pos; lia | apply Z.div_lt_upper_bound; lia]).
    lia. }
  rewrite (Hdigits a Ha), (Hdigits b Hb). lia.
Qed.

(** Within the years 0 to 9999 the day string tells the day. *)
Lemma day_string_inj (d1 d2 : Z) :
  four_digit_day d1 -> four_digit_day d2 -> day_string d1 = day_string d2 -> d1 = d2.
Proof.
  intros H1 H2 E. apply civil_from_days_inj.
  pose proof (civil_from_days_range d1 H1) as R1.
  pose proof (civil_from_days_range d2 H2) as R2.
  unfold day_string in E.
  destruct (Date.civil_from_days d1) as [[y1 m1] dd1].
  destruct (Date.civil_from_days d2) as [[y2 m2] dd2].
  destruct R1 as (Hy1 & Hm1 & Hd1), R2 as (Hy2 & Hm2 & Hd2).
  unfold Date.pad4, Date.pad2 in E. simpl in E.
  injection E as e1 e2 e3 e4 e5 e6 e7 e8.
  assert (y1 = y2) by (apply pad4_inj; [lia | lia | unfold Date.pad4; congruence]).
  assert (m1 = m2) by (apply pad2_inj; [lia | lia | unfold Date.pad2; congruence]).
  assert (dd1 = dd2) by (apply pad2_inj; [lia | lia | unfold Date.pad2; congruence]).
  congruence.
Qed.

Lemma utc_day_range (t : Z) : four_digit_year t = true -> four_digit_day (utc_day t).
Proof.
  unfold four_digit_year, four_digit_day, utc_day, Date.ms_per_day. intros H.
  apply andb_true_iff in H as [Hlo Hhi]. apply Z.leb_le in Hlo, Hhi. split.
  - apply Z.div_le_lower_bound; lia.
  - assert (t / 86400000 < 2932897) by (apply Z.div_lt_upper_bound; lia). lia.
Qed.

(** The first ten units of the ISO string of a time of the years 0 to 9999
    are the day string of its UTC day. *)
Lemma toISOString_day (t : Z) :
  four_digit_year t = true -> slice 0 10 (Date.toISOString t) = day_string (utc_day t).
Proof.
  intros Ht. pose proof (civil_from_days_range _ (utc_day_range t Ht)) as Hr.
  unfold Date.toISOString, day_string, utc_day in *.
  destruct (Date.civil_from_days (t / Date.ms_per_day)) as [[y m] d].
  destruct Hr as (Hy & _). unfold Date.iso_year.
  replace ((0 <=? y) && (y <=? 9999)) with true
    by (symmetry; apply andb_true_iff; split; apply Z.leb_le; lia).
  reflexivity.
Qed.

(** No unit of an ISO string is the separator of the text key. *)
Lemma digit_not_bar (n : Z) : Date.digit n <> 124%N.
Proof.
  unfold Date.digit. pose proof (Z.mod_pos_bound n 10 ltac:(lia)). lia.
Qed.

Lemma toISOString_no_bar (t : Z) : Forall (fun c => c <> 124%N) (Date.toISOString t).
Proof.
  unfold Date.toISOString. destruct (Date.civil_from_days _) as [[y m] d].
  unfold Date.iso_year.
  destruct ((0 <=? y) && (y <=? 9999)); [|destruct (y <? 0)];
    unfold Date.pad2, Date.pad3, Date.pad4, Date.pad6; simpl;
    repeat (constructor; [first [apply digit_not_bar | discriminate]|]); constructor.
Qed.

Section WithHost.
Context `{Host}.

Lemma normalizedSnippet_length (raw : str) : (length (normalizedSnippet raw) <= 200)%nat.
Proof. unfold normalizedSnippet, slice. rewrite length_take. lia. Qed.

Lemma postIdentityKey_activity (p : post) :
  activity_id_of p <> [] -> postIdentityKey p = js "activity:" ++ activity_id_of p.
Proof.
  intros Hid. apply truthy_true in Hid. unfold postIdentityKey.
  fold (activity_id_of p). rewrite Hid. reflexivity.
Qed.

Lemma activity_id_of_url (p : post) :
  extractActivityId (post_url p) <> [] -> activity_id_of p = extractActivityId (post_url p).
Proof.
  intros Hid. apply truthy_true in Hid. unfold activity_id_of, or_else at 1.
  rewrite Hid. reflexivity.
Qed.

Lemma postIdentityKey_text (p : post) :
  activity_id_of p = [] -> normalizeUrlForKey (post_url p) = [] ->
  postIdentityKey p
  = js "txt:" ++ normalizedDay (or_else (posted_at_iso p) (posted_at p))
    ++ js "|" ++ normalizedSnippet (or_else (text p) (or_else (content p) (title p))).
Proof.
  intros Hid Hurl. apply truthy_false in Hid. apply truthy_false in Hurl.
  unfold postIdentityKey. fold (activity_id_of p). rewrite Hid. cbv zeta.
  rewrite Hurl. reflexivity.
Qed.

Lemma normalizeUrlForKey_location (raw : str) (u : URL.url) :
  cleanText raw <> [] -> URL_parse (cleanText raw) = Some u ->
  normalizeUrlForKey raw = strip_trailing_slashes (location u).
Proof.
  intros Hraw Hu. apply truthy_true in Hraw. unfold normalizeUrlForKey.
  rewrite Hraw, Hu. cbn [negb]. cbv zeta. rewrite serialize_cleared. reflexivity.
Qed.

Lemma normalizedDay_invalid (raw : str) :
  getTime (cleanText raw) = None -> normalizedDay raw = [].
Proof. intros E. unfold normalizedDay. rewrite E. reflexivity. Qed.

Lemma normalizedDay_string (raw : str) (t : Z) :
  getTime (cleanText raw) = Some t -> four_digit_year t = true ->
  normalizedDay raw = day_string (utc_day t).
Proof.
  intros E Ht. unfold normalizedDay. rewrite E. apply toISOString_day. exact Ht.
Qed.

Lemma normalizedDay_no_bar (raw : str) : Forall (fun c => c <> 124%N) (normalizedDay raw).
Proof.
  unfold normalizedDay. destruct (getTime _) as [t|]; [|constructor].
  unfold slice. apply Forall_take. rewrite drop_0. apply toISOString_no_bar.
Qed.

End WithHost.

(** Two texts cut at their first separator. *)
Lemma app_bar_inj (d1 d2 s1 s2 : str) :
  Forall (fun c => c <> 124%N) d1 -> Forall (fun c => c <> 124%N) d2 ->
  d1 ++ 124%N :: s1 = d2 ++ 124%N :: s2 -> d1 = d2 /\ s1 = s2.
Proof.
  revert d2. induction d1 as [|c d1 IH]; intros d2 H1 H2 E.
  - destruct d2 as [|c2 d2]; [injection E as ->; auto|].
    apply Forall_cons in H2 as [Hc _]. simpl in E. injection E as E _. congruence.
  - apply Forall_cons in H1 as [Hc H1].
    destruct d2 as [|c2 d2]; [simpl in E; injection E as E _; congruence|].
    apply Forall_cons in H2 as [_ H2]. simpl in E. injection E as -> E.
    destruct (IH d2 H1 H2 E) as [-> ->]. auto.
Qed.

(** *** Text fingerprints *)

Lemma collapse_spaces_from_single (inrun : bool) (s : str) :
  single_spaces (collapse_spaces_from inrun s) = true
  /\ (inrun = true ->
      match collapse_spaces_from inrun s with
      | d :: _ => is_space d = false
      | [] => True
      end).
Proof.
  revert inrun. induction s as [|c s IH]; intros inrun; [split; [reflexivity | intros _; exact I]|].
  cbn [collapse_spaces_from]. destruct (is_space c) eqn:Hc.
  - destruct inrun.
    + apply IH.
    + split; [|discriminate]. destruct (IH true) as [IH1 IH2].
      cbn [single_spaces]. change (is_space 32) with true. cbn [N.eqb Pos.eqb andb].
      rewrite IH1, andb_true_r. specialize (IH2 eq_refl).
      destruct (collapse_spaces_from true s); [reflexivity|]. rewrite IH2. reflexivity.
  - destruct (IH false) as [IH1 _]. split.
    + cbn [single_spaces]. rewrite Hc. exact IH1.
    + intros _. exact Hc.
Qed.

Lemma single_spaces_take (n : nat) (s : str) :
  single_spaces s = true -> single_spaces (take n s) = true.
Proof.
  revert n. induction s as [|c s IH]; intros n Hs; [destruct n; reflexivity|].
  destruct n as [|n]; [reflexivity|]. cbn [take single_spaces] in *.
  apply andb_true_iff in Hs as [Hc Hs]. rewrite (IH n Hs), andb_true_r.
  destruct (is_space c); [|reflexivity].
  apply andb_true_iff in Hc as [-> Hc]. destruct s as [|d s]; [destruct n; reflexivity|].
  destruct n; [reflexivity | exact Hc].
Qed.

Section WithHost.
Context `{Host}.

Lemma normalizedSnippet_single (raw : str) : single_spaces (normalizedSnippet raw) = true.
Proof.
  unfold normalizedSnippet, slice. apply single_spaces_take. rewrite drop_0.
  apply (collapse_spaces_from_single false).
Qed.

(** C6: the identity key of a post is "activity:<id>" when an activity id
    is found in its URL, title, content or text (in that order); otherwise
    "url:<url>" for the post URL without query and fragment, when there is
    one; otherwise the text fingerprint "txt:<day>|<snippet>".  The activity
    id of a text is the run of digits, eight at least, behind the first of
    the six markers that introduces one.  The normalized URL is the
    serialization of scheme, authority and path, without the slashes at its
    end, whatever query and fragment were.  The day is the UTC day
    "YYYY-MM-DD" of the date, so that two dates have the same day string
    exactly when they fall on the same day; the snippet is at most the first
    200 units of the lower-cased text with every run of white space
    collapsed to one space; and two text keys are equal exactly when day and
    snippet are.  Hence two posts whose URLs hold the same activity id, in
    whatever recognized shape, have the same key. *)
Theorem postIdentityKey_priority :
  (forall p,
     (activity_id_of p <> [] ->
        postIdentityKey p = js "activity:" ++ activity_id_of p)
     /\ (activity_id_of p = [] -> normalizeUrlForKey (post_url p) <> [] ->
          postIdentityKey p = js "url:" ++ normalizeUrlForKey (post_url p))
     /\ (activity_id_of p = [] -> normalizeUrlForKey (post_url p) = [] ->
          postIdentityKey p
          = js "txt:" ++ normalizedDay (or_else (posted_at_iso p) (posted_at p))
            ++ js "|"
            ++ normalizedSnippet (or_else (text p) (or_else (content p) (title p)))))
  /\ (forall raw,
        extractActivityId raw
        = first_reference
            (map js ["urn:li:activity:"; "activity-"; "ugcPost-"; "urn:li:ugcPost:";
                     "urn:li:share:"; "share-"]%string) raw)
  /\ (forall raw u, cleanText raw <> [] -> URL_parse (cleanText raw) = Some u ->
        normalizeUrlForKey raw = strip_trailing_slashes (location u)
        /\ without_trailing_slashes (normalizeUrlForKey raw) (location u))
  /\ (forall raw1 raw2 u1 u2,
        cleanText raw1 <> [] -> URL_parse (cleanText raw1) = Some u1 ->
        cleanText raw2 <> [] -> URL_parse (cleanText raw2) = Some u2 ->
        same_location u1 u2 -> normalizeUrlForKey raw1 = normalizeUrlForKey raw2)
  /\ (forall raw, getTime (cleanText raw) = None -> normalizedDay raw = [])
  /\ (forall raw t, getTime (cleanText raw) = Some t -> four_digit_year t = true ->
        normalizedDay raw = day_string (utc_day t))
  /\ (forall t1 t2, four_digit_year t1 = true -> four_digit_year t2 = true ->
        (day_string (utc_day t1) = day_string (utc_day t2) <-> utc_day t1 = utc_day t2))
  /\ (forall raw,
        normalizedSnippet raw = take 200 (collapse_spaces (toLowerCase (trim raw)))
        /\ (length (normalizedSnippet raw) <= 200)%nat
        /\ single_spaces (normalizedSnippet raw) = true)
  /\ normalizedSnippet (js "  ŁÓDŹ " ++ [9; 160; 10]%N ++ js "ΟΔΟΣ  İ ") = js "łódź οδος i̇"
  /\ (forall p1 p2,
        activity_id_of p1 = [] -> normalizeUrlForKey (post_url p1) = [] ->
        activity_id_of p2 = [] -> normalizeUrlForKey (post_url p2) = [] ->
        (postIdentityKey p1 = postIdentityKey p2
         <-> normalizedDay (or_else (posted_at_iso p1) (posted_at p1))
             = normalizedDay (or_else (posted_at_iso p2) (posted_at p2))
             /\ normalizedSnippet (or_else (text p1) (or_else (content p1) (title p1)))
                = normalizedSnippet (or_else (text p2) (or_else (content p2) (title p2)))))
  /\ (forall p1 p2 id,
        refers_only_to (post_url p1) id = true ->
        refers_only_to (post_url p2) id = true ->
        postIdentityKey p1 = postIdentityKey p2
        /\ postIdentityKey p1 = js "activity:" ++ id).
Proof.
  assert (K : forall p id, refers_only_to (post_url p) id = true ->
                           postIdentityKey p = js "activity:" ++ id).
  { intros p id Hp. destruct (extractActivityId_refers _ _ Hp) as [E Hne].
    rewrite postIdentityKey_activity; rewrite activity_id_of_url; rewrite E; auto. }
  split_and!.
  - intros p. split; [apply postIdentityKey_activity|]. split.
    + intros Hid Hurl. apply truthy_false in Hid. apply truthy_true in Hurl.
      unfold postIdentityKey. fold (activity_id_of p). rewrite Hid. cbv zeta.
      rewrite Hurl. reflexivity.
    + apply postIdentityKey_text.
  - intros raw. apply extractActivityId_reference.
  - intros raw u Hraw Hu. rewrite (normalizeUrlForKey_location raw u Hraw Hu).
    split; [reflexivity | apply strip_trailing_slashes_spec].
  - intros raw1 raw2 u1 u2 Hr1 Hu1 Hr2 Hu2 Hsame.
    rewrite (normalizeUrlForKey_location raw1 u1 Hr1 Hu1),
      (normalizeUrlForKey_location raw2 u2 Hr2 Hu2), (location_same u1 u2 Hsame).
    reflexivity.
  - apply normalizedDay_invalid.
  - apply normalizedDay_string.
  - intros t1 t2 H1 H2. split; [|intros ->; reflexivity].
    apply day_string_inj; apply utc_day_range; assumption.
  - intros raw. split; [reflexivity|].
    split; [apply normalizedSnippet_length | apply normalizedSnippet_single].
  - vm_compute. reflexivity.
  - intros p1 p2 Hid1 Hurl1 Hid2 Hurl2.
    rewrite (postIdentityKey_text p1 Hid1 Hurl1), (postIdentityKey_text p2 Hid2 Hurl2).
    split.
    + intros E. apply app_inv_head in E.
      apply (app_bar_inj _ _ _ _ (normalizedDay_no_bar _) (normalizedDay_no_bar _) E).
    + intros [-> ->]. reflexivity.
  - intros p1 p2 id H1 H2. rewrite (K p1 id H1), (K p2 id H2). split; reflexivity.
Qed.

End WithHost.

(** The same activity id in the feed-update shape and in the shape of a
    post permalink whose slug holds the word "share-". *)
Lemma postIdentityKey_priority_witness :
  let p1 := Demo.mk_post
      "https://www.linkedin.com/feed/update/urn:li:activity:7123456789012345678/"
      EmptyString EmptyString None in
  let p2 := Demo.mk_post
      "https://www.linkedin.com/posts/jane_please-share-this-activity-7123456789012345678-a1B2?utm_source=share"
      EmptyString EmptyString None in
  @postIdentityKey Demo.bare_host p1 = @postIdentityKey Demo.bare_host p2
  /\ @postIdentityKey Demo.bare_host p1 = js "activity:7123456789012345678".
Proof.
  cbv zeta.
  apply (@postIdentityKey_priority Demo.bare_host).
  - vm_compute. reflexivity.
  - vm_compute. reflexivity.
Defined.

End IdentityProps.

(** ** Duplicate check of the popup *)

Module PopupProps.
Import JS Popup Spec.

Lemma startsWith_app (p s : str) : startsWith p (p ++ s) = true.
Proof.
  induction p as [|c p IH]; simpl; [reflexivity|].
  rewrite N.eqb_refl. assumption.
Qed.

Lemma keys_add_elem (keys : list str) (k k' : str) :
  k' ∈ keys_add keys k <-> k' ∈ keys \/ k' = k.
Proof.
  unfold keys_add. case_bool_decide as Hin.
  - split; [auto|]. intros [?| ->]; assumption.
  - rewrite elem_of_app, list_elem_of_singleton. reflexivity.
Qed.

(** The two loops of [addIdentityKeysToSet] are unions. *)
Lemma fold_union_elem (cond : str -> bool) (g : str -> str) (keys : list str)
    (set : gset str) (k : str) :
  k ∈ fold_left (fun acc key => if cond key then {[g key]} ∪ acc else acc) keys set
  <-> k ∈ set \/ exists key, key ∈ keys /\ cond key = true /\ k = g key.
Proof.
  revert set. induction keys as [|key keys IH]; intros set; simpl.
  - split; [auto|]. intros [?|(key & Hin & _)]; [assumption | inversion Hin].
  - rewrite IH. destruct (cond key) eqn:E.
    + rewrite elem_of_union, elem_of_singleton. split.
      * intros [[->|?]|(key' & Hin & Hc & ->)]; eauto.
        -- right. exists key. split; [left | auto].
        -- right. exists key'. split; [right; assumption | auto].
      * intros [?|(key' & Hin & Hc & ->)]; [auto|].
        apply elem_of_cons in Hin as [->|Hin]; [auto|].
        right. exists key'. auto.
    + split.
      * intros [?|(key' & Hin & Hc & ->)]; [auto|].
        right. exists key'. split; [right; assumption | auto].
      * intros [?|(key' & Hin & Hc & ->)]; [auto|].
        apply elem_of_cons in Hin as [->|Hin]; [congruence|].
        right. exists key'. auto.
Qed.

Lemma toISOString_head (t : Z) :
  exists c rest, Date.toISOString t = c :: rest /\ c <> 124%N.
Proof.
  unfold Date.toISOString. destruct (Date.civil_from_days _) as [[y m] d].
  unfold Date.iso_year.
  destruct ((0 <=? y) && (y <=? 9999)).
  - eexists _, _. split; [reflexivity|]. unfold Date.digit.
    pose proof (Z.mod_pos_bound (y / 1000) 10 ltac:(lia)). lia.
  - destruct (y <? 0); eexists _, _; (split; [reflexivity | discriminate]).
Qed.

Section WithHost.
Context `{Host}.

Lemma day_of_head (p : post) :
  day_of p = [] \/ exists c rest, day_of p = c :: rest /\ c <> 124%N.
Proof.
  unfold day_of, normalizedDay.
  destruct (negb (truthy _)); [left; reflexivity|].
  destruct (getTime _) as [t|]; [|left; reflexivity].
  right. destruct (toISOString_head t) as (c & rest & -> & Hc).
  exists c, (take 9 rest). split; [reflexivity | assumption].
Qed.

Lemma noday_key_elem (p : post) :
  snippet_of p <> [] -> noday_key p ∈ postIdentityKeys p.
Proof.
  intros Hs. apply IdentityProps.truthy_true in Hs.
  unfold postIdentityKeys. fold (snippet_of p). rewrite Hs.
  apply keys_add_elem. right. reflexivity.
Qed.

Lemma day_key_elem (p : post) :
  snippet_of p <> [] -> day_of p <> [] -> day_key p ∈ postIdentityKeys p.
Proof.
  intros Hs Hd. apply IdentityProps.truthy_true in Hs.
  apply IdentityProps.truthy_true in Hd.
  unfold postIdentityKeys. fold (snippet_of p). rewrite Hs. fold (day_of p).
  rewrite Hd. apply keys_add_elem. left. apply keys_add_elem. right. reflexivity.
Qed.

Lemma noday_key_class (p : post) :
  is_stable_key (noday_key p) = false
  /\ startsWith (js "txt:") (noday_key p) = true
  /\ startsWith (js "txt:|") (noday_key p) = true
  /\ truthy (noday_key p) = true.
Proof. repeat split; reflexivity. Qed.

Lemma day_key_class (p : post) :
  day_of p <> [] ->
  is_stable_key (day_key p) = false
  /\ startsWith (js "txt:") (day_key p) = true
  /\ startsWith (js "txt:|") (day_key p) = false
  /\ truthy (day_key p) = true.
Proof.
  intros Hd. repeat split; try reflexivity.
  destruct (day_of_head p) as [He|(c & rest & He & Hc)]; [contradiction|].
  unfold day_key. rewrite He. vm_eval (js "txt:|"). vm_eval (js "txt:").
  cbn [startsWith app]. rewrite !N.eqb_refl. cbn [andb].
  rewrite (proj2 (N.eqb_neq 124 c)) by congruence. reflexivity.
Qed.

Lemma elem_filter {A} (f : A -> bool) (l : list A) (x : A) :
  x ∈ List.filter f l <-> x ∈ l /\ f x = true.
Proof. rewrite !list_elem_of_In. apply filter_In. Qed.

Lemma existsb_elem {A} (f : A -> bool) (l : list A) (x : A) :
  x ∈ l -> f x = true -> existsb f l = true.
Proof.
  intros Hin Hf. apply existsb_exists. exists x. rewrite <- list_elem_of_In. auto.
Qed.

Lemma noday_key_checked (p : post) :
  snippet_of p <> [] -> 80 <= strlen (snippet_of p) -> noday_key p ∈ keysToCheck p.
Proof.
  intros Hs Hlen. destruct (noday_key_class p) as (Hst & Ht & Hn & _).
  unfold keysToCheck. fold (snippet_of p).
  replace (80 <=? strlen (snippet_of p)) with true by (symmetry; apply Z.leb_le; assumption).
  apply elem_of_app. right. apply elem_filter. split; [|assumption].
  apply elem_filter. split; [apply noday_key_elem; assumption|].
  rewrite Hst, Ht. reflexivity.
Qed.

Lemma day_key_checked (p : post) :
  snippet_of p <> [] -> day_of p <> [] -> day_key p ∈ keysToCheck p.
Proof.
  intros Hs Hd. destruct (day_key_class p Hd) as (Hst & Ht & Hn & _).
  assert (Hin : day_key p ∈
    List.filter (fun key => startsWith (js "txt:") key && negb (startsWith (js "txt:|") key))
      (List.filter (fun key => negb (is_stable_key key) && startsWith (js "txt:") key)
         (postIdentityKeys p))).
  { apply elem_filter. split; [|rewrite Ht, Hn; reflexivity].
    apply elem_filter. split; [apply day_key_elem; assumption|].
    rewrite Hst, Ht. reflexivity. }
  unfold keysToCheck. fold (snippet_of p).
  destruct (80 <=? strlen (snippet_of p)); [apply elem_of_app; left|]; exact Hin.
Qed.

(** The duplicate check answers yes as soon as one of the keys it checks is
    in the set, plainly or behind the legacy prefix. *)
Lemma isDuplicate_checked (p : post) (keySet : gset str) (key : str) :
  key ∈ keysToCheck p ->
  key ∈ keySet \/ js "legacy_" ++ key ∈ keySet ->
  isDuplicateAgainstKeySet p keySet = true.
Proof.
  intros Hin Hset. unfold isDuplicateAgainstKeySet.
  assert (Hne : postIdentityKeys p <> []).
  { intros He. unfold keysToCheck in Hin. rewrite He in Hin. simpl in Hin.
    destruct (80 <=? _); inversion Hin. }
  destruct (postIdentityKeys p) as [|k0 ks] eqn:Hk; [contradiction|].
  cbn [length Nat.eqb]. rewrite <- Hk.
  destruct (existsb (set_has keySet) (List.filter is_stable_key _)); [reflexivity|].
  destruct (existsb (set_has keySet) (keysToCheck p)) eqn:Hplain; [reflexivity|].
  destruct Hset as [Hset|Hset].
  - rewrite (existsb_elem (set_has keySet) _ key Hin) in Hplain; [discriminate|].
    apply bool_decide_eq_true. assumption.
  - rewrite (existsb_elem (fun k => set_has keySet (js "legacy_" ++ k)) _ key Hin);
      [reflexivity|].
    apply bool_decide_eq_true. assumption.
Qed.

(** What registration puts into the set. *)
Lemma addIdentityKeysToSet_plain (set : gset str) (p : post) (key : str) :
  key ∈ postIdentityKeys p -> truthy key = true -> key ∈ addIdentityKeysToSet set p.
Proof.
  intros Hin Ht. unfold addIdentityKeysToSet.
  destruct (postIdentityKeys p) as [|k0 ks] eqn:Hk; [inversion Hin|].
  cbn [length Nat.eqb]. rewrite <- Hk in *.
  assert (Hfirst : key ∈ fold_left (fun acc key => if truthy key then {[key]} ∪ acc else acc)
                     (postIdentityKeys p) set).
  { apply (fold_union_elem truthy (fun k => k)). right. exists key. auto. }
  destruct (negb (hasStableIdentityKey _)); [|assumption].
  apply (fold_union_elem (fun k => truthy k && startsWith (js "txt:") k)
           (fun k => js "legacy_" ++ k)).
  left. assumption.
Qed.

Lemma addIdentityKeysToSet_legacy (set : gset str) (p : post) (key : str) :
  hasStableIdentityKey (postIdentityKeys p) = false ->
  key ∈ postIdentityKeys p -> truthy key = true -> startsWith (js "txt:") key = true ->
  js "legacy_" ++ key ∈ addIdentityKeysToSet set p.
Proof.
  intros Hst Hin Ht Htxt. unfold addIdentityKeysToSet.
  destruct (postIdentityKeys p) as [|k0 ks] eqn:Hk; [inversion Hin|].
  cbn [length Nat.eqb]. rewrite <- Hk in *. rewrite Hst. cbn [negb].
  apply (fold_union_elem (fun k => truthy k && startsWith (js "txt:") k)
           (fun k => js "legacy_" ++ k)).
  right. exists key. rewrite Ht, Htxt. auto.
Qed.

(** C7, amended: registering a post without stable key (no activity id, no
    URL) also records its text keys behind the prefix "legacy_"; the
    duplicate check looks the keys it checks up behind that prefix too; and a
    later capture of the post with the same snippet is recognized, from the
    legacy keys alone, when the snippet has at least 80 units or when both
    captures carry the same day. *)
Theorem legacy_keys_recognize_later_capture (set : gset str) (a b : post) :
  hasStableIdentityKey (postIdentityKeys a) = false ->
  snippet_of a <> [] ->
  snippet_of b = snippet_of a ->
  80 <= strlen (snippet_of a) \/ (day_of a <> [] /\ day_of b = day_of a) ->
  js "legacy_" ++ noday_key a ∈ addIdentityKeysToSet set a
  /\ (day_of a <> [] -> js "legacy_" ++ day_key a ∈ addIdentityKeysToSet set a)
  /\ (forall p keySet key,
        key ∈ keysToCheck p -> js "legacy_" ++ key ∈ keySet ->
        isDuplicateAgainstKeySet p keySet = true)
  /\ (forall keySet,
        js "legacy_" ++ noday_key a ∈ keySet ->
        (day_of a <> [] -> js "legacy_" ++ day_key a ∈ keySet) ->
        isDuplicateAgainstKeySet b keySet = true)
  /\ isDuplicateAgainstKeySet b (addIdentityKeysToSet set a) = true.
Proof.
  intros Hst Hsa Hsb Hcase.
  assert (Hreg1 : js "legacy_" ++ noday_key a ∈ addIdentityKeysToSet set a).
  { destruct (noday_key_class a) as (_ & Ht & _ & Htr).
    apply addIdentityKeysToSet_legacy; auto. apply noday_key_elem. assumption. }
  assert (Hreg2 : day_of a <> [] -> js "legacy_" ++ day_key a ∈ addIdentityKeysToSet set a).
  { intros Hd. destruct (day_key_class a Hd) as (_ & Ht & _ & Htr).
    apply addIdentityKeysToSet_legacy; auto. apply day_key_elem; assumption. }
  assert (Hconsult : forall p keySet key,
            key ∈ keysToCheck p -> js "legacy_" ++ key ∈ keySet ->
            isDuplicateAgainstKeySet p keySet = true).
  { intros p keySet key Hin Hl. eapply isDuplicate_checked; eauto. }
  assert (Hrec : forall keySet,
            js "legacy_" ++ noday_key a ∈ keySet ->
            (day_of a <> [] -> js "legacy_" ++ day_key a ∈ keySet) ->
            isDuplicateAgainstKeySet b keySet = true).
  { intros keySet Hn Hd. destruct Hcase as [Hlen|[Hda Hdb]].
    - apply (Hconsult b keySet (noday_key b)).
      + apply noday_key_checked; rewrite Hsb; assumption.
      + unfold noday_key. rewrite Hsb. exact Hn.
    - apply (Hconsult b keySet (day_key b)).
      + apply day_key_checked; [rewrite Hsb | rewrite Hdb]; assumption.
      + unfold day_key. rewrite Hsb, Hdb. apply Hd. assumption. }
  repeat split; auto.
Qed.

End WithHost.

(** C7, as stated, fails: a short text without date.  The capture without
    link registers "txt:|hello" and "legacy_txt:|hello"; the later capture
    with its link has the same snippet, but the check leaves the day-less key
    out for a snippet under 80 units and finds nothing. *)
Lemma legacy_keys_counterexample :
  let registered := @addIdentityKeysToSet Demo.bare_host ∅ Demo.bare_hello in
  @hasStableIdentityKey (@postIdentityKeys Demo.bare_host Demo.bare_hello) = false
  /\ @hasStableIdentityKey (@postIdentityKeys Demo.bare_host Demo.linked_hello) = true
  /\ snippet_of Demo.linked_hello = snippet_of Demo.bare_hello
  /\ js "legacy_txt:|hello" ∈ registered
  /\ @isDuplicateAgainstKeySet Demo.bare_host Demo.linked_hello registered = false.
Proof.
  cbv zeta. split_and!.
  - vm_compute. reflexivity.
  - vm_compute. reflexivity.
  - vm_compute. reflexivity.
  - apply (bool_decide_unpack _). vm_compute. exact I.
  - vm_compute. reflexivity.
Qed.

Lemma legacy_keys_recognize_later_capture_witness :
  @isDuplicateAgainstKeySet Demo.digit_host Demo.linked_hello_dated
    (@addIdentityKeysToSet Demo.digit_host ∅ Demo.bare_hello_dated) = true.
Proof.
  apply (@legacy_keys_recognize_later_capture Demo.digit_host ∅
           Demo.bare_hello_dated Demo.linked_hello_dated).
  - vm_compute. reflexivity.
  - vm_compute. discriminate.
  - vm_compute. reflexivity.
  - right. split; [vm_compute; discriminate | vm_compute; reflexivity].
Defined.

End PopupProps.

(** ** Scrape orchestrator *)

Module OrchestratorProps.
Import JS Orchestrator OrchSpec.

Section Orch.
Context {Data Payload : Type}.
Variable buildPayload : Data -> Payload.
Variable cancelledPayload : Payload.

Local Abbreviation state := (@state Data Payload).
Local Abbreviation run := (@run Data Payload).
Local Abbreviation step := (@step Data Payload buildPayload cancelledPayload).
Local Abbreviation exec := (@exec Data Payload buildPayload cancelledPayload).
Local Abbreviation resume := (@resume Data Payload buildPayload cancelledPayload).
Local Abbreviation finish_run := (@finish_run Data Payload buildPayload cancelledPayload).
Local Abbreviation resume_shape := (@resume_shape Data Payload buildPayload cancelledPayload).

Lemma run_ok_mono (cs new : list call) (r : run) :
  run_ok cs r -> run_ok (cs ++ new) r.
Proof.
  unfold run_ok. destruct (run_pc r); intros Hok;
    repeat match goal with
           | H : _ /\ _ |- _ => destruct H
           end;
    repeat split; try assumption;
    intros; apply elem_of_app; left; auto.
Qed.

Lemma elem_remove (cs : list call) (t : Z) :
  0 < t -> TabsRemove t ∈ cs ++ safeCloseTab (Some t).
Proof.
  intros Ht. apply elem_of_app. right. simpl.
  replace (0 <? t) with true by (symmetry; apply Z.ltb_lt; assumption). left.
Qed.

Lemma safeCloseTab_no_create (t : option Z) :
  Forall (fun c => is_create c = false) (safeCloseTab t).
Proof.
  destruct t as [t|]; simpl; [|constructor].
  destruct (0 <? t); repeat constructor.
Qed.

(** Entering the [finally] block from a state in which the tab is known. *)
Lemma enter_finally_shape (s : state) (id : nat) (r0 r : run) (t : Z)
    (out : outcome) (now : Z) :
  runs s !! id = Some r0 -> is_settled r0 = false -> run_key r = run_key r0 ->
  (forall cs, run_ok cs r0 -> local_tabId r = Some t /\ 0 < t) ->
  resume_shape s id now (enter_finally s id r t out).
Proof.
  intros Hr Hs Hk Htab. unfold enter_finally.
  eapply resume_move; [exact Hr | exact Hs | exact Hk | reflexivity | | ].
  - intros cs Hok. destruct (Htab cs Hok) as [Hl Ht].
    unfold run_ok; simpl. repeat split; try assumption.
    apply elem_remove. assumption.
  - apply safeCloseTab_no_create.
Qed.

(** Moving from one suspension point at which the job holds the tab to
    another. *)
Lemma move_shape (s : state) (id : nat) (r : run) (t : Z) (p : pc) (new : list call)
    (now : Z) :
  runs s !! id = Some r -> is_settled r = false ->
  (forall cs, run_ok cs r ->
     local_tabId r = Some t /\ job_tabId r = Some t /\ 0 < t
     /\ (job_cancelled r = true -> TabsRemove t ∈ cs)) ->
  match p with
  | AwaitLoad t' | AwaitSleep t' | AwaitSend t' _ | AwaitReload t' _
  | AwaitReloadComplete t' _ | AwaitRetrySleep t' _ => t' = t
  | _ => False
  end ->
  Forall (fun c => is_create c = false) new ->
  resume_shape s id now (set_run s id (with_pc r p) new).
Proof.
  intros Hr Hs Htab Hp Hnew.
  eapply resume_move; [exact Hr | exact Hs | reflexivity | | | exact Hnew].
  - destruct p; try contradiction; reflexivity.
  - intros cs Hok. destruct (Htab cs Hok) as (Hl & Hj & Ht & Hc).
    unfold run_ok. destruct p; try contradiction; subst; simpl;
      repeat split; try assumption; intros Hcan; apply elem_of_app; left; auto.
Qed.

Lemma resume_resume_shape (s : state) (id : nat) (res : resolution) (now : Z) :
  resume_shape s id now (resume s id res now).
Proof.
  unfold Orchestrator.resume.
  destruct (runs s !! id) as [r|] eqn:Hr; [|apply resume_same].
  destruct (run_pc r) eqn:Hpc, res; try apply resume_same.
  all: assert (Hs : is_settled r = false) by (unfold is_settled; rewrite Hpc; reflexivity).
  all: unfold check_cancelled.
  all: try (repeat match goal with
            | |- resume_shape _ _ _ (if ?c then _ else _) => destruct c
            | |- resume_shape _ _ _ (match ?c with _ => _ end) => destruct c
            end;
            first
              [ eapply (enter_finally_shape s id r r);
                [ exact Hr | exact Hs | reflexivity
                | intros cs Hok; unfold run_ok in Hok; rewrite Hpc in Hok;
                  destruct Hok as (? & ? & ? & ?); auto ]
              | eapply move_shape;
                [ exact Hr | exact Hs
                | intros cs Hok; unfold run_ok in Hok; rewrite Hpc in Hok; exact Hok
                | reflexivity
                | repeat constructor ] ]).
  - (* chrome.tabs.create answered *)
    destruct tabId as [t|].
    + destruct (valid_tab (Some t)) eqn:Hv.
      * simpl in Hv. apply Z.ltb_lt in Hv.
        change (job_cancelled (set_job_tabId (set_local_tabId r (Some t)) (Some t)))
          with (job_cancelled r).
        destruct (job_cancelled r) eqn:Hc.
        -- eapply (enter_finally_shape s id r);
             [exact Hr | exact Hs | reflexivity | intros cs _; split; [reflexivity | exact Hv]].
        -- eapply resume_move;
             [exact Hr | exact Hs | reflexivity | reflexivity | | constructor].
           intros cs _. unfold run_ok. simpl. repeat split; try assumption.
           intros Hcan. congruence.
      * simpl in Hv. apply Z.ltb_ge in Hv.
        eapply resume_settle; [exact Hr | exact Hs | reflexivity |].
        intros cs x Hok. unfold run_ok in *. rewrite Hpc in Hok. simpl.
        destruct Hok as [_ Hj]. split; [exact Hj|].
        intros t' [= <-] Ht'. lia.
    + eapply resume_settle; [exact Hr | exact Hs | reflexivity |].
      intros cs x Hok. unfold run_ok in *. rewrite Hpc in Hok. simpl.
      destruct Hok as [_ Hj]. split; [exact Hj|]. intros t' Ht'. discriminate Ht'.
  - (* chrome.tabs.create failed *)
    eapply resume_settle; [exact Hr | exact Hs | reflexivity |].
    intros cs x Hok. unfold run_ok in *. rewrite Hpc in Hok. simpl.
    destruct Hok as [Hl Hj]. split; [exact Hj|]. intros t' Ht'. congruence.
  - (* the tab is closed *)
    eapply resume_settle; [exact Hr | exact Hs | reflexivity |].
    intros cs x Hok. unfold run_ok in *. rewrite Hpc in Hok. simpl.
    destruct Hok as (Hl & Ht & Hj & Hrem). split; [exact Hj|].
    intros t' Ht' _. rewrite Hl in Ht'. injection Ht' as <-. exact Hrem.
  - (* closing the tab failed: the error is swallowed *)
    eapply resume_settle; [exact Hr | exact Hs | reflexivity |].
    intros cs x Hok. unfold run_ok in *. rewrite Hpc in Hok. simpl.
    destruct Hok as (Hl & Ht & Hj & Hrem). split; [exact Hj|].
    intros t' Ht' _. rewrite Hl in Ht'. injection Ht' as <-. exact Hrem.
Qed.

Lemma finish_run_fields (s : state) (id : nat) (r : run) (out : outcome) (now : Z) :
  exists x cache,
    finish_run s id r out now
    = {| topPostsCache := cache;
         topPostsInflight := delete (run_key r) (topPostsInflight s);
         topPostsJobs := delete (run_key r) (topPostsJobs s);
         runs := <[id := with_pc r (Settled x)]> (runs s);
         calls := calls s |}.
Proof.
  unfold Orchestrator.finish_run. destruct out as [d|err].
  - eauto.
  - destruct (isCancelledError err); [destruct (local_cached r)|]; eauto.
Qed.

(** *** Every exit of a job closes its tab *)

Lemma tab_inv_init : tab_inv (@init Data Payload).
Proof. intros id r Hl. discriminate Hl. Qed.

Lemma tab_inv_set_run (s : state) (id : nat) (r r' : run) (new : list call) :
  tab_inv s -> runs s !! id = Some r ->
  (forall cs, run_ok cs r -> run_ok (cs ++ new) r') ->
  tab_inv (set_run s id r' new).
Proof.
  intros Hinv Hr Hok id' r0 Hl. simpl in *.
  apply list_lookup_insert_Some in Hl as [(-> & <- & _)|(Hne & Hl)].
  - apply Hok. apply (Hinv _ _ Hr).
  - apply run_ok_mono. apply (Hinv _ _ Hl).
Qed.

Lemma tab_inv_get (s : state) (profile : option str) (now : Z) :
  tab_inv s -> tab_inv (fst (getProfileTopPosts s profile now)).
Proof.
  intros Hinv. unfold getProfileTopPosts.
  destruct profile as [key|]; [|exact Hinv].
  destruct (fresh _ now); [exact Hinv|].
  destruct (topPostsInflight s !! key); [exact Hinv|].
  intros id r Hl. simpl in *.
  apply lookup_snoc_Some in Hl as [[_ Hl]|[_ <-]].
  - apply run_ok_mono. apply (Hinv _ _ Hl).
  - unfold run_ok. simpl. auto.
Qed.

Lemma tab_inv_cancel (s : state) (profile : option str) :
  tab_inv s -> tab_inv (cancelProfileTopPosts s profile).
Proof.
  intros Hinv. unfold cancelProfileTopPosts.
  destruct profile as [key|]; [|exact Hinv].
  destruct (topPostsJobs s !! key) as [id|]; [|exact Hinv].
  destruct (runs s !! id) as [r|] eqn:Hr; [|exact Hinv].
  apply (tab_inv_set_run s id r); [exact Hinv | exact Hr |].
  intros cs Hok. unfold run_ok in *. simpl.
  destruct (run_pc r); try (apply (run_ok_mono cs _ r) in Hok; exact Hok).
  all: try (destruct Hok as (Hl & Hj & Ht & Hc); rewrite Hj; simpl;
            replace (0 <? tabId) with true by (symmetry; apply Z.ltb_lt; assumption);
            repeat split; try assumption;
            intros _; apply elem_of_app; right; left).
  all: repeat match goal with
              | H : _ /\ _ |- _ => destruct H
              end;
       repeat split; try assumption; intros; apply elem_of_app; left; auto.
Qed.

Lemma tab_inv_resume (s : state) (id : nat) (res : resolution) (now : Z) :
  tab_inv s -> tab_inv (resume s id res now).
Proof.
  intros Hinv.
  destruct (resume_resume_shape s id res now)
    as [|r r' new Hr Hs Hk Hs' Hok Hnew|r r' out Hr Hs Hk Hok].
  - exact Hinv.
  - eapply tab_inv_set_run; eassumption.
  - destruct (finish_run_fields s id r' out now) as (x & cache & ->).
    intros id' r0 Hl. simpl in *.
    apply list_lookup_insert_Some in Hl as [(-> & <- & _)|(Hne & Hl)].
    + apply Hok. apply (Hinv _ _ Hr).
    + apply (Hinv _ _ Hl).
Qed.

Lemma tab_inv_step (s : state) (e : event) : tab_inv s -> tab_inv (step s e).
Proof.
  destruct e; simpl;
    [apply tab_inv_get | apply tab_inv_cancel | apply tab_inv_resume].
Qed.

Lemma exec_snoc (s : state) (events : list event) (e : event) :
  exec s (events ++ [e]) = step (exec s events) e.
Proof. unfold Orchestrator.exec. rewrite fold_left_app. reflexivity. Qed.

Lemma tab_inv_exec (s : state) (events : list event) :
  tab_inv s -> tab_inv (exec s events).
Proof.
  intros Hinv. induction events as [|e events IH] using rev_ind; [exact Hinv|].
  rewrite exec_snoc. apply tab_inv_step. exact IH.
Qed.

(** *** One job in flight per profile *)

Lemma flight_inv_init : flight_inv (@init Data Payload).
Proof.
  split.
  - intros id r Hl. discriminate Hl.
  - intros key id Hl. simpl in Hl. rewrite lookup_empty in Hl. discriminate Hl.
Qed.

Lemma flight_inv_set_run (s : state) (id : nat) (r r' : run) (new : list call) :
  flight_inv s -> runs s !! id = Some r ->
  run_key r' = run_key r -> is_settled r' = is_settled r ->
  flight_inv (set_run s id r' new).
Proof.
  intros [F1 F2] Hr Hk Hs. split.
  - intros id' r0 Hl Hu. simpl in *.
    apply list_lookup_insert_Some in Hl as [(-> & <- & _)|(Hne & Hl)].
    + rewrite Hk. apply F1; [exact Hr | congruence].
    + apply F1; assumption.
  - intros key id' Hl. simpl in *.
    destruct (F2 key id' Hl) as (r1 & Hr1 & Hk1 & Hu1).
    destruct (decide (id = id')) as [<-|Hne].
    + exists r'. rewrite list_lookup_insert_eq by (eapply lookup_lt_Some; eassumption).
      rewrite Hr in Hr1. injection Hr1 as <-.
      split; [reflexivity|]. split; congruence.
    + exists r1. rewrite list_lookup_insert_ne by assumption. auto.
Qed.

Lemma flight_inv_finish (s : state) (id : nat) (r r' : run) (out : outcome) (now : Z) :
  flight_inv s -> runs s !! id = Some r -> is_settled r = false ->
  run_key r' = run_key r ->
  flight_inv (finish_run s id r' out now).
Proof.
  intros [F1 F2] Hr Hu Hk.
  destruct (finish_run_fields s id r' out now) as (x & cache & ->). split.
  - intros id' r0 Hl Hu0. simpl in *.
    apply list_lookup_insert_Some in Hl as [(-> & <- & _)|(Hne & Hl)];
      [discriminate Hu0|].
    rewrite lookup_delete_ne; [apply F1; assumption|].
    rewrite Hk. intros Heq.
    pose proof (F1 _ _ Hr Hu) as Ha. pose proof (F1 _ _ Hl Hu0) as Hb.
    rewrite Heq in Ha. congruence.
  - intros key id' Hl. simpl in *.
    apply lookup_delete_Some in Hl as [Hne Hl].
    destruct (F2 key id' Hl) as (r1 & Hr1 & Hk1 & Hu1).
    exists r1. split; [|auto].
    rewrite list_lookup_insert_ne; [assumption|].
    intros <-. rewrite Hr in Hr1. injection Hr1 as <-. congruence.
Qed.

Lemma flight_inv_get (s : state) (profile : option str) (now : Z) :
  flight_inv s -> flight_inv (fst (getProfileTopPosts s profile now)).
Proof.
  intros [F1 F2]. unfold getProfileTopPosts.
  destruct profile as [key|]; [|split; assumption].
  destruct (fresh _ now); [split; assumption|].
  destruct (topPostsInflight s !! key) eqn:Hfl; [split; assumption|].
  split.
  - intros id r Hl Hu. simpl in *.
    apply lookup_snoc_Some in Hl as [[_ Hl]|[-> <-]].
    + rewrite lookup_insert_ne; [apply F1; assumption|].
      intros ->. rewrite (F1 _ _ Hl Hu) in Hfl. discriminate Hfl.
    + simpl. apply lookup_insert_eq.
  - intros key' id Hl. simpl in *.
    apply lookup_insert_Some in Hl as [[<- <-]|[Hne Hl]].
    + eexists. split; [apply list_lookup_middle; reflexivity|]. auto.
    + destruct (F2 key' id Hl) as (r1 & Hr1 & Hk1 & Hu1).
      exists r1. split; [|auto].
      rewrite lookup_app_l by (eapply lookup_lt_Some; eassumption). assumption.
Qed.

Lemma flight_inv_cancel (s : state) (profile : option str) :
  flight_inv s -> flight_inv (cancelProfileTopPosts s profile).
Proof.
  intros Hinv. unfold cancelProfileTopPosts.
  destruct profile as [key|]; [|exact Hinv].
  destruct (topPostsJobs s !! key) as [id|]; [|exact Hinv].
  destruct (runs s !! id) as [r|] eqn:Hr; [|exact Hinv].
  apply (flight_inv_set_run s id r); auto.
Qed.

Lemma flight_inv_resume (s : state) (id : nat) (res : resolution) (now : Z) :
  flight_inv s -> flight_inv (resume s id res now).
Proof.
  intros Hinv.
  destruct (resume_resume_shape s id res now)
    as [|r r' new Hr Hs Hk Hs' Hok Hnew|r r' out Hr Hs Hk Hok].
  - exact Hinv.
  - eapply flight_inv_set_run; [exact Hinv | exact Hr | exact Hk | congruence].
  - eapply flight_inv_finish; eassumption.
Qed.

Lemma flight_inv_step (s : state) (e : event) : flight_inv s -> flight_inv (step s e).
Proof.
  destruct e; simpl;
    [apply flight_inv_get | apply flight_inv_cancel | apply flight_inv_resume].
Qed.

Lemma flight_inv_exec (s : state) (events : list event) :
  flight_inv s -> flight_inv (exec s events).
Proof.
  intros Hinv. induction events as [|e events IH] using rev_ind; [exact Hinv|].
  rewrite exec_snoc. apply flight_inv_step. exact IH.
Qed.

(** A run stays where it is, keeps its profile, and stays settled. *)
Lemma step_run_persists (s : state) (e : event) (id : nat) (r : run) :
  runs s !! id = Some r ->
  exists r', runs (step s e) !! id = Some r' /\ run_key r' = run_key r
             /\ (is_settled r = true -> is_settled r' = true).
Proof.
  intros Hl.
  assert (Hset : forall id0 r0 r0' new,
            runs s !! id0 = Some r0 -> run_key r0' = run_key r0 ->
            (is_settled r0 = true -> is_settled r0' = true) ->
            exists r', runs (set_run s id0 r0' new) !! id = Some r'
                       /\ run_key r' = run_key r
                       /\ (is_settled r = true -> is_settled r' = true)).
  { intros id0 r0 r0' new Hr0 Hk0 Hs0. simpl.
    destruct (decide (id0 = id)) as [->|Hne].
    - rewrite Hl in Hr0. injection Hr0 as <-. exists r0'.
      rewrite list_lookup_insert_eq by (eapply lookup_lt_Some; eassumption). auto.
    - exists r. rewrite list_lookup_insert_ne by assumption. auto. }
  destruct e as [profile now|profile|id0 res now]; simpl.
  - unfold getProfileTopPosts.
    destruct profile as [key|]; [|eauto].
    destruct (fresh _ now); [eauto|].
    destruct (topPostsInflight s !! key); [eauto|].
    simpl. exists r. rewrite lookup_app_l by (eapply lookup_lt_Some; eassumption). auto.
  - unfold cancelProfileTopPosts.
    destruct profile as [key|]; [|eauto].
    destruct (topPostsJobs s !! key) as [id0|]; [|eauto].
    destruct (runs s !! id0) as [r0|] eqn:Hr0; [|eauto].
    apply (Hset id0 r0); auto.
  - destruct (resume_resume_shape s id0 res now)
      as [|r0 r0' new Hr0 Hs0 Hk0 Hs0' Hok Hnew|r0 r0' out Hr0 Hs0 Hk0 Hok].
    + eauto.
    + apply (Hset id0 r0); auto. congruence.
    + destruct (finish_run_fields s id0 r0' out now) as (x & cache & ->). simpl.
      destruct (decide (id0 = id)) as [->|Hne].
      * rewrite Hl in Hr0. injection Hr0 as <-. eexists.
        rewrite list_lookup_insert_eq by (eapply lookup_lt_Some; eassumption).
        split; [reflexivity|]. auto.
      * exists r. rewrite list_lookup_insert_ne by assumption. auto.
Qed.

(** Counting the tabs opened for a profile. *)
Lemma tabs_opened_calls (key : str) (s s' : state) (new : list call) :
  calls s' = calls s ++ new ->
  Forall (fun c => c <> TabsCreate key) new ->
  tabs_opened key s' = tabs_opened key s.
Proof.
  intros Hc Hnew. unfold tabs_opened. rewrite Hc, List.filter_app, length_app.
  replace (List.filter _ new) with (@nil call); [simpl; lia|].
  symmetry. clear Hc. induction Hnew as [|c new Hc' Hnew IH]; [reflexivity|].
  simpl. rewrite bool_decide_eq_false_2 by assumption. exact IH.
Qed.

Lemma no_create_ne (key : str) (new : list call) :
  Forall (fun c => is_create c = false) new ->
  Forall (fun c => c <> TabsCreate key) new.
Proof.
  intros Hnew. eapply Forall_impl; [exact Hnew|].
  intros c Hc ->. discriminate Hc.
Qed.

(** While a job is in flight for a profile, no turn of the loop opens a tab
    for that profile. *)
Lemma step_opens_no_tab (s : state) (e : event) (key : str) (id : nat) :
  topPostsInflight s !! key = Some id ->
  tabs_opened key (step s e) = tabs_opened key s.
Proof.
  intros Hfl. destruct e as [profile now|profile|id0 res now]; simpl.
  - unfold getProfileTopPosts.
    destruct profile as [key'|]; [|reflexivity].
    destruct (fresh _ now); [reflexivity|].
    destruct (topPostsInflight s !! key') eqn:Hfl'; [reflexivity|].
    apply (tabs_opened_calls key s _ [TabsCreate key']); [reflexivity|].
    constructor; [|constructor]. intros [= ->]. congruence.
  - unfold cancelProfileTopPosts.
    destruct profile as [key'|]; [|reflexivity].
    destruct (topPostsJobs s !! key') as [id0|]; [|reflexivity].
    destruct (runs s !! id0) as [r0|]; [|reflexivity].
    eapply tabs_opened_calls; [reflexivity|]. apply no_create_ne.
    destruct (valid_tab _); [apply safeCloseTab_no_create | constructor].
  - destruct (resume_resume_shape s id0 res now)
      as [|r0 r0' new Hr0 Hs0 Hk0 Hs0' Hok Hnew|r0 r0' out Hr0 Hs0 Hk0 Hok].
    + reflexivity.
    + eapply tabs_opened_calls; [reflexivity|]. apply no_create_ne. exact Hnew.
    + destruct (finish_run_fields s id0 r0' out now) as (x & cache & ->).
      reflexivity.
Qed.

(** A job in flight after a turn of the loop was in flight before it, if
    its run existed then. *)
Lemma step_inflight_back (s : state) (e : event) (key : str) (id : nat) :
  flight_inv s -> (id < length (runs s))%nat ->
  topPostsInflight (step s e) !! key = Some id ->
  topPostsInflight s !! key = Some id.
Proof.
  intros Hinv Hlt Hfl.
  destruct (lookup_lt_is_Some_2 _ _ Hlt) as [r Hr].
  destruct (step_run_persists s e id r Hr) as (r' & Hr' & Hk & Hs).
  destruct (flight_inv_step s e Hinv) as [_ F2'].
  destruct (F2' key id Hfl) as (r1 & Hr1 & Hk1 & Hu1).
  rewrite Hr' in Hr1. injection Hr1 as <-.
  destruct Hinv as [F1 _]. rewrite <- Hk1, Hk. apply (F1 _ _ Hr).
  destruct (is_settled r); [|reflexivity]. rewrite Hs in Hu1; auto.
Qed.

Lemma step_runs_length (s : state) (e : event) :
  (length (runs s) <= length (runs (step s e)))%nat.
Proof.
  destruct e as [profile now|profile|id0 res now]; simpl.
  - unfold getProfileTopPosts.
    destruct profile as [key'|]; [|reflexivity].
    destruct (fresh _ now); [reflexivity|].
    destruct (topPostsInflight s !! key'); [reflexivity|].
    simpl. rewrite length_app. lia.
  - unfold cancelProfileTopPosts.
    destruct profile as [key'|]; [|reflexivity].
    destruct (topPostsJobs s !! key') as [id0|]; [|reflexivity].
    destruct (runs s !! id0) as [r0|]; [|reflexivity].
    simpl. rewrite length_insert. reflexivity.
  - destruct (resume_resume_shape s id0 res now)
      as [|r0 r0' new Hr0 Hs0 Hk0 Hs0' Hok Hnew|r0 r0' out Hr0 Hs0 Hk0 Hok].
    + reflexivity.
    + simpl. rewrite length_insert. reflexivity.
    + destruct (finish_run_fields s id0 r0' out now) as (x & cache & ->).
      simpl. rewrite length_insert. reflexivity.
Qed.

Lemma exec_runs_length (s : state) (events : list event) :
  (length (runs s) <= length (runs (exec s events)))%nat.
Proof.
  induction events as [|e events IH] using rev_ind; [reflexivity|].
  rewrite exec_snoc. etransitivity; [exact IH | apply step_runs_length].
Qed.

(** As long as the job is in flight, the count of its profile's tabs has not
    moved. *)
Lemma exec_opens_no_tab (s : state) (events : list event) (key : str) (id : nat) :
  flight_inv s -> (id < length (runs s))%nat ->
  topPostsInflight (exec s events) !! key = Some id ->
  tabs_opened key (exec s events) = tabs_opened key s.
Proof.
  intros Hinv Hlt. induction events as [|e events IH] using rev_ind; [reflexivity|].
  rewrite exec_snoc. intros Hfl.
  assert (Hprev : topPostsInflight (exec s events) !! key = Some id).
  { eapply step_inflight_back; [| |exact Hfl].
    - apply flight_inv_exec. exact Hinv.
    - eapply Nat.lt_le_trans; [exact Hlt | apply exec_runs_length]. }
  rewrite (step_opens_no_tab _ e key id Hprev). apply IH. exact Hprev.
Qed.

(** C3: in every state the worker can reach, a job that has opened a tab
    (its [tabId] is a valid id [t]) has called [chrome.tabs.remove(t)] as
    soon as it is in its [finally] block or settled, whatever the way out of
    the [try] block was, and as soon as it is cancelled. *)
Theorem every_exit_closes_tab (events : list event) (id : nat) (r : run) (t : Z) :
  runs (exec init events) !! id = Some r ->
  local_tabId r = Some t -> 0 < t ->
  ((exists out, run_pc r = AwaitClose t out) -> TabsRemove t ∈ calls (exec init events))
  /\ ((exists result, run_pc r = Settled result) -> TabsRemove t ∈ calls (exec init events))
  /\ (job_cancelled r = true -> TabsRemove t ∈ calls (exec init events)).
Proof.
  intros Hr Hl Ht.
  pose proof (tab_inv_exec init events tab_inv_init id r Hr) as Hok.
  unfold run_ok in Hok. split; [|split].
  - intros (out & Hpc). rewrite Hpc in Hok. tauto.
  - intros (result & Hpc). rewrite Hpc in Hok. destruct Hok as [_ Hrem]. auto.
  - intros Hc. destruct (run_pc r).
    + destruct Hok as [Hn _]. congruence.
    + destruct Hok as (Hl' & _ & _ & Hrem). rewrite Hl in Hl'. injection Hl' as <-. auto.
    + destruct Hok as (Hl' & _ & _ & Hrem). rewrite Hl in Hl'. injection Hl' as <-. auto.
    + destruct Hok as (Hl' & _ & _ & Hrem). rewrite Hl in Hl'. injection Hl' as <-. auto.
    + destruct Hok as (Hl' & _ & _ & Hrem). rewrite Hl in Hl'. injection Hl' as <-. auto.
    + destruct Hok as (Hl' & _ & _ & Hrem). rewrite Hl in Hl'. injection Hl' as <-. auto.
    + destruct Hok as (Hl' & _ & _ & Hrem). rewrite Hl in Hl'. injection Hl' as <-. auto.
    + destruct Hok as (Hl' & _ & _ & Hrem). rewrite Hl in Hl'. injection Hl' as <-. auto.
    + destruct Hok as [_ Hrem]. auto.
Qed.

(** C2: a request for a profile whose job is in flight, without fresh cache
    entry, leaves the state as it is and answers with the promise of that
    job; and from a request that starts a job for a profile to any later
    request for that profile made while the job is in flight, exactly one
    tab has been opened for the profile. *)
Theorem single_flight (events0 : list event) (key : str) (now1 : Z) :
  let s0 := exec init events0 in
  let id := length (runs s0) in
  let s1 := fst (getProfileTopPosts s0 (Some key) now1) in
  topPostsInflight s0 !! key = None ->
  fresh (topPostsCache s0 !! key) now1 = None ->
  (forall (s : state) k i now,
     topPostsInflight s !! k = Some i -> fresh (topPostsCache s !! k) now = None ->
     getProfileTopPosts s (Some k) now = (s, ReplyPromise i))
  /\ snd (getProfileTopPosts s0 (Some key) now1) = ReplyPromise id
  /\ tabs_opened key s1 = S (tabs_opened key s0)
  /\ (forall events now2,
        let s2 := exec s1 events in
        topPostsInflight s2 !! key = Some id ->
        fresh (topPostsCache s2 !! key) now2 = None ->
        getProfileTopPosts s2 (Some key) now2 = (s2, ReplyPromise id)
        /\ tabs_opened key (fst (getProfileTopPosts s2 (Some key) now2))
           = S (tabs_opened key s0)).
Proof.
  intros s0 id s1 Hfl Hfresh.
  assert (Hjoin : forall (s : state) k i now,
     topPostsInflight s !! k = Some i -> fresh (topPostsCache s !! k) now = None ->
     getProfileTopPosts s (Some k) now = (s, ReplyPromise i)).
  { intros s k i now Hi Hf. unfold getProfileTopPosts. rewrite Hf, Hi. reflexivity. }
  assert (Hs1 : getProfileTopPosts s0 (Some key) now1
                = ({| topPostsCache := topPostsCache s0;
                      topPostsInflight := <[key := id]> (topPostsInflight s0);
                      topPostsJobs := <[key := id]> (topPostsJobs s0);
                      runs := runs s0 ++
                        [{| run_key := key; job_cancelled := false; job_tabId := None;
                            local_tabId := None; local_cached := topPostsCache s0 !! key;
                            run_pc := AwaitCreate |}];
                      calls := calls s0 ++ [TabsCreate key] |}, ReplyPromise id)).
  { unfold getProfileTopPosts. rewrite Hfresh, Hfl. reflexivity. }
  assert (Hopen : tabs_opened key s1 = S (tabs_opened key s0)).
  { unfold s1. rewrite Hs1. unfold tabs_opened. simpl.
    rewrite List.filter_app, length_app. simpl.
    rewrite bool_decide_eq_true_2 by reflexivity. simpl. lia. }
  split; [exact Hjoin|]. split; [rewrite Hs1; reflexivity|]. split; [exact Hopen|].
  intros events now2 s2 Hfl2 Hfresh2.
  rewrite (Hjoin s2 key id now2 Hfl2 Hfresh2). split; [reflexivity|]. simpl.
  rewrite <- Hopen. unfold s2. apply (exec_opens_no_tab s1 events key id).
  - unfold s1. apply flight_inv_get. unfold s0. apply flight_inv_exec.
    apply flight_inv_init.
  - unfold s1. rewrite Hs1. simpl. rewrite length_app. simpl. unfold id. lia.
  - exact Hfl2.
Qed.

End Orch.

(** The ways out of a scrape, each on the toy data: the answer, a failed
    extraction, a failed load, and a cancellation before and after the tab
    is known.  Tab 7 is closed in every one. *)
Lemma exit_paths_close_tab :
  Forall (fun trace => TabsRemove 7 ∈ calls (Demo.run_events trace))
    [Demo.trace_success; Demo.trace_extraction_failure; Demo.trace_load_failure;
     Demo.trace_cancel_early; Demo.trace_cancel_late].
Proof.
  repeat constructor; apply (bool_decide_unpack _); vm_compute; exact I.
Qed.

(** Two callers of one job: the second request joins the first while the
    tab is loading; when the job is done both hold its result. *)
Lemma joined_callers_receive_result :
  let before := Demo.run_events (take 3 Demo.trace_success) in
  let after := Demo.run_events Demo.trace_success in
  snd (getProfileTopPosts (Demo.run_events []) (Some Demo.jane) 1000) = ReplyPromise 0
  /\ snd (getProfileTopPosts before (Some Demo.jane) 1002) = ReplyPromise 0
  /\ received after (ReplyPromise 0) = Some (Fulfilled 42%nat)
  /\ tabs_opened Demo.jane after = 1%nat.
Proof. cbv zeta. split_and!; vm_compute; reflexivity. Qed.

Lemma every_exit_closes_tab_witness :
  TabsRemove 7 ∈ calls (Demo.run_events Demo.trace_cancel_early).
Proof.
  eapply (every_exit_closes_tab (fun d : nat => d) 0%nat Demo.trace_cancel_early 0 _ 7).
  - vm_compute. reflexivity.
  - reflexivity.
  - lia.
  - reflexivity.
Defined.

Lemma single_flight_witness :
  let s1 := Demo.run_events [GetTopPosts (Some Demo.jane) 1000] in
  let s2 := Demo.run_events
              [GetTopPosts (Some Demo.jane) 1000;
               Resume 0 (TabCreated (Some 7)) 1001;
               Resume 0 Done 1002] in
  getProfileTopPosts s2 (Some Demo.jane) 1003 = (s2, ReplyPromise 0)
  /\ tabs_opened Demo.jane (fst (getProfileTopPosts s2 (Some Demo.jane) 1003)) = 1%nat.
Proof.
  cbv zeta.
  apply (proj2 (proj2 (proj2
           (single_flight (fun d : nat => d) 0%nat [] Demo.jane 1000
              ltac:(vm_compute; reflexivity) ltac:(vm_compute; reflexivity))))
         [Resume 0 (TabCreated (Some 7)) 1001; Resume 0 Done 1002] 1003).
  - vm_compute. reflexivity.
  - vm_compute. reflexivity.
Defined.

End OrchestratorProps.

